(** * portfolio_site: the page controller of [assets/js/script.js]

    A shallow embedding of the client-side script.  The document is a store
    of elements addressed by their position in document order; the script's
    top-level [const] bindings are computed from it with [querySelector] and
    [querySelectorAll]; every event listener is a function on the page state;
    [setTimeout] callbacks are first-order tasks kept in a timer queue that
    [elapse] drains in firing order.

    A click that several listeners hear (the element's own and the
    document's) is the sequence of their events.

    The throttled scroll listeners, the intersection observers and the
    preloader are modelled beside the controllers, in [Page].

    Not modelled: the smooth scroll of anchor links (its target is a
    selector read from an [href]), the typing animation, the performance
    log, the service worker stub and the deployment shell scripts. *)

From Stdlib Require Import Ascii String ZArith Lia.
From stdpp Require Import base option list gmap strings.

Set Warnings "-clear-no-such-hyp".

Open Scope string_scope.
Open Scope Z_scope.
Open Scope list_scope.

(** ** Strings *)

Module Str.

(** [s.slice(1)] *)
Definition slice1 (s : string) : string :=
  match s with
  | EmptyString => EmptyString
  | String _ rest => rest
  end.

(** [s.charAt(0)] *)
Definition charAt0 (s : string) : string :=
  match s with
  | EmptyString => EmptyString
  | String c _ => String c EmptyString
  end.

(** A string is truthy in a condition unless it is empty. *)
Definition truthy (s : string) : bool :=
  match s with
  | EmptyString => false
  | String _ _ => true
  end.

(** [s.includes(sub)], as a proposition. *)
Definition includes (sub s : string) : Prop :=
  ∃ before after, s = before +:+ sub +:+ after.

Definition quote : string := String "034"%char EmptyString.

Fixpoint map_chars (f : ascii → ascii) (s : string) : string :=
  match s with
  | EmptyString => EmptyString
  | String c rest => String (f c) (map_chars f rest)
  end.

Definition lower_char (c : ascii) : ascii :=
  let n := nat_of_ascii c in
  if ((65 <=? n) && (n <=? 90))%nat then ascii_of_nat (n + 32) else c.

Definition upper_char (c : ascii) : ascii :=
  let n := nat_of_ascii c in
  if ((97 <=? n) && (n <=? 122))%nat then ascii_of_nat (n - 32) else c.

Fixpoint has_char (c : ascii) (s : string) : bool :=
  match s with
  | EmptyString => false
  | String d rest => if Ascii.eqb c d then true else has_char c rest
  end.

(** Tab, line feed, vertical tab, form feed, carriage return, space. *)
Definition is_space (c : ascii) : bool :=
  let n := nat_of_ascii c in
  ((9 <=? n) && (n <=? 13) || (n =? 32))%nat.

Fixpoint trim_start (s : string) : string :=
  match s with
  | EmptyString => EmptyString
  | String c rest => if is_space c then trim_start rest else s
  end.

Fixpoint trim_end (s : string) : string :=
  match s with
  | EmptyString => EmptyString
  | String c rest =>
      match trim_end rest with
      | EmptyString => if is_space c then EmptyString else String c EmptyString
      | kept => String c kept
      end
  end.

End Str.

(** ** Built-ins of the host

    The script calls [String.prototype.toLowerCase], [toUpperCase] and
    [trim], the CSS selector parser and the browser's native constraint
    validation.  Their tables are not part of the repository, so the
    development is parametric in them; [ascii_host] is the instance on
    plain ASCII text used to run the model. *)

Class Host := {
  toLowerCase : string → string;
  toUpperCase : string → string;
  trim : string → string;
  (** the text that the selector parser reads from a double-quoted string
      with this content, escapes resolved *)
  cssString : string → string;
  (** does a non-empty value fit the format that the control's [type] and
      [pattern] attributes ask for? *)
  formatAccepts : option string → option string → string → bool;
}.

Definition ascii_format (type pattern : option string) (v : string) : bool :=
  match type with
  | Some "email" => Str.has_char "@"%char v
  | _ => true
  end.

(** On text without a backslash the selector parser reads a quoted string
    back as it is. *)
Definition ascii_host : Host := {|
  toLowerCase := Str.map_chars Str.lower_char;
  toUpperCase := Str.map_chars Str.upper_char;
  trim := λ s, Str.trim_end (Str.trim_start s);
  cssString := λ s, s;
  formatAccepts := ascii_format;
|}.

(** ** Elements

    An element as the script sees it: tag, parent, content attributes,
    class list, inline style, and its content read as markup ([innerHTML])
    and as text ([innerText]).  The two readings are two fields, and
    content is a string: the markup is taken to be one in which an element
    whose content the script writes ([data-modal-title], [data-modal-text],
    [data-select-value], [data-form-btn]) is not read through the other
    property and holds no element the script looks up.  [value] is the
    current value of a form control, [defaultValue] the one that
    [form.reset()] brings back. *)

Abbreviation node := nat (only parsing).

Record Element := mkElement {
  tagName : string;
  parentNode : option node;
  attributes : gmap string string;
  classList : gset string;
  style : gmap string string;
  innerHTML : string;
  innerText : string;
  value : string;
  defaultValue : string;
}.

Definition with_attributes (f : gmap string string → gmap string string) (e : Element) : Element :=
  mkElement (tagName e) (parentNode e) (f (attributes e)) (classList e) (style e)
            (innerHTML e) (innerText e) (value e) (defaultValue e).

Definition with_classList (f : gset string → gset string) (e : Element) : Element :=
  mkElement (tagName e) (parentNode e) (attributes e) (f (classList e)) (style e)
            (innerHTML e) (innerText e) (value e) (defaultValue e).

Definition with_style (f : gmap string string → gmap string string) (e : Element) : Element :=
  mkElement (tagName e) (parentNode e) (attributes e) (classList e) (f (style e))
            (innerHTML e) (innerText e) (value e) (defaultValue e).

Definition with_innerHTML (h : string) (e : Element) : Element :=
  mkElement (tagName e) (parentNode e) (attributes e) (classList e) (style e)
            h (innerText e) (value e) (defaultValue e).

Definition with_innerText (t : string) (e : Element) : Element :=
  mkElement (tagName e) (parentNode e) (attributes e) (classList e) (style e)
            (innerHTML e) t (value e) (defaultValue e).

Definition with_value (v : string) (e : Element) : Element :=
  mkElement (tagName e) (parentNode e) (attributes e) (classList e) (style e)
            (innerHTML e) (innerText e) v (defaultValue e).

(** [DOMTokenList] operations on one element. *)
Definition class_add (c : string) : Element → Element := with_classList (λ cs, cs ∪ {[c]}).
Definition class_remove (c : string) : Element → Element := with_classList (λ cs, cs ∖ {[c]}).
Definition class_toggle (c : string) : Element → Element :=
  with_classList (λ cs, if decide (c ∈ cs) then cs ∖ {[c]} else cs ∪ {[c]}).
Definition class_contains (c : string) (e : Element) : bool := bool_decide (c ∈ classList e).

Definition attr_set (a v : string) : Element → Element := with_attributes (λ m, <[a:=v]> m).
Definition attr_remove (a : string) : Element → Element := with_attributes (λ m, delete a m).

(** [img.src] and [img.alt] reflect the content attributes; the URL in
    [src] is taken as written, not resolved against the page's address. *)
Definition reflected (a : string) (e : Element) : string := default "" (attributes e !! a).

(** ** Timers *)

Inductive Task :=
  | RevealItem (item : node)
  | DebounceLater (input : node)
  | SubmitResume (originalText : option string)
  | SubmitReset (originalText : option string).

Record Timer := mkTimer {
  timerId : nat;
  due : Z;
  task : Task;
}.

(** ** Page state *)

Record State := mkState {
  nodes : list Element;
  documentElement : Element;
  body : Element;
  title : string;
  locationHash : string;
  scrollY : Z;
  activeElement : option node;
  localStorage : gmap string string;
  lastClickedBtn : option node;
  debounceTimeout : gmap node nat;
  clock : Z;
  timers : list Timer;
  nextTimerId : nat;
}.

Definition with_nodes (f : list Element → list Element) (s : State) : State :=
  mkState (f (nodes s)) (documentElement s) (body s) (title s) (locationHash s) (scrollY s)
          (activeElement s) (localStorage s) (lastClickedBtn s) (debounceTimeout s)
          (clock s) (timers s) (nextTimerId s).

Definition with_documentElement (f : Element → Element) (s : State) : State :=
  mkState (nodes s) (f (documentElement s)) (body s) (title s) (locationHash s) (scrollY s)
          (activeElement s) (localStorage s) (lastClickedBtn s) (debounceTimeout s)
          (clock s) (timers s) (nextTimerId s).

Definition with_body (f : Element → Element) (s : State) : State :=
  mkState (nodes s) (documentElement s) (f (body s)) (title s) (locationHash s) (scrollY s)
          (activeElement s) (localStorage s) (lastClickedBtn s) (debounceTimeout s)
          (clock s) (timers s) (nextTimerId s).

Definition with_title (t : string) (s : State) : State :=
  mkState (nodes s) (documentElement s) (body s) t (locationHash s) (scrollY s)
          (activeElement s) (localStorage s) (lastClickedBtn s) (debounceTimeout s)
          (clock s) (timers s) (nextTimerId s).

Definition with_locationHash (h : string) (s : State) : State :=
  mkState (nodes s) (documentElement s) (body s) (title s) h (scrollY s)
          (activeElement s) (localStorage s) (lastClickedBtn s) (debounceTimeout s)
          (clock s) (timers s) (nextTimerId s).

Definition with_scrollY (y : Z) (s : State) : State :=
  mkState (nodes s) (documentElement s) (body s) (title s) (locationHash s) y
          (activeElement s) (localStorage s) (lastClickedBtn s) (debounceTimeout s)
          (clock s) (timers s) (nextTimerId s).

Definition with_activeElement (a : option node) (s : State) : State :=
  mkState (nodes s) (documentElement s) (body s) (title s) (locationHash s) (scrollY s)
          a (localStorage s) (lastClickedBtn s) (debounceTimeout s)
          (clock s) (timers s) (nextTimerId s).

Definition with_localStorage (f : gmap string string → gmap string string) (s : State) : State :=
  mkState (nodes s) (documentElement s) (body s) (title s) (locationHash s) (scrollY s)
          (activeElement s) (f (localStorage s)) (lastClickedBtn s) (debounceTimeout s)
          (clock s) (timers s) (nextTimerId s).

Definition with_lastClickedBtn (b : option node) (s : State) : State :=
  mkState (nodes s) (documentElement s) (body s) (title s) (locationHash s) (scrollY s)
          (activeElement s) (localStorage s) b (debounceTimeout s)
          (clock s) (timers s) (nextTimerId s).

Definition with_debounceTimeout (f : gmap node nat → gmap node nat) (s : State) : State :=
  mkState (nodes s) (documentElement s) (body s) (title s) (locationHash s) (scrollY s)
          (activeElement s) (localStorage s) (lastClickedBtn s) (f (debounceTimeout s))
          (clock s) (timers s) (nextTimerId s).

Definition with_clock (t : Z) (s : State) : State :=
  mkState (nodes s) (documentElement s) (body s) (title s) (locationHash s) (scrollY s)
          (activeElement s) (localStorage s) (lastClickedBtn s) (debounceTimeout s)
          t (timers s) (nextTimerId s).

Definition with_timers (f : list Timer → list Timer) (s : State) : State :=
  mkState (nodes s) (documentElement s) (body s) (title s) (locationHash s) (scrollY s)
          (activeElement s) (localStorage s) (lastClickedBtn s) (debounceTimeout s)
          (clock s) (f (timers s)) (nextTimerId s).

Definition with_nextTimerId (n : nat) (s : State) : State :=
  mkState (nodes s) (documentElement s) (body s) (title s) (locationHash s) (scrollY s)
          (activeElement s) (localStorage s) (lastClickedBtn s) (debounceTimeout s)
          (clock s) (timers s) n.

(** ** DOM access through the store

    A node that is not in the store reads as an element without content;
    writing to it changes nothing.  The script only ever holds nodes it got
    from a query, so neither case arises on bound nodes (see
    [querySelectorAll_lookup]). *)

Definition update (n : node) (f : Element → Element) : State → State :=
  with_nodes (alter f n).

Definition hasClass (s : State) (n : node) (c : string) : bool :=
  from_option (class_contains c) false (nodes s !! n).

Definition getAttribute (s : State) (n : node) (a : string) : option string :=
  nodes s !! n ≫= λ e, attributes e !! a.

Definition innerHTMLOf (s : State) (n : node) : string :=
  from_option innerHTML "" (nodes s !! n).

Definition innerTextOf (s : State) (n : node) : string :=
  from_option innerText "" (nodes s !! n).

Definition valueOf (s : State) (n : node) : string :=
  from_option value "" (nodes s !! n).

Definition reflectedOf (s : State) (n : node) (a : string) : string :=
  from_option (reflected a) "" (nodes s !! n).

(** ** Selectors *)

Inductive Selector :=
  | HasAttr (a : string)            (* [a] *)
  | AttrIs (a v : string)           (* [a="v"] *)
  | IdIs (i : string)               (* #i *)
  | TagIs (t : string).             (* t *)

Definition matches (sel : Selector) (e : Element) : bool :=
  match sel with
  | HasAttr a => bool_decide (is_Some (attributes e !! a))
  | AttrIs a v => bool_decide (attributes e !! a = Some v)
  | IdIs i => bool_decide (attributes e !! "id" = Some i)
  | TagIs t => bool_decide (tagName e = t)
  end.

Definition matchesAt (sel : Selector) (d : list Element) (n : node) : bool :=
  from_option (matches sel) false (d !! n).

Definition querySelectorAll (sel : Selector) (d : list Element) : list node :=
  filter (λ n, matchesAt sel d n = true) (seq 0 (length d)).

Definition querySelector (sel : Selector) (d : list Element) : option node :=
  head (querySelectorAll sel d).

(** [a.contains(b)]: [a] is [b] or one of its ancestors.  The parent chain
    of a node is shorter than the store. *)
Fixpoint ancestorOrSelf (fuel : nat) (d : list Element) (a b : node) : bool :=
  bool_decide (a = b) ||
  match fuel with
  | O => false
  | S fuel' =>
      match d !! b ≫= parentNode with
      | Some p => ancestorOrSelf fuel' d a p
      | None => false
      end
  end.

Definition contains (d : list Element) (a b : node) : bool :=
  ancestorOrSelf (length d) d a b.

(** [root.querySelector(sel)]: the first proper descendant that matches. *)
Definition querySelectorAllIn (root : node) (sel : Selector) (d : list Element) : list node :=
  filter (λ n, n ≠ root ∧ contains d root n = true) (querySelectorAll sel d).

Definition querySelectorIn (root : node) (sel : Selector) (d : list Element) : option node :=
  head (querySelectorAllIn root sel d).

(** ** The script's top-level bindings (lines 59-60, 87, 124-132, 189-193,
    265-267, 347-348, 630-631, 648) *)

Record Bindings := mkBindings {
  sidebar : option node;
  sidebarBtn : option node;
  themeToggle : option node;
  testimonialsItems : list node;
  modalContainer : option node;
  modalCloseBtn : option node;
  overlay : option node;
  modalImg : option node;
  modalTitle : option node;
  modalText : option node;
  select : option node;
  selectItems : list node;
  selectValue : option node;
  filterBtns : list node;
  filterItems : list node;
  form : option node;
  formInputs : list node;
  formBtn : option node;
  navigationLinks : list node;
  pages : list node;
  mobileMenuBtn : option node;
  navLinks : option node;
  mobileLinks : list node;
}.

Definition bind (d : list Element) : Bindings := {|
  sidebar := querySelector (HasAttr "data-sidebar") d;
  sidebarBtn := querySelector (HasAttr "data-sidebar-btn") d;
  themeToggle := querySelector (IdIs "themeToggle") d;
  testimonialsItems := querySelectorAll (HasAttr "data-testimonials-item") d;
  modalContainer := querySelector (HasAttr "data-modal-container") d;
  modalCloseBtn := querySelector (HasAttr "data-modal-close-btn") d;
  overlay := querySelector (HasAttr "data-overlay") d;
  modalImg := querySelector (HasAttr "data-modal-img") d;
  modalTitle := querySelector (HasAttr "data-modal-title") d;
  modalText := querySelector (HasAttr "data-modal-text") d;
  select := querySelector (HasAttr "data-select") d;
  selectItems := querySelectorAll (HasAttr "data-select-item") d;
  selectValue := querySelector (HasAttr "data-select-value") d;
  filterBtns := querySelectorAll (HasAttr "data-filter-btn") d;
  filterItems := querySelectorAll (HasAttr "data-filter-item") d;
  form := querySelector (HasAttr "data-form") d;
  formInputs := querySelectorAll (HasAttr "data-form-input") d;
  formBtn := querySelector (HasAttr "data-form-btn") d;
  navigationLinks := querySelectorAll (HasAttr "data-nav-link") d;
  pages := querySelectorAll (HasAttr "data-page") d;
  mobileMenuBtn := querySelector (IdIs "mobileMenuBtn") d;
  navLinks := querySelector (IdIs "navLinks") d;
  mobileLinks :=
    match querySelector (IdIs "mobileMenuBtn") d, querySelector (IdIs "navLinks") d with
    | Some _, Some nav => querySelectorAllIn nav (TagIs "a") d
    | _, _ => []
    end;
|}.

(** [o?.m(...)]: the call happens only when [o] is bound. *)
Definition whenBound (o : option node) (f : Element → Element) (s : State) : State :=
  match o with
  | Some n => update n f s
  | None => s
  end.

(** ** Utility functions *)

(** [elementToggleFunc] (lines 16-18) *)
Definition elementToggleFunc (elem : node) : State → State :=
  update elem (class_toggle "active").

(** [setTimeout]: the queue is kept in firing order, a new timer going
    behind every timer that is due no later than it. *)
Fixpoint enqueue (tm : Timer) (q : list Timer) : list Timer :=
  match q with
  | [] => [tm]
  | x :: q' => if due x <=? due tm then x :: enqueue tm q' else tm :: q
  end.

Definition setTimeout (t : Task) (delay : Z) (s : State) : nat * State :=
  let id := nextTimerId s in
  (id, with_nextTimerId (S id) (with_timers (enqueue (mkTimer id (clock s + delay) t)) s)).

Definition clearTimeout (id : option nat) (s : State) : State :=
  match id with
  | Some i => with_timers (filter (λ tm, timerId tm ≠ i)) s
  | None => s
  end.

(** [debounce(func, wait)] (lines 26-36), for the listener of one form
    input: [debounceTimeout s !! input] is the closure's [timeout]. *)
Definition debounced (input : node) (wait : Z) (s : State) : State :=
  let s1 := clearTimeout (debounceTimeout s !! input) s in
  let '(id, s2) := setTimeout (DebounceLater input) wait s1 in
  with_debounceTimeout (<[input := id]>) s2.

(** ** Sidebar (lines 59-81) *)

Definition sidebarBtn_click (b : Bindings) (s : State) : State :=
  match sidebar b, sidebarBtn b with
  | Some sb, Some btn =>
      let s1 := elementToggleFunc sb s in
      let isExpanded := hasClass s1 sb "active" in
      update btn (attr_set "aria-expanded" (if isExpanded then "true" else "false")) s1
  | _, _ => s
  end.

Definition sidebar_outside_click (b : Bindings) (target : node) (s : State) : State :=
  match sidebar b, sidebarBtn b with
  | Some sb, Some btn =>
      if hasClass s sb "active" && negb (contains (nodes s) sb target)
         && negb (contains (nodes s) btn target)
      then update btn (attr_set "aria-expanded" "false") (elementToggleFunc sb s)
      else s
  | _, _ => s
  end.

(** ** Theme (lines 87-118) *)

(** [localStorage.getItem('theme') || 'dark'] *)
Definition storedTheme (s : State) : string :=
  match localStorage s !! "theme" with
  | Some t => if Str.truthy t then t else "dark"
  | None => "dark"
  end.

Definition updateThemeIcon (b : Bindings) (theme : string) (s : State) : State :=
  match themeToggle b with
  | Some toggle =>
      match querySelectorIn toggle (TagIs "i") (nodes s) with
      | Some icon =>
          update icon (class_add (if bool_decide (theme = "dark") then "fa-moon" else "fa-sun"))
            (update icon (class_remove "fa-moon") (update icon (class_remove "fa-sun") s))
      | None => s
      end
  | None => s
  end.

Definition themeToggle_click (b : Bindings) (s : State) : State :=
  match themeToggle b with
  | Some _ =>
      let theme :=
        if bool_decide (attributes (documentElement s) !! "data-theme" = Some "dark")
        then "light" else "dark" in
      let s1 := with_documentElement (attr_set "data-theme" theme) s in
      let s2 := with_localStorage (<["theme" := theme]>) s1 in
      let s3 := updateThemeIcon b theme s2 in
      with_body (with_style (<["transition" := "background-color 0.3s ease, color 0.3s ease"]>)) s3
  | None => s
  end.

(** ** Testimonials modal (lines 124-183) *)

Definition testimonialsModalFunc (b : Bindings) (s : State) : State :=
  let s1 := whenBound (modalContainer b) (class_toggle "active") s in
  let s2 := whenBound (overlay b) (class_toggle "active") s1 in
  let s3 := with_body (class_toggle "no-scroll") s2 in
  match modalContainer b with
  | Some m =>
      if hasClass s3 m "active" then
        match modalCloseBtn b with
        | Some c => with_activeElement (Some c) s3
        | None => s3
        end
      else s3
  | None => s3
  end.

(** The first half of the item listener: the three guarded copies. *)
Definition copyTestimonial (b : Bindings) (item : node) (s : State) : State :=
  let avatar := querySelectorIn item (HasAttr "data-testimonials-avatar") (nodes s) in
  let title := querySelectorIn item (HasAttr "data-testimonials-title") (nodes s) in
  let text := querySelectorIn item (HasAttr "data-testimonials-text") (nodes s) in
  let s1 :=
    match modalImg b, avatar with
    | Some m, Some a =>
        let s' := update m (attr_set "src" (reflectedOf s a "src")) s in
        update m (attr_set "alt" (reflectedOf s' a "alt")) s'
    | _, _ => s
    end in
  let s2 :=
    match modalTitle b, title with
    | Some m, Some t => update m (with_innerHTML (innerHTMLOf s1 t)) s1
    | _, _ => s1
    end in
  match modalText b, text with
  | Some m, Some t => update m (with_innerHTML (innerHTMLOf s2 t)) s2
  | _, _ => s2
  end.

Definition testimonialsItem_click (b : Bindings) (item : node) (s : State) : State :=
  testimonialsModalFunc b (copyTestimonial b item s).

Definition escape_keydown (b : Bindings) (key : string) (s : State) : State :=
  match modalContainer b with
  | Some m =>
      if bool_decide (key = "Escape") && hasClass s m "active"
      then testimonialsModalFunc b s
      else s
  | None => s
  end.

(** ** Mobile menu (lines 630-662); both listeners are attached only when
    the button and the link list exist. *)

Definition mobileMenuBtn_click (b : Bindings) (s : State) : State :=
  match mobileMenuBtn b, navLinks b with
  | Some btn, Some nav =>
      let s1 := update nav (class_toggle "active") s in
      let s2 :=
        match querySelectorIn btn (TagIs "i") (nodes s1) with
        | Some icon =>
            update icon (class_toggle "fa-times") (update icon (class_toggle "fa-bars") s1)
        | None => s1
        end in
      with_body (class_toggle "no-scroll") s2
  | _, _ => s
  end.

Definition mobileLink_click (b : Bindings) (s : State) : State :=
  match mobileMenuBtn b, navLinks b with
  | Some btn, Some nav =>
      let s1 := update nav (class_remove "active") s in
      let s2 :=
        match querySelectorIn btn (TagIs "i") (nodes s1) with
        | Some icon =>
            update icon (class_add "fa-bars") (update icon (class_remove "fa-times") s1)
        | None => s1
        end in
      with_body (class_remove "no-scroll") s2
  | _, _ => s
  end.

Section Controllers.

Context `{host : Host}.

(** ** Portfolio filter (lines 189-259) *)

Definition select_click (b : Bindings) (s : State) : State :=
  match select b with
  | Some sel => elementToggleFunc sel s
  | None => s
  end.

(** The body of [filterItems.forEach] (lines 206-216). *)
Definition filterOne (selectedValue : string) (acc : State) (item : node) : State :=
  let category := getAttribute acc item "data-category" in
  if bool_decide (selectedValue = "all") || bool_decide (Some selectedValue = category)
  then (setTimeout (RevealItem item) 50 acc).2
  else update item (class_remove "active") acc.

(** [filterFunc] (lines 204-217) *)
Definition filterFunc (b : Bindings) (selectedValue : string) (s : State) : State :=
  foldl (filterOne selectedValue) s (filterItems b).

(** What a listener leaves behind: it ran to its end, or it stopped at an
    uncaught exception with the state as written so far. *)
Inductive Outcome :=
  | Completed (s : State)
  | Thrown (error : string) (s : State).

Definition stateOf (o : Outcome) : State :=
  match o with
  | Completed s => s
  | Thrown _ s => s
  end.

(** The listener of a dropdown item (lines 220-231).  [elementToggleFunc]
    reads [elem.classList], a [TypeError] when [select] is [null]. *)
Definition selectItem_click (b : Bindings) (item : node) (s : State) : Outcome :=
  let selectedValue := toLowerCase (innerTextOf s item) in
  let s1 :=
    match selectValue b with
    | Some sv => update sv (with_innerText (innerTextOf s item)) s
    | None => s
    end in
  match select b with
  | Some sel => Completed (filterFunc b selectedValue (elementToggleFunc sel s1))
  | None => Thrown "TypeError" s1
  end.

(** The listener of a filter button (lines 236-251). *)
Definition filterBtn_click (b : Bindings) (btn : node) (s : State) : State :=
  let selectedValue := toLowerCase (innerTextOf s btn) in
  let s1 :=
    match selectValue b with
    | Some sv => update sv (with_innerText (innerTextOf s btn)) s
    | None => s
    end in
  let s2 := filterFunc b selectedValue s1 in
  let s3 := whenBound (lastClickedBtn s2) (class_remove "active") s2 in
  let s4 := update btn (class_add "active") s3 in
  with_lastClickedBtn (Some btn) s4.

Definition select_outside_click (b : Bindings) (target : node) (s : State) : State :=
  match select b with
  | Some sel =>
      if hasClass s sel "active" && negb (contains (nodes s) sel target)
      then elementToggleFunc sel s
      else s
  | None => s
  end.

(** ** Contact form (lines 265-341) *)

(** The controls a form validates and resets: the input, textarea and
    select elements below it. *)
Definition isControl (e : Element) : bool :=
  bool_decide (tagName e = "input") || bool_decide (tagName e = "textarea")
  || bool_decide (tagName e = "select").

Definition formControls (d : list Element) (f : node) : list node :=
  filter (λ n, n ≠ f ∧ contains d f n = true ∧ from_option isControl false (d !! n) = true)
         (seq 0 (length d)).

(** Native constraint validation of one control: a required control needs
    a value, and a value has to fit the control's format. *)
Definition isRequired (e : Element) : bool :=
  bool_decide (is_Some (attributes e !! "required")).

Definition satisfiesConstraints (e : Element) : bool :=
  (negb (isRequired e) || Str.truthy (value e))
  && (negb (Str.truthy (value e))
      || formatAccepts (attributes e !! "type") (attributes e !! "pattern") (value e)).

Definition checkValidity (d : list Element) (f : node) : bool :=
  forallb (λ n, from_option satisfiesConstraints true (d !! n)) (formControls d f).

(** [form?.checkValidity()] as a condition: [undefined] is falsy. *)
Definition formIsValid (b : Bindings) (s : State) : bool :=
  match form b with
  | Some f => checkValidity (nodes s) f
  | None => false
  end.

(** [validateForm] (lines 272-278) *)
Definition validateForm (b : Bindings) (s : State) : State :=
  if formIsValid b s
  then whenBound (formBtn b) (attr_remove "disabled") s
  else whenBound (formBtn b) (attr_set "disabled" "") s.

Definition isDisabled (s : State) (n : node) : bool :=
  bool_decide (is_Some (getAttribute s n "disabled")).

(** The [blur] listener of one form input (lines 285-291). *)
Definition formInput_blur (input : node) (s : State) : State :=
  if Str.truthy (trim (valueOf s input))
  then update input (class_add "has-value") s
  else update input (class_remove "has-value") s.

(** The [input] listener of one form input (line 282). *)
Definition formInput_input (input : node) (s : State) : State :=
  debounced input 300 s.

Definition sendingMarkup : string :=
  "<i class=" +:+ Str.quote +:+ "fas fa-spinner fa-spin" +:+ Str.quote +:+ "></i> Sending...".

Definition sentMarkup : string :=
  "<i class=" +:+ Str.quote +:+ "fas fa-check" +:+ Str.quote +:+ "></i> Sent!".

(** [form.reset()]: every control goes back to its default value. *)
Definition formReset (f : node) (s : State) : State :=
  foldl (λ acc n, update n (λ e, with_value (defaultValue e) e) acc) s (formControls (nodes s) f).

(** The [submit] listener up to its [await] (lines 295-310). *)
Definition form_submit (b : Bindings) (s : State) : State :=
  match form b with
  | Some f =>
      if negb (checkValidity (nodes s) f) then s
      else
        let s1 := whenBound (formBtn b) (attr_set "disabled" "") s in
        let originalText := (λ n, innerHTMLOf s1 n) <$> formBtn b in
        let s2 := whenBound (formBtn b) (with_innerHTML sendingMarkup) s1 in
        (setTimeout (SubmitResume originalText) 2000 s2).2
  | None => s
  end.

(** The listener after the [await] (lines 312-324); the promise it waits
    for cannot reject, so the [catch] block never runs. *)
Definition submit_resume (b : Bindings) (originalText : option string) (s : State) : State :=
  let s1 := whenBound (formBtn b) (with_innerHTML sentMarkup) s in
  (setTimeout (SubmitReset originalText) 2000 s1).2.

(** The reset callback (lines 318-324).  Assigning [undefined] to
    [innerHTML] writes the text "undefined". *)
Definition submit_reset (b : Bindings) (originalText : option string) (s : State) : State :=
  let s1 :=
    match form b with
    | Some f => formReset f s
    | None => s
    end in
  let s2 := whenBound (formBtn b) (with_innerHTML (default "undefined" originalText)) s1 in
  foldl (λ acc input, update input (class_remove "has-value") acc) s2 (formInputs b).

(** ** Page navigation (lines 347-415) *)

Definition capitalized (pageName : string) : string :=
  toUpperCase (Str.charAt0 pageName) +:+ Str.slice1 pageName.

Definition pageTitle (pageName : string) : string :=
  capitalized pageName +:+ " - Portfolio".

(** The body of [pages.forEach] (lines 356-369). *)
Definition showPage (pageName : string) (acc : State) (page : node) : State :=
  if bool_decide (Some pageName = getAttribute acc page "data-page")
  then with_title (pageTitle pageName) (with_scrollY 0 (update page (class_add "active") acc))
  else update page (class_remove "active") acc.

(** The body of [navigationLinks.forEach] (lines 374-379). *)
Definition markLink (pageName : string) (acc : State) (link : node) : State :=
  let linkPage := toLowerCase (innerHTMLOf acc link) in
  if bool_decide (linkPage = pageName)
  then update link (class_add "active") acc
  else update link (class_remove "active") acc.

(** [navigateToPage] (lines 354-381) *)
Definition navigateToPage (b : Bindings) (pageName : string) (s : State) : State :=
  foldl (markLink pageName) (foldl (showPage pageName) s (pages b)) (navigationLinks b).

(** The click listener of a navigation link (lines 385-394). *)
Definition navigationLink_click (b : Bindings) (link : node) (s : State) : State :=
  let pageName := toLowerCase (innerHTMLOf s link) in
  with_locationHash ("#" +:+ pageName) (navigateToPage b pageName s).

(** The [popstate] listener (lines 398-405). *)
Definition popstate (b : Bindings) (s : State) : State :=
  let hash := Str.slice1 (locationHash s) in
  if Str.truthy hash then navigateToPage b hash s else navigateToPage b "about" s.

(** [initializePage] (lines 408-415).  The selector is put together from
    the fragment, which the parser reads as a quoted string. *)
Definition initializePage (b : Bindings) (s : State) : State :=
  let hash := Str.slice1 (locationHash s) in
  if Str.truthy hash
     && bool_decide (is_Some (querySelector (AttrIs "data-page" (cssString hash)) (nodes s)))
  then navigateToPage b hash s
  else navigateToPage b "about" s.

(** ** Timer callbacks and the passing of time *)

Definition runTask (b : Bindings) (t : Task) (s : State) : State :=
  match t with
  | RevealItem item => update item (class_add "active") s
  | DebounceLater input => validateForm b (clearTimeout (debounceTimeout s !! input) s)
  | SubmitResume originalText => submit_resume b originalText s
  | SubmitReset originalText => submit_reset b originalText s
  end.

(** The head timer [tm] fires: it leaves the queue, the clock has reached
    its time, its callback runs. *)
Definition fire (b : Bindings) (tm : Timer) (q : list Timer) (s : State) : State :=
  runTask b (task tm) (with_clock (Z.max (clock s) (due tm)) (with_timers (λ _, q) s)).

(** Timers fire head first while they are due by [horizon]. *)
Fixpoint runTimers (fuel : nat) (b : Bindings) (horizon : Z) (s : State) : State :=
  match fuel with
  | O => s
  | S fuel' =>
      match timers s with
      | tm :: q =>
          if due tm <=? horizon
          then runTimers fuel' b horizon (fire b tm q s)
          else with_clock (Z.max (clock s) horizon) s
      | [] => with_clock (Z.max (clock s) horizon) s
      end
  end.

(** A callback starts at most one further timer ([SubmitResume] starts the
    reset), so this many rounds empty the queue of what is due. *)
Definition rounds (t : Task) : nat :=
  match t with
  | SubmitResume _ => 2
  | _ => 1
  end.

Definition pendingRounds (q : list Timer) : nat :=
  foldr (λ tm n, (rounds (task tm) + n)%nat) O q.

(** [ms] milliseconds pass with no event. *)
Definition elapse (b : Bindings) (ms : Z) (s : State) : State :=
  runTimers (S (pendingRounds (timers s))) b (clock s + ms) s.

(** ** The script's own run and the events of a session *)

(** Top-level statements with an effect (lines 91-92, 105, 234) followed by
    [initApp] (lines 686-705). *)
Definition runScript (b : Bindings) (s : State) : State :=
  let currentTheme := storedTheme s in
  let s1 := with_documentElement (attr_set "data-theme" currentTheme) s in
  let s2 := updateThemeIcon b currentTheme s1 in
  let s3 := with_lastClickedBtn (head (filterBtns b)) s2 in
  let s4 := initializePage b s3 in
  with_body (class_add "loaded") s4.

(** One listener invocation, or time passing.  A listener only exists on
    an element the script found: the others leave the state as it is. *)
Inductive Event :=
  | SidebarBtnClick
  | DocumentClick (target : node)
  | ThemeToggleClick
  | TestimonialsItemClick (item : node)
  | ModalCloseBtnClick
  | OverlayClick
  | KeyDown (key : string)
  | SelectClick
  | SelectItemClick (item : node)
  | FilterBtnClick (btn : node)
  | FormInputInput (input : node) (newValue : string)
  | FormInputBlur (input : node)
  | FormSubmit
  | NavigationLinkClick (link : node)
  | PopState (newHash : string)
  | MobileMenuBtnClick
  | MobileLinkClick (link : node)
  | Elapse (ms : Z).

Definition dispatch (b : Bindings) (ev : Event) (s : State) : Outcome :=
  match ev with
  | SidebarBtnClick => Completed (sidebarBtn_click b s)
  | DocumentClick target =>
      Completed (select_outside_click b target (sidebar_outside_click b target s))
  | ThemeToggleClick => Completed (themeToggle_click b s)
  | TestimonialsItemClick item =>
      Completed (if bool_decide (item ∈ testimonialsItems b)
                 then testimonialsItem_click b item s else s)
  | ModalCloseBtnClick =>
      Completed (match modalCloseBtn b with Some _ => testimonialsModalFunc b s | None => s end)
  | OverlayClick =>
      Completed (match overlay b with Some _ => testimonialsModalFunc b s | None => s end)
  | KeyDown key => Completed (escape_keydown b key s)
  | SelectClick => Completed (select_click b s)
  | SelectItemClick item =>
      if bool_decide (item ∈ selectItems b) then selectItem_click b item s else Completed s
  | FilterBtnClick btn =>
      Completed (if bool_decide (btn ∈ filterBtns b) then filterBtn_click b btn s else s)
  | FormInputInput input newValue =>
      let s1 := update input (with_value newValue) s in
      Completed (if bool_decide (input ∈ formInputs b) then formInput_input input s1 else s1)
  | FormInputBlur input =>
      Completed (if bool_decide (input ∈ formInputs b) then formInput_blur input s else s)
  | FormSubmit => Completed (form_submit b s)
  | NavigationLinkClick link =>
      Completed (if bool_decide (link ∈ navigationLinks b)
                 then navigationLink_click b link s else s)
  | PopState newHash => Completed (popstate b (with_locationHash newHash s))
  | MobileMenuBtnClick => Completed (mobileMenuBtn_click b s)
  | MobileLinkClick link =>
      Completed (if bool_decide (link ∈ mobileLinks b) then mobileLink_click b s else s)
  | Elapse ms => Completed (elapse b ms s)
  end.

(** A session: events in order; an exception ends the listener it is
    thrown in, not the page. *)
Definition run (b : Bindings) (evs : list Event) (s : State) : State :=
  foldl (λ acc ev, stateOf (dispatch b ev acc)) s evs.

End Controllers.

(** ** Scroll and viewport effects (lines 44-53, 421-541, 601-624, 668-677)

    The throttled scroll listeners, the three intersection observers and
    the preloader live beside the controllers: they have their own flags
    and their own [setTimeout] callbacks, kept in [Page] around the
    controllers' [State]. *)

(** The three functions that [throttle] returns, each with its own
    [inThrottle]. *)
Inductive Throttled :=
  | HandleScroll
  | HandleScrollTop
  | UpdateActiveNavOnScroll.

#[global] Instance Throttled_eq_dec : EqDecision Throttled.
Proof. solve_decision. Defined.

#[global] Instance Throttled_countable : Countable Throttled.
Proof.
  refine (inj_countable'
            (λ h, match h with
                  | HandleScroll => 0%nat
                  | HandleScrollTop => 1%nat
                  | UpdateActiveNavOnScroll => 2%nat
                  end)
            (λ n, match n with
                  | O => HandleScroll
                  | S O => HandleScrollTop
                  | _ => UpdateActiveNavOnScroll
                  end) _).
  by intros [].
Defined.

(** The callbacks these effects hand to [setTimeout]. *)
Inductive Job :=
  | ReleaseThrottle (h : Throttled)
  | FillSkillBar (progressBar : node) (targetWidth : string)
  | HidePreloader (preloader : node).

#[global] Instance Job_eq_dec : EqDecision Job.
Proof. solve_decision. Defined.

Record Deferred := mkDeferred {
  jobId : nat;
  jobDue : Z;
  job : Job;
}.

Record Page := mkPage {
  dom : State;
  inThrottle : gset Throttled;
  imageObserved : gset node;
  skillObserved : gset node;
  jobs : list Deferred;
}.

Definition onDom (f : State → State) (p : Page) : Page :=
  mkPage (f (dom p)) (inThrottle p) (imageObserved p) (skillObserved p) (jobs p).

Definition with_inThrottle (f : gset Throttled → gset Throttled) (p : Page) : Page :=
  mkPage (dom p) (f (inThrottle p)) (imageObserved p) (skillObserved p) (jobs p).

Definition with_imageObserved (f : gset node → gset node) (p : Page) : Page :=
  mkPage (dom p) (inThrottle p) (f (imageObserved p)) (skillObserved p) (jobs p).

Definition with_skillObserved (f : gset node → gset node) (p : Page) : Page :=
  mkPage (dom p) (inThrottle p) (imageObserved p) (f (skillObserved p)) (jobs p).

Definition with_jobs (f : list Deferred → list Deferred) (p : Page) : Page :=
  mkPage (dom p) (inThrottle p) (imageObserved p) (skillObserved p) (f (jobs p)).

(** Selectors with two conditions ([img[data-src]], [section[id]]) and the
    class selector ([.skill-progress-fill]). *)
Definition querySelectorAllWhere (p : Element → bool) (d : list Element) : list node :=
  filter (λ n, from_option p false (d !! n) = true) (seq 0 (length d)).

Definition isLazyImage (e : Element) : bool :=
  matches (TagIs "img") e && matches (HasAttr "data-src") e.

Definition isSection (e : Element) : bool :=
  matches (TagIs "section") e && matches (HasAttr "id") e.

(** The top-level bindings of these effects (lines 421, 437, 489, 510,
    601, 668). *)
Record EffectBindings := mkEffectBindings {
  header : option node;
  scrollTopBtn : option node;
  lazyImages : list node;
  animateElements : list node;
  skillProgressBars : list node;
  preloader : option node;
}.

Definition bindEffects (d : list Element) : EffectBindings := {|
  header := querySelector (IdIs "header") d;
  scrollTopBtn := querySelector (IdIs "scrollTop") d;
  lazyImages := querySelectorAllWhere isLazyImage d;
  animateElements := querySelectorAll (HasAttr "data-animate") d;
  skillProgressBars := querySelectorAllWhere (class_contains "skill-progress-fill") d;
  preloader := querySelector (HasAttr "data-preloader") d;
|}.

(** [setTimeout] for a callback of these effects: the identifier comes
    from the same counter as the controllers' timers. *)
Fixpoint enqueueJob (d : Deferred) (q : list Deferred) : list Deferred :=
  match q with
  | [] => [d]
  | x :: q' => if jobDue x <=? jobDue d then x :: enqueueJob d q' else d :: q
  end.

Definition defer (j : Job) (delay : Z) (p : Page) : Page :=
  let id := nextTimerId (dom p) in
  with_jobs (enqueueJob (mkDeferred id (clock (dom p) + delay) j))
            (onDom (with_nextTimerId (S id)) p).

(** [throttle(func, limit)] (lines 44-53): the call runs [func] and closes
    the gate for [limit] ms, or it is dropped. *)
Definition throttle (h : Throttled) (func : Page → Page) (limit : Z) (p : Page) : Page :=
  if bool_decide (h ∈ inThrottle p) then p
  else defer (ReleaseThrottle h) limit (with_inThrottle (λ hs, hs ∪ {[h]}) (func p)).

(** [s.includes(sub)], computed. *)
Fixpoint includesb (sub s : string) : bool :=
  String.prefix sub s ||
  match s with
  | EmptyString => false
  | String _ rest => includesb sub rest
  end.

Section Effects.

Context `{host : Host}.

(** [section.offsetTop], as the layout engine reports it. *)
Context (offsetTop : node → Z).

(** The header's scroll effect (lines 423-431). *)
Definition handleScroll_func (fx : EffectBindings) (s : State) : State :=
  if 100 <? scrollY s
  then whenBound (header fx) (class_add "scrolled") s
  else whenBound (header fx) (class_remove "scrolled") s.

Definition handleScroll (fx : EffectBindings) : Page → Page :=
  throttle HandleScroll (onDom (handleScroll_func fx)) 100.

(** The scroll-to-top button (lines 440-456). *)
Definition handleScrollTop_func (fx : EffectBindings) (s : State) : State :=
  if 500 <? scrollY s
  then whenBound (scrollTopBtn fx) (class_add "visible") s
  else whenBound (scrollTopBtn fx) (class_remove "visible") s.

Definition handleScrollTop (fx : EffectBindings) : Page → Page :=
  throttle HandleScrollTop (onDom (handleScrollTop_func fx)) 100.

Definition scrollTopBtn_click (fx : EffectBindings) (s : State) : State :=
  match scrollTopBtn fx with
  | Some _ => with_scrollY 0 s
  | None => s
  end.

(** The scroll spy of the navigation links (lines 520-541): [current] is
    the [id] of the last section the viewport has reached. *)
Definition currentSection (s : State) : string :=
  foldl (λ current section,
           if offsetTop section - 200 <=? scrollY s
           then default "" (getAttribute s section "id")
           else current)
        "" (querySelectorAllWhere isSection (nodes s)).

Definition spyLink (current : string) (acc : State) (link : node) : State :=
  let acc1 := update link (class_remove "active") acc in
  match getAttribute acc1 link "href" with
  | Some href => if includesb current href then update link (class_add "active") acc1 else acc1
  | None => acc1
  end.

Definition updateActiveNavOnScroll_func (b : Bindings) (s : State) : State :=
  foldl (spyLink (currentSection s)) s (navigationLinks b).

Definition updateActiveNavOnScroll (b : Bindings) : Page → Page :=
  throttle UpdateActiveNavOnScroll (onDom (updateActiveNavOnScroll_func b)) 100.

(** A scroll event: the three listeners in the order they were added
    (lines 431, 448, 541). *)
Definition scroll (b : Bindings) (fx : EffectBindings) (y : Z) (p : Page) : Page :=
  updateActiveNavOnScroll b (handleScrollTop fx (handleScroll fx (onDom (with_scrollY y) p))).

(** One entry of [imageObserver]'s callback (lines 467-481); an entry is
    its target and [isIntersecting]. *)
Definition imageObserver_entry (p : Page) (entry : node * bool) : Page :=
  let '(img, isIntersecting) := entry in
  if isIntersecting then
    let p1 :=
      match getAttribute (dom p) img "data-src" with
      | Some src =>
          if Str.truthy src
          then onDom (λ s, update img (class_add "loaded") (update img (attr_set "src" src) s)) p
          else p
      | None => p
      end in
    with_imageObserved (λ o, o ∖ {[img]}) p1
  else p.

(** One entry of [animateOnScroll]'s callback (lines 497-501). *)
Definition animateOnScroll_entry (s : State) (entry : node * bool) : State :=
  let '(target, isIntersecting) := entry in
  if isIntersecting then update target (class_add "animate-in") s else s.

(** One entry of [skillObserver]'s callback (lines 605-617). *)
Definition skillObserver_entry (p : Page) (entry : node * bool) : Page :=
  let '(progressBar, isIntersecting) := entry in
  if isIntersecting then
    let targetWidth :=
      match getAttribute (dom p) progressBar "data-progress" with
      | Some w => if Str.truthy w then w else "0%"
      | None => "0%"
      end in
    with_skillObserved (λ o, o ∖ {[progressBar]})
      (defer (FillSkillBar progressBar targetWidth) 100 p)
  else p.

(** The [load] listener of the preloader (lines 670-677). *)
Definition preloader_load (fx : EffectBindings) (p : Page) : Page :=
  match preloader fx with
  | Some pre => defer (HidePreloader pre) 500 (onDom (update pre (class_add "hidden")) p)
  | None => p
  end.

(** *** The callbacks and the passing of time *)

(** [style] holds, for each property, the text last assigned to it; what
    the engine's CSS parser makes of that text is outside the model. *)
Definition runJob (j : Job) (p : Page) : Page :=
  match j with
  | ReleaseThrottle h => with_inThrottle (λ hs, hs ∖ {[h]}) p
  | FillSkillBar progressBar targetWidth =>
      onDom (update progressBar (with_style (<["width" := targetWidth]>))) p
  | HidePreloader pre => onDom (update pre (with_style (<["display" := "none"]>))) p
  end.

Definition fireJob (d : Deferred) (rest : list Deferred) (p : Page) : Page :=
  runJob (job d)
    (with_jobs (λ _, rest) (onDom (λ s, with_clock (Z.max (clock s) (jobDue d)) s) p)).

(** Of two callbacks the one due first runs first, and of two due at the
    same time the one that was set first. *)
Definition timerFirst (tm : Timer) (d : Deferred) : bool :=
  (due tm <? jobDue d) || ((due tm =? jobDue d) && (timerId tm <? jobId d)%nat).

(** The next callback to run, if any is waiting: its time, and the page
    once it has run. *)
Definition step (b : Bindings) (p : Page) : option (Z * Page) :=
  match timers (dom p), jobs p with
  | [], [] => None
  | tm :: q, [] => Some (due tm, onDom (fire b tm q) p)
  | [], d :: rest => Some (jobDue d, fireJob d rest p)
  | tm :: q, d :: rest =>
      if timerFirst tm d
      then Some (due tm, onDom (fire b tm q) p)
      else Some (jobDue d, fireJob d rest p)
  end.

Definition idle (horizon : Z) (p : Page) : Page :=
  onDom (λ s, with_clock (Z.max (clock s) horizon) s) p.

Fixpoint runPending (fuel : nat) (b : Bindings) (horizon : Z) (p : Page) : Page :=
  match fuel with
  | O => p
  | S fuel' =>
      match step b p with
      | Some (t, p') => if t <=? horizon then runPending fuel' b horizon p' else idle horizon p
      | None => idle horizon p
      end
  end.

(** [ms] milliseconds pass with no event: every callback runs a bounded
    number of times, so this much fuel lets all that is due run. *)
Definition pass (b : Bindings) (ms : Z) (p : Page) : Page :=
  runPending (S (pendingRounds (timers (dom p)) + length (jobs p))) b (clock (dom p) + ms) p.

(** *** The page and its events *)

(** The page once the script has run: nothing throttled, every lazy image
    and every skill bar observed. *)
Definition openPage (d : list Element) (s : State) : Page :=
  let fx := bindEffects d in
  mkPage (runScript (bind d) s) ∅ (list_to_set (lazyImages fx))
         (list_to_set (skillProgressBars fx)) [].

(** An observer's callback gets entries for targets it observes. *)
Definition observedEntries (observed : gset node) (entries : list (node * bool)) :
    list (node * bool) :=
  filter (λ entry, entry.1 ∈ observed) entries.

Inductive PageEvent :=
  | Listener (ev : Event)
  | Scroll (y : Z)
  | ScrollTopBtnClick
  | ImageEntries (entries : list (node * bool))
  | AnimateEntries (entries : list (node * bool))
  | SkillEntries (entries : list (node * bool))
  | WindowLoad.

Definition dispatchPage (b : Bindings) (fx : EffectBindings) (ev : PageEvent) (p : Page) : Page :=
  match ev with
  | Listener (Elapse ms) => pass b ms p
  | Listener ev => onDom (λ s, stateOf (dispatch b ev s)) p
  | Scroll y => scroll b fx y p
  | ScrollTopBtnClick => onDom (scrollTopBtn_click fx) p
  | ImageEntries entries =>
      foldl imageObserver_entry p (observedEntries (imageObserved p) entries)
  | AnimateEntries entries =>
      onDom (λ s, foldl animateOnScroll_entry s
                    (observedEntries (list_to_set (animateElements fx)) entries)) p
  | SkillEntries entries =>
      foldl skillObserver_entry p (observedEntries (skillObserved p) entries)
  | WindowLoad => preloader_load fx p
  end.

Definition runPage (b : Bindings) (fx : EffectBindings) (evs : list PageEvent) (p : Page) : Page :=
  foldl (λ acc ev, dispatchPage b fx ev acc) p evs.

End Effects.

(** ** Properties the specification speaks of *)

Section Properties.

Context `{host : Host}.

(** The three flags of the modal: [active] on the container and on the
    overlay (each when the markup has it) and [no-scroll] on the body. *)
Definition modalFlags (b : Bindings) (s : State) : list bool :=
  from_option (λ m, [hasClass s m "active"]) [] (modalContainer b)
  ++ from_option (λ o, [hasClass s o "active"]) [] (overlay b)
  ++ [class_contains "no-scroll" (body s)].

Definition allEqual (flags : list bool) : Prop :=
  ∀ x y, x ∈ flags → y ∈ flags → x = y.

(** The listeners that end in [testimonialsModalFunc]. *)
Definition isModalEvent (ev : Event) : bool :=
  match ev with
  | TestimonialsItemClick _ | ModalCloseBtnClick | OverlayClick | KeyDown _ => true
  | _ => false
  end.

(** A modal operation: a click on a testimonial item, on the close button
    or on the overlay, or Escape pressed while the container is active. *)
Definition modalOperation (b : Bindings) (s : State) (ev : Event) : Prop :=
  match ev with
  | TestimonialsItemClick item => item ∈ testimonialsItems b
  | ModalCloseBtnClick => is_Some (modalCloseBtn b)
  | OverlayClick => is_Some (overlay b)
  | KeyDown key =>
      key = "Escape" ∧ ∃ m, modalContainer b = Some m ∧ hasClass s m "active" = true
  | _ => False
  end.

(** What an image, a title and a text element show: [src] and [alt] of
    the first, the markup inside the other two.  Read off the modal's three
    display elements it is the modal's content; read off an item's avatar,
    title and text it is the item's. *)
Definition fieldsAt (s : State) (image heading paragraph : node) : string * string * string * string :=
  (reflectedOf s image "src", reflectedOf s image "alt",
   innerHTMLOf s heading, innerHTMLOf s paragraph).

(** The known pages are the values of [data-page] in the markup. *)
Definition pageNameOf (s : State) (page : node) : option string :=
  getAttribute s page "data-page".

Definition knownPage (b : Bindings) (s : State) (pageName : string) : Prop :=
  ∃ page, page ∈ pages b ∧ pageNameOf s page = Some pageName.

Definition activePages (b : Bindings) (s : State) : list node :=
  filter (λ page, hasClass s page "active" = true) (pages b).

Definition activeLinks (b : Bindings) (s : State) : list node :=
  filter (λ link, hasClass s link "active" = true) (navigationLinks b).

(** The timer queue is in firing order. *)
Fixpoint inFiringOrder (q : list Timer) : Prop :=
  match q with
  | [] => True
  | x :: q' => Forall (λ y, due x ≤ due y) q' ∧ inFiringOrder q'
  end.

(** What holds of the timers at every moment of a session: the queue is in
    firing order, no identifier is handed out twice, and the [timeout]
    variable of a debounced listener names its pending callback. *)
Definition wfQueue (s : State) : Prop :=
  inFiringOrder (timers s)
  ∧ NoDup (timerId <$> timers s)
  ∧ Forall (λ tm, (timerId tm < nextTimerId s)%nat) (timers s)
  ∧ ∀ tm input, tm ∈ timers s → task tm = DebounceLater input →
                debounceTimeout s !! input = Some (timerId tm).

(** Between two events no timer is overdue. *)
Definition settled (s : State) : Prop :=
  Forall (λ tm, clock s < due tm) (timers s).

Definition wellTimed (s : State) : Prop := wfQueue s ∧ settled s.

(** The part of the state the timers live in. *)
Definition timing (s : State) : list Timer * nat * gmap nat nat * Z :=
  (timers s, nextTimerId s, debounceTimeout s, clock s).

Definition keepsTiming (h : State → State) : Prop := ∀ s, timing (h s) = timing s.

(** The attributes the script writes.  Every query of the script goes by
    tag, [id] or a [data-] attribute, none of which it writes. *)
Definition scriptWrites : list string := ["src"; "alt"; "disabled"; "aria-expanded"].

Definition sameHooks (e e' : Element) : Prop :=
  tagName e' = tagName e ∧ parentNode e' = parentNode e
  ∧ ∀ a, a ∉ scriptWrites → attributes e' !! a = attributes e !! a.

Definition sameMarkup (d d' : list Element) : Prop := Forall2 sameHooks d d'.

Definition hookSelector (sel : Selector) : Prop :=
  match sel with
  | HasAttr a | AttrIs a _ => a ∉ scriptWrites
  | IdIs _ | TagIs _ => True
  end.

(** Two stores that agree on what form validation reads. *)
Definition sameForm (d d' : list Element) : Prop :=
  Forall2 (λ e e', sameHooks e e' ∧ value e' = value e) d d'.

(** No debounced validation is waiting in the queue. *)
Definition noValidationPending (q : list Timer) : Prop :=
  Forall (λ tm, ∀ input, task tm ≠ DebounceLater input) q.

(** The modal's container and overlay, when bound, are in the store. *)
Definition hooksInStore (b : Bindings) (s : State) : Prop :=
  (∀ m, modalContainer b = Some m → (m < length (nodes s))%nat)
  ∧ (∀ o, overlay b = Some o → (o < length (nodes s))%nat).

(** What holds from a submission to the end of its cycle: the queue is
    well-formed, the button is there, and, if no validation was waiting
    when the form was sent, none is waiting and the button is disabled. *)
Definition cycleInv (quiet : Prop) (btn : node) (acc : State) : Prop :=
  wfQueue acc ∧ is_Some (nodes acc !! btn)
  ∧ (quiet → noValidationPending (timers acc) ∧ isDisabled acc btn = true).

(** Does [filterFunc selectedValue] show an item of this category? *)
Definition selects (selectedValue : string) (category : option string) : bool :=
  bool_decide (selectedValue = "all") || bool_decide (Some selectedValue = category).

(** No reveal of a filter item is waiting in the queue. *)
Definition noRevealPending (q : list Timer) : Prop :=
  Forall (λ tm, ∀ item, task tm ≠ RevealItem item) q.

(** The item is in the store, and it is shown or a reveal of it is waiting
    that is due by [T]. *)
Definition shownBy (T : Z) (item : node) (acc : State) : Prop :=
  is_Some (nodes acc !! item)
  ∧ (hasClass acc item "active" = true
     ∨ ∃ tm, tm ∈ timers acc ∧ task tm = RevealItem item ∧ due tm ≤ T).

(** The item is hidden and no reveal of it is waiting. *)
Definition hiddenFor (item : node) (acc : State) : Prop :=
  hasClass acc item "active" = false ∧ ∀ tm, tm ∈ timers acc → task tm ≠ RevealItem item.

(** A state transformer that leaves the hooks of the markup alone. *)
Definition keepsMarkup (h : State → State) : Prop :=
  ∀ d s, sameMarkup d (nodes s) → sameMarkup d (nodes (h s)).

End Properties.

(** ** Properties of the effects *)

Fixpoint jobsInOrder (q : list Deferred) : Prop :=
  match q with
  | [] => True
  | x :: q' => Forall (λ y, jobDue x ≤ jobDue y) q' ∧ jobsInOrder q'
  end.

(** The pending callbacks that reopen the gate of one throttled function. *)
Definition releases (h : Throttled) (q : list Deferred) : list Deferred :=
  filter (λ d, job d = ReleaseThrottle h) q.

(** A closed gate has exactly one release waiting, due within the limit;
    an open gate has none. *)
Definition gateInv (p : Page) : Prop :=
  ∀ h, if bool_decide (h ∈ inThrottle p)
       then ∃ d, releases h (jobs p) = [d] ∧ jobDue d ≤ clock (dom p) + 100
       else releases h (jobs p) = [].

(** What holds of a page between two events. *)
Definition pageReady (p : Page) : Prop :=
  wellTimed (dom p)
  ∧ jobsInOrder (jobs p)
  ∧ Forall (λ d, clock (dom p) < jobDue d) (jobs p)
  ∧ gateInv p
  ∧ (∀ d bar w, d ∈ jobs p → job d = FillSkillBar bar w → bar ∉ skillObserved p).

(** Time only moves forward in a session. *)
Definition forward (ev : PageEvent) : Prop :=
  ∀ ms, ev = Listener (Elapse ms) → 0 ≤ ms.

(** [element.style.k] *)
Definition styleOf (s : State) (n : node) (k : string) : option string :=
  nodes s !! n ≫= λ e, style e !! k.

(** [progressBar.getAttribute("data-progress") || "0%"] *)
Definition progressOf (s : State) (progressBar : node) : string :=
  match getAttribute s progressBar "data-progress" with
  | Some w => if Str.truthy w then w else "0%"
  | None => "0%"
  end.

(** The queues of a page at any moment, also while callbacks run. *)
Definition queuesInv (p : Page) : Prop :=
  wfQueue (dom p)
  ∧ jobsInOrder (jobs p)
  ∧ gateInv p
  ∧ (∀ d bar w, d ∈ jobs p → job d = FillSkillBar bar w → bar ∉ skillObserved p).

(** The inline style a callback of the effects writes, if it writes one:
    the element, the property and the value. *)
Definition jobStyle (j : Job) : option (node * string * string) :=
  match j with
  | ReleaseThrottle _ => None
  | FillSkillBar progressBar targetWidth => Some (progressBar, "width", targetWidth)
  | HidePreloader pre => Some (pre, "display", "none")
  end.

(** ** Sample markup

    Small documents with the hooks of the site's [index.html], used to run
    the model.  Text content is given once and serves as both [innerHTML]
    and [innerText]. *)

Module Sample.

#[local] Existing Instance ascii_host.

Definition elem (tag : string) (parent : option node) (attrs : list (string * string))
    (classes : list string) (content : string) : Element :=
  mkElement tag parent (list_to_map attrs) (list_to_set classes) ∅ content content "" "".

Definition field (tag : string) (parent : option node) (attrs : list (string * string))
    (v : string) : Element :=
  mkElement tag parent (list_to_map attrs) ∅ ∅ "" "" v "".

(** A parsed page before the script has run. *)
Definition pageAt (d : list Element) (hash : string) (storage : gmap string string) : State :=
  mkState d (elem "html" None [] [] "") (elem "body" None [] [] "") "Portfolio" hash 0
          None storage None ∅ 0 [] O.

(** The page once the script has run on it. *)
Definition loaded (d : list Element) (hash : string) (storage : gmap string string) : State :=
  runScript (bind d) (pageAt d hash storage).

(** Four navigation links (nodes 0-3) and the four pages (nodes 4-7). *)
Definition navMarkup : list Element := [
  elem "a" None [("data-nav-link", "")] ["navbar-link"; "active"] "About";
  elem "a" None [("data-nav-link", "")] ["navbar-link"] "Resume";
  elem "a" None [("data-nav-link", "")] ["navbar-link"] "Portfolio";
  elem "a" None [("data-nav-link", "")] ["navbar-link"] "Contact";
  elem "article" None [("data-page", "about")] ["about"; "active"] "";
  elem "article" None [("data-page", "resume")] ["resume"] "";
  elem "article" None [("data-page", "portfolio")] ["portfolio"] "";
  elem "article" None [("data-page", "contact")] ["contact"] ""
].

(** The theme button (node 0) with its icon (node 1). *)
Definition themeMarkup : list Element := [
  elem "button" None [("id", "themeToggle")] ["theme-btn"] "";
  elem "i" (Some 0%nat) [] ["fas"; "fa-moon"] ""
].

(** Two testimonial items (nodes 0 and 4, each followed by its avatar,
    title and text) and the modal: container 8, overlay 9, close button 10,
    image 11, title 12, text 13. *)
Definition modalMarkup : list Element := [
  elem "li" None [("data-testimonials-item", "")] ["testimonials-item"] "";
  elem "img" (Some 0%nat) [("data-testimonials-avatar", ""); ("src", "avatar-1.png"); ("alt", "Ann")] [] "";
  elem "h4" (Some 0%nat) [("data-testimonials-title", "")] [] "Ann";
  elem "div" (Some 0%nat) [("data-testimonials-text", "")] [] "<p>Fast and careful.</p>";
  elem "li" None [("data-testimonials-item", "")] ["testimonials-item"] "";
  elem "img" (Some 4%nat) [("data-testimonials-avatar", ""); ("src", "avatar-2.png"); ("alt", "Bob")] [] "";
  elem "h4" (Some 4%nat) [("data-testimonials-title", "")] [] "Bob";
  elem "div" (Some 4%nat) [("data-testimonials-text", "")] [] "<p>Would hire again.</p>";
  elem "div" None [("data-modal-container", "")] ["modal-container"] "";
  elem "div" (Some 8%nat) [("data-overlay", "")] ["overlay"] "";
  elem "button" (Some 8%nat) [("data-modal-close-btn", "")] ["modal-close-btn"] "";
  elem "img" (Some 8%nat) [("data-modal-img", ""); ("src", "avatar-1.png"); ("alt", "")] [] "";
  elem "h4" (Some 8%nat) [("data-modal-title", "")] [] "";
  elem "div" (Some 8%nat) [("data-modal-text", "")] [] ""
].

(** The same page with a mobile menu: its button (node 14) with an icon
    (node 15), the link list (node 16) and one link in it (node 17). *)
Definition modalMenuMarkup : list Element :=
  modalMarkup ++ [
    elem "button" None [("id", "mobileMenuBtn")] ["mobile-menu-btn"] "";
    elem "i" (Some 14%nat) [] ["fas"; "fa-bars"] "";
    elem "ul" None [("id", "navLinks")] ["nav-links"] "";
    elem "a" (Some 16%nat) [("href", "#about")] [] "About"
  ].

(** The dropdown (node 0) with its value (node 1) and items (nodes 2-4),
    the button row (nodes 5-7) and three projects (nodes 8-10). *)
Definition filterMarkup : list Element := [
  elem "button" None [("data-select", "")] ["filter-select"] "";
  elem "div" (Some 0%nat) [("data-select-value", "")] ["select-value"] "Select category";
  elem "button" None [("data-select-item", "")] [] "All";
  elem "button" None [("data-select-item", "")] [] "Web design";
  elem "button" None [("data-select-item", "")] [] "Applications";
  elem "button" None [("data-filter-btn", "")] ["active"] "All";
  elem "button" None [("data-filter-btn", "")] [] "Web design";
  elem "button" None [("data-filter-btn", "")] [] "Applications";
  elem "li" None [("data-filter-item", ""); ("data-category", "web design")] ["project-item"; "active"] "";
  elem "li" None [("data-filter-item", ""); ("data-category", "applications")] ["project-item"; "active"] "";
  elem "li" None [("data-filter-item", ""); ("data-category", "web design")] ["project-item"; "active"] ""
].

(** A markup variant that keeps the dropdown items (nodes 0 and 1) and a
    project (node 2) but has no [data-select] element. *)
Definition filterMarkupWithoutSelect : list Element := [
  elem "button" None [("data-select-item", "")] [] "All";
  elem "button" None [("data-select-item", "")] [] "Web design";
  elem "li" None [("data-filter-item", ""); ("data-category", "web design")] ["project-item"; "active"] ""
].

(** The contact form (node 0), its three required inputs (nodes 1-3) and
    the submit button (node 4), disabled in the markup. *)
Definition formMarkup (name email message : string) (btnAttrs : list (string * string)) : list Element := [
  elem "form" None [("data-form", "")] ["form"] "";
  field "input" (Some 0%nat) [("data-form-input", ""); ("type", "text"); ("required", "")] name;
  field "input" (Some 0%nat) [("data-form-input", ""); ("type", "email"); ("required", "")] email;
  field "textarea" (Some 0%nat) [("data-form-input", ""); ("required", "")] message;
  elem "button" (Some 0%nat) (("data-form-btn", "") :: btnAttrs) ["form-btn"] "<span>Send Message</span>"
].

(** The sidebar (node 0), its button (node 1) with a label (node 2)
    inside it, and the main column (node 3). *)
Definition sidebarMarkup : list Element := [
  elem "aside" None [("data-sidebar", "")] ["sidebar"] "";
  elem "button" (Some 0%nat) [("data-sidebar-btn", "")] ["info_more-btn"] "";
  elem "span" (Some 1%nat) [] [] "Show Contacts";
  elem "div" None [] ["main-content"] ""
].

(** A form input (node 0) and a submit button (node 1) on a page that has
    no [data-form] element. *)
Definition formlessMarkup : list Element := [
  field "input" None [("data-form-input", ""); ("type", "text")] "";
  elem "button" None [("data-form-btn", "")] ["form-btn"] "<span>Send Message</span>"
].

(** The header (node 0), the scroll-to-top button (node 1), two navigation
    links with an [href] (nodes 2 and 3), two sections (nodes 4 and 5), two
    lazy images (node 6 with a source, node 7 with an empty one), an
    animated block (node 8), a skill bar (node 9) and the preloader
    (node 10). *)
Definition effectsMarkup : list Element := [
  elem "header" None [("id", "header")] ["header"] "";
  elem "button" None [("id", "scrollTop")] ["scroll-top"] "";
  elem "a" None [("data-nav-link", ""); ("href", "#about")] ["navbar-link"] "About";
  elem "a" None [("data-nav-link", ""); ("href", "#resume")] ["navbar-link"] "Resume";
  elem "section" None [("id", "about")] [] "";
  elem "section" None [("id", "resume")] [] "";
  elem "img" (Some 4%nat) [("data-src", "photo.png"); ("alt", "Portrait")] [] "";
  elem "img" (Some 4%nat) [("data-src", ""); ("alt", "Pending")] [] "";
  elem "div" (Some 5%nat) [("data-animate", "")] ["timeline"] "";
  elem "div" (Some 5%nat) [("data-progress", "85%")] ["skill-progress-fill"] "";
  elem "div" None [("data-preloader", "")] ["preloader"] ""
].

(** That page once the script has run on it. *)
Definition effectsPage : Page := openPage effectsMarkup (pageAt effectsMarkup "" ∅).

(** A layout for it: the first section starts at 600 px, the second at
    1400 px. *)
Definition sectionTops (section : node) : Z :=
  if decide (section = 4%nat) then 600 else 1400.

End Sample.

(** * Facts *)

(** ** Strings *)

Lemma truthy_spec (s : string) : Str.truthy s = true ↔ s ≠ "".
Proof. destruct s; simpl; split; congruence. Qed.

Lemma charAt0_slice1 (s : string) : Str.charAt0 s +:+ Str.slice1 s = s.
Proof. by destruct s. Qed.

Lemma includes_prefix (sub rest : string) : Str.includes sub (sub +:+ rest).
Proof. exists "", rest. reflexivity. Qed.

(** ** Token lists and attributes *)

Lemma class_contains_add (c c' : string) (e : Element) :
  class_contains c (class_add c' e) = bool_decide (c = c') || class_contains c e.
Proof.
  unfold class_contains, class_add; simpl.
  apply eq_true_iff_eq.
  rewrite orb_true_iff, !bool_decide_eq_true. set_solver.
Qed.

Lemma class_contains_remove (c c' : string) (e : Element) :
  class_contains c (class_remove c' e) = negb (bool_decide (c = c')) && class_contains c e.
Proof.
  unfold class_contains, class_remove; simpl.
  apply eq_true_iff_eq.
  rewrite andb_true_iff, negb_true_iff, bool_decide_eq_false, !bool_decide_eq_true. set_solver.
Qed.

Lemma class_contains_toggle (c : string) (e : Element) :
  class_contains c (class_toggle c e) = negb (class_contains c e).
Proof.
  unfold class_contains, class_toggle; simpl.
  destruct (decide (c ∈ classList e)) as [Hin|Hin].
  - rewrite (bool_decide_eq_true_2 _ Hin); simpl.
    apply bool_decide_eq_false. set_solver.
  - rewrite (bool_decide_eq_false_2 _ Hin); simpl.
    apply bool_decide_eq_true. set_solver.
Qed.

Lemma class_contains_toggle_ne (c c' : string) (e : Element) :
  c ≠ c' → class_contains c (class_toggle c' e) = class_contains c e.
Proof.
  intros Hne. unfold class_contains, class_toggle; simpl.
  apply eq_true_iff_eq. rewrite !bool_decide_eq_true.
  destruct (decide (c' ∈ classList e)); set_solver.
Qed.

(** ** The store *)

Section StoreFacts.

Implicit Types (s : State) (n m : node) (f : Element → Element) (c : string).

Lemma lookup_update s n m f :
  nodes (update n f s) !! m = if decide (n = m) then f <$> nodes s !! m else nodes s !! m.
Proof.
  unfold update; simpl. destruct (decide (n = m)) as [->|Hne].
  - apply list_lookup_alter_eq.
  - by apply list_lookup_alter_ne.
Qed.

Lemma length_update s n f : length (nodes (update n f s)) = length (nodes s).
Proof. apply length_alter. Qed.

Lemma hasClass_update s n m f c :
  hasClass (update n f s) m c =
  if decide (n = m) then from_option (λ e, class_contains c (f e)) false (nodes s !! m)
  else hasClass s m c.
Proof.
  unfold hasClass. rewrite lookup_update.
  destruct (decide (n = m)); [|done]. by destruct (nodes s !! m).
Qed.

Lemma hasClass_whenBound s (o : option node) m f c :
  hasClass (whenBound o f s) m c =
  if decide (o = Some m) then from_option (λ e, class_contains c (f e)) false (nodes s !! m)
  else hasClass s m c.
Proof.
  destruct o as [n|]; simpl.
  - rewrite hasClass_update.
    destruct (decide (n = m)) as [->|Hne]; destruct (decide (Some _ = Some m));
      try done; congruence.
  - by destruct (decide (None = Some m)).
Qed.

(** A loop over nodes keeps whatever each of its steps keeps. *)
Lemma foldl_keeps {A} (P : State → Prop) (step : State → A → State) (l : list A) s :
  (∀ acc x, x ∈ l → P acc → P (step acc x)) → P s → P (foldl step s l).
Proof.
  revert s. induction l as [|x l IH]; intros s Hstep Hs; simpl; [done|].
  apply IH.
  - intros acc y Hy. apply Hstep. by right.
  - apply Hstep; [by left | done].
Qed.

End StoreFacts.

(** ** Queries *)

Lemma elem_of_querySelectorAll (sel : Selector) (d : list Element) (n : node) :
  n ∈ querySelectorAll sel d ↔ matchesAt sel d n = true.
Proof.
  unfold querySelectorAll. rewrite list_elem_of_filter, elem_of_seq.
  split; [tauto|]. intros Hm. split; [done|].
  unfold matchesAt in Hm. destruct (d !! n) eqn:Hl; [|done].
  apply lookup_lt_Some in Hl. lia.
Qed.

Lemma querySelectorAll_lookup (sel : Selector) (d : list Element) (n : node) :
  n ∈ querySelectorAll sel d → ∃ e, d !! n = Some e ∧ matches sel e = true.
Proof.
  rewrite elem_of_querySelectorAll. unfold matchesAt.
  destruct (d !! n) as [e|]; [eauto | done].
Qed.

Lemma NoDup_querySelectorAll (sel : Selector) (d : list Element) :
  NoDup (querySelectorAll sel d).
Proof. apply NoDup_filter, NoDup_seq. Qed.

Lemma querySelector_elem_of (sel : Selector) (d : list Element) (n : node) :
  querySelector sel d = Some n → n ∈ querySelectorAll sel d.
Proof. unfold querySelector. intros Hh. apply head_Some in Hh as [l' ->]. by left. Qed.

Lemma querySelector_lookup (sel : Selector) (d : list Element) (n : node) :
  querySelector sel d = Some n → ∃ e, d !! n = Some e ∧ matches sel e = true.
Proof. intros Hq. by apply querySelectorAll_lookup, querySelector_elem_of. Qed.

Lemma querySelector_is_Some (sel : Selector) (d : list Element) :
  is_Some (querySelector sel d) ↔ ∃ n, n ∈ querySelectorAll sel d.
Proof.
  unfold querySelector. destruct (querySelectorAll sel d) as [|n l]; simpl.
  - split; [by intros [? ?] | intros [n Hn]; by apply elem_of_nil in Hn].
  - split; [intros _; exists n; by left | eauto].
Qed.

Lemma querySelectorIn_lookup (root : node) (sel : Selector) (d : list Element) (n : node) :
  querySelectorIn root sel d = Some n → ∃ e, d !! n = Some e ∧ matches sel e = true.
Proof.
  unfold querySelectorIn, querySelectorAllIn. intros Hh.
  apply head_Some in Hh as [l' Hl].
  assert (Hin : n ∈ filter (λ k, k ≠ root ∧ contains d root k = true) (querySelectorAll sel d))
    by (rewrite Hl; by left).
  apply list_elem_of_filter in Hin as [_ Hin]. by apply querySelectorAll_lookup.
Qed.

(** ** The markup the queries read is stable *)

Section MarkupFacts.

Implicit Types (e : Element) (d : list Element) (s : State) (n : node).

Lemma sameHooks_refl e : sameHooks e e.
Proof. by repeat split. Qed.

Lemma sameHooks_trans e1 e2 e3 : sameHooks e1 e2 → sameHooks e2 e3 → sameHooks e1 e3.
Proof.
  intros (Ht1 & Hp1 & Ha1) (Ht2 & Hp2 & Ha2). repeat split; [congruence..|].
  intros a Ha. by rewrite Ha2, Ha1.
Qed.

Lemma sameMarkup_refl d : sameMarkup d d.
Proof. apply Forall_Forall2_diag, Forall_forall. intros; apply sameHooks_refl. Qed.

Lemma sameMarkup_trans d1 d2 d3 : sameMarkup d1 d2 → sameMarkup d2 d3 → sameMarkup d1 d3.
Proof. apply Forall2_trans, sameHooks_trans. Qed.

Lemma sameMarkup_length d d' : sameMarkup d d' → length d' = length d.
Proof. intros Hd. symmetry. by eapply Forall2_length. Qed.

Lemma sameHooks_classList (g : gset string → gset string) e : sameHooks e (with_classList g e).
Proof. by repeat split. Qed.

Lemma sameHooks_style (g : gmap string string → gmap string string) e :
  sameHooks e (with_style g e).
Proof. by repeat split. Qed.

Lemma sameHooks_innerHTML (h : string) e : sameHooks e (with_innerHTML h e).
Proof. by repeat split. Qed.

Lemma sameHooks_innerText (h : string) e : sameHooks e (with_innerText h e).
Proof. by repeat split. Qed.

Lemma sameHooks_value (v : string) e : sameHooks e (with_value v e).
Proof. by repeat split. Qed.

Lemma sameHooks_attr_set (a v : string) e : a ∈ scriptWrites → sameHooks e (attr_set a v e).
Proof.
  intros Ha. repeat split. intros a' Ha'. simpl.
  apply lookup_insert_ne. by intros ->.
Qed.

Lemma sameHooks_attr_remove (a : string) e : a ∈ scriptWrites → sameHooks e (attr_remove a e).
Proof.
  intros Ha. repeat split. intros a' Ha'. simpl.
  apply lookup_delete_ne. by intros ->.
Qed.

Lemma sameMarkup_alter d d' n (f : Element → Element) :
  (∀ e, sameHooks e (f e)) → sameMarkup d d' → sameMarkup d (alter f n d').
Proof.
  intros Hf Hd. apply Forall2_alter_r; [done|].
  intros x y _ _ Hxy. eapply sameHooks_trans; [done | apply Hf].
Qed.

Lemma sameMarkup_update d s n (f : Element → Element) :
  (∀ e, sameHooks e (f e)) → sameMarkup d (nodes s) → sameMarkup d (nodes (update n f s)).
Proof. apply sameMarkup_alter. Qed.

Lemma matches_same sel e e' : hookSelector sel → sameHooks e e' → matches sel e' = matches sel e.
Proof.
  intros Hsel (Ht & Hp & Ha). destruct sel; simpl in *.
  - by rewrite Ha.
  - by rewrite Ha.
  - rewrite Ha; [done|]. unfold scriptWrites. set_solver.
  - by rewrite Ht.
Qed.

Lemma lookup_same d d' n : sameMarkup d d' → option_Forall2 sameHooks (d !! n) (d' !! n).
Proof. intros Hd. by apply Forall2_lookup. Qed.

Lemma matchesAt_same sel d d' n :
  hookSelector sel → sameMarkup d d' → matchesAt sel d' n = matchesAt sel d n.
Proof.
  intros Hsel Hd. unfold matchesAt.
  destruct (lookup_same d d' n Hd); simpl; [|done]. by apply matches_same.
Qed.

Lemma querySelectorAll_same sel d d' :
  hookSelector sel → sameMarkup d d' → querySelectorAll sel d' = querySelectorAll sel d.
Proof.
  intros Hsel Hd. unfold querySelectorAll. rewrite (sameMarkup_length d d' Hd).
  apply list_filter_iff. intros n. by rewrite (matchesAt_same sel d d' n).
Qed.

Lemma querySelector_same sel d d' :
  hookSelector sel → sameMarkup d d' → querySelector sel d' = querySelector sel d.
Proof. intros Hsel Hd. unfold querySelector. by rewrite (querySelectorAll_same sel d d'). Qed.

Lemma ancestorOrSelf_same fuel d d' (a n : node) :
  sameMarkup d d' → ancestorOrSelf fuel d' a n = ancestorOrSelf fuel d a n.
Proof.
  intros Hd. revert n. induction fuel as [|fuel IH]; intros n; simpl; [done|].
  f_equal. destruct (lookup_same d d' n Hd) as [e e' (_ & Hp & _)|]; simpl; [|done].
  rewrite Hp. destruct (parentNode e); [apply IH | done].
Qed.

Lemma contains_same d d' (a n : node) : sameMarkup d d' → contains d' a n = contains d a n.
Proof.
  intros Hd. unfold contains. rewrite (sameMarkup_length d d' Hd).
  by apply ancestorOrSelf_same.
Qed.

Lemma querySelectorAllIn_same root sel d d' :
  hookSelector sel → sameMarkup d d' →
  querySelectorAllIn root sel d' = querySelectorAllIn root sel d.
Proof.
  intros Hsel Hd. unfold querySelectorAllIn.
  rewrite (querySelectorAll_same sel d d') by done.
  apply list_filter_iff. intros n. by rewrite (contains_same d d').
Qed.

Lemma querySelectorIn_same root sel d d' :
  hookSelector sel → sameMarkup d d' → querySelectorIn root sel d' = querySelectorIn root sel d.
Proof.
  intros Hsel Hd. unfold querySelectorIn. by rewrite (querySelectorAllIn_same root sel d d').
Qed.

Lemma bind_same d d' : sameMarkup d d' → bind d' = bind d.
Proof.
  intros Hd. unfold bind.
  rewrite !(querySelector_same _ d d'), !(querySelectorAll_same _ d d');
    try done; try (simpl; unfold scriptWrites; set_solver).
  f_equal.
  destruct (querySelector (IdIs "mobileMenuBtn") d); [|done].
  destruct (querySelector (IdIs "navLinks") d); [|done].
  by apply querySelectorAllIn_same.
Qed.

End MarkupFacts.

Create HintDb hooks.

#[export] Hint Resolve sameHooks_classList sameHooks_style sameHooks_innerHTML
  sameHooks_innerText sameHooks_value sameHooks_refl : hooks.
#[export] Hint Extern 1 (sameHooks _ (attr_set _ _ _)) =>
  apply sameHooks_attr_set; unfold scriptWrites; set_solver : hooks.
#[export] Hint Extern 1 (sameHooks _ (attr_remove _ _)) =>
  apply sameHooks_attr_remove; unfold scriptWrites; set_solver : hooks.
#[export] Hint Extern 1 (sameHooks _ (class_add _ _)) => apply sameHooks_classList : hooks.
#[export] Hint Extern 1 (sameHooks _ (class_remove _ _)) => apply sameHooks_classList : hooks.
#[export] Hint Extern 1 (sameHooks _ (class_toggle _ _)) => apply sameHooks_classList : hooks.

(** One step of a proof that a listener keeps the markup: peel the
    outermost write, split on an optional binding or a condition. *)
Ltac markup_step :=
  match goal with
  | |- sameMarkup _ (nodes _) => assumption
  | |- sameMarkup _ (nodes (update _ _ _)) =>
      apply sameMarkup_update; [intros; auto with hooks |]
  | |- sameMarkup _ (alter _ _ _) =>
      apply sameMarkup_alter; [intros; auto with hooks |]
  | |- sameMarkup _ (nodes (foldl _ _ _)) =>
      apply (foldl_keeps (λ acc, sameMarkup _ (nodes acc))); [intros ? ? _ ? |]
  | |- sameMarkup _ (nodes (whenBound ?o _ _)) => destruct o; simpl
  | |- sameMarkup _ (nodes (match ?o with Some _ => _ | None => _ end)) => destruct o
  | |- sameMarkup _ (nodes (if ?c then _ else _)) => destruct c
  | |- sameMarkup _ (nodes (let (_, _) := ?p in _)) => destruct p
  | |- sameMarkup _ _ => progress simpl
  end.

Ltac keeps_markup := intros ? ? ?; repeat markup_step.

Section ListenersKeepMarkup.

Context `{host : Host}.

Implicit Types (b : Bindings) (s : State) (n : node).

Lemma elementToggleFunc_keeps n : keepsMarkup (elementToggleFunc n).
Proof. unfold elementToggleFunc. keeps_markup. Qed.

Lemma sidebarBtn_click_keeps b : keepsMarkup (sidebarBtn_click b).
Proof. unfold sidebarBtn_click, elementToggleFunc. keeps_markup. Qed.

Lemma sidebar_outside_click_keeps b target : keepsMarkup (sidebar_outside_click b target).
Proof. unfold sidebar_outside_click, elementToggleFunc. keeps_markup. Qed.

Lemma updateThemeIcon_keeps b theme : keepsMarkup (updateThemeIcon b theme).
Proof. unfold updateThemeIcon. keeps_markup. Qed.

Lemma themeToggle_click_keeps b : keepsMarkup (themeToggle_click b).
Proof.
  unfold themeToggle_click. intros d s Hd. destruct (themeToggle b); [|done].
  simpl. by apply updateThemeIcon_keeps.
Qed.

Lemma testimonialsModalFunc_keeps b : keepsMarkup (testimonialsModalFunc b).
Proof.
  unfold testimonialsModalFunc. keeps_markup. Qed.

Lemma copyTestimonial_keeps b item : keepsMarkup (copyTestimonial b item).
Proof. unfold copyTestimonial. keeps_markup. Qed.

Lemma testimonialsItem_click_keeps b item : keepsMarkup (testimonialsItem_click b item).
Proof.
  intros d s Hd. by apply testimonialsModalFunc_keeps, copyTestimonial_keeps.
Qed.

Lemma escape_keydown_keeps b key : keepsMarkup (escape_keydown b key).
Proof.
  intros d s Hd. unfold escape_keydown. destruct (modalContainer b); [|done].
  match goal with |- context [if ?c then _ else _] => destruct c end; [|done].
  by apply testimonialsModalFunc_keeps.
Qed.

Lemma select_click_keeps b : keepsMarkup (select_click b).
Proof. unfold select_click, elementToggleFunc. keeps_markup. Qed.

Lemma setTimeout_nodes (t : Task) (delay : Z) s : nodes (setTimeout t delay s).2 = nodes s.
Proof. done. Qed.

Lemma filterFunc_keeps b selectedValue : keepsMarkup (filterFunc b selectedValue).
Proof. unfold filterFunc, filterOne. keeps_markup. Qed.

Lemma selectItem_click_keeps b item : keepsMarkup (λ s, stateOf (selectItem_click b item s)).
Proof.
  intros d s Hd. unfold selectItem_click.
  destruct (select b); simpl.
  - apply filterFunc_keeps, elementToggleFunc_keeps. repeat markup_step.
  - repeat markup_step.
Qed.

Lemma filterBtn_click_keeps b btn : keepsMarkup (filterBtn_click b btn).
Proof.
  intros d s Hd. unfold filterBtn_click. simpl.
  apply sameMarkup_update; [auto with hooks|].
  match goal with |- context [whenBound ?o] => destruct o end; simpl;
    [apply sameMarkup_update; [auto with hooks|]|];
    apply filterFunc_keeps; repeat markup_step.
Qed.

Lemma select_outside_click_keeps b target : keepsMarkup (select_outside_click b target).
Proof. unfold select_outside_click, elementToggleFunc. keeps_markup. Qed.

Lemma validateForm_keeps b : keepsMarkup (validateForm b).
Proof. unfold validateForm. keeps_markup. Qed.

Lemma clearTimeout_nodes (id : option nat) s : nodes (clearTimeout id s) = nodes s.
Proof. by destruct id. Qed.

Lemma debounced_nodes input (wait : Z) s : nodes (debounced input wait s) = nodes s.
Proof. unfold debounced. simpl. apply clearTimeout_nodes. Qed.

Lemma formReset_keeps f : keepsMarkup (formReset f).
Proof. unfold formReset. keeps_markup. Qed.

Lemma form_submit_keeps b : keepsMarkup (form_submit b).
Proof. unfold form_submit. keeps_markup. Qed.

Lemma submit_resume_keeps b originalText : keepsMarkup (submit_resume b originalText).
Proof. unfold submit_resume. keeps_markup. Qed.

Lemma submit_reset_keeps b originalText : keepsMarkup (submit_reset b originalText).
Proof.
  intros d s Hd. unfold submit_reset.
  apply (foldl_keeps (λ acc, sameMarkup d (nodes acc))); [intros; repeat markup_step|].
  destruct (formBtn b); simpl; [apply sameMarkup_update; [auto with hooks|]|];
    (destruct (form b); [by apply formReset_keeps | done]).
Qed.

Lemma navigateToPage_keeps b pageName : keepsMarkup (navigateToPage b pageName).
Proof. unfold navigateToPage, markLink, showPage. keeps_markup. Qed.

Lemma navigationLink_click_keeps b link : keepsMarkup (navigationLink_click b link).
Proof. intros d s Hd. unfold navigationLink_click. simpl. by apply navigateToPage_keeps. Qed.

Lemma popstate_keeps b : keepsMarkup (popstate b).
Proof.
  intros d s Hd. unfold popstate.
  destruct (Str.truthy _); by apply navigateToPage_keeps.
Qed.

Lemma initializePage_keeps b : keepsMarkup (initializePage b).
Proof.
  intros d s Hd. unfold initializePage.
  match goal with |- context [if ?c then _ else _] => destruct c end;
    by apply navigateToPage_keeps.
Qed.

Lemma runTask_keeps b t : keepsMarkup (runTask b t).
Proof.
  intros d s Hd. destruct t; cbn [runTask].
  - repeat markup_step.
  - apply validateForm_keeps. by rewrite clearTimeout_nodes.
  - by apply submit_resume_keeps.
  - by apply submit_reset_keeps.
Qed.

Lemma runTimers_keeps fuel b horizon : keepsMarkup (runTimers fuel b horizon).
Proof.
  induction fuel as [|fuel IH]; intros d s Hd; simpl; [done|].
  destruct (timers s) as [|tm q]; [done|].
  destruct (due tm <=? horizon); [|done].
  apply IH. by apply runTask_keeps.
Qed.

Lemma fire_keeps b tm q : keepsMarkup (fire b tm q).
Proof. intros d s Hd. by apply runTask_keeps. Qed.

Lemma elapse_keeps b ms : keepsMarkup (elapse b ms).
Proof. intros d s Hd. by apply runTimers_keeps. Qed.

Lemma mobileMenuBtn_click_keeps b : keepsMarkup (mobileMenuBtn_click b).
Proof.
  intros d s Hd. unfold mobileMenuBtn_click.
  destruct (mobileMenuBtn b), (navLinks b); try done. simpl.
  match goal with |- context [querySelectorIn ?r ?sel ?d'] => destruct (querySelectorIn r sel d') end;
    repeat markup_step.
Qed.

Lemma mobileLink_click_keeps b : keepsMarkup (mobileLink_click b).
Proof.
  intros d s Hd. unfold mobileLink_click.
  destruct (mobileMenuBtn b), (navLinks b); try done. simpl.
  match goal with |- context [querySelectorIn ?r ?sel ?d'] => destruct (querySelectorIn r sel d') end;
    repeat markup_step.
Qed.

Lemma dispatch_keeps b ev : keepsMarkup (λ s, stateOf (dispatch b ev s)).
Proof.
  intros d s Hd. destruct ev; cbn [dispatch stateOf].
  - by apply sidebarBtn_click_keeps.
  - by apply select_outside_click_keeps, sidebar_outside_click_keeps.
  - by apply themeToggle_click_keeps.
  - case_bool_decide; [by apply testimonialsItem_click_keeps | done].
  - destruct (modalCloseBtn b); [by apply testimonialsModalFunc_keeps | done].
  - destruct (overlay b); [by apply testimonialsModalFunc_keeps | done].
  - by apply escape_keydown_keeps.
  - by apply select_click_keeps.
  - case_bool_decide; [by apply (selectItem_click_keeps b item) | done].
  - case_bool_decide; [by apply filterBtn_click_keeps | done].
  - case_bool_decide.
    + unfold formInput_input. rewrite debounced_nodes. repeat markup_step.
    + repeat markup_step.
  - unfold formInput_blur. repeat markup_step.
  - by apply form_submit_keeps.
  - case_bool_decide; [by apply navigationLink_click_keeps | done].
  - by apply popstate_keeps.
  - by apply mobileMenuBtn_click_keeps.
  - case_bool_decide; [by apply mobileLink_click_keeps | done].
  - by apply elapse_keeps.
Qed.

Lemma run_keeps b evs : keepsMarkup (run b evs).
Proof.
  intros d s Hd. unfold run.
  apply (foldl_keeps (λ acc, sameMarkup d (nodes acc))); [|done].
  intros acc ev _ Hacc. by apply (dispatch_keeps b ev).
Qed.

Lemma runScript_keeps b : keepsMarkup (runScript b).
Proof.
  intros d s Hd. unfold runScript. simpl.
  apply initializePage_keeps. simpl. by apply updateThemeIcon_keeps.
Qed.

(** The bindings the script computed when it ran are the ones it would
    compute at any later moment of the session. *)
Lemma bind_run evs s :
  bind (nodes (run (bind (nodes s)) evs s)) = bind (nodes s).
Proof. apply bind_same, run_keeps, sameMarkup_refl. Qed.

End ListenersKeepMarkup.

(** ** Theme *)

Section ThemeFacts.

Implicit Types (b : Bindings) (s : State).

Lemma updateThemeIcon_documentElement b theme s :
  documentElement (updateThemeIcon b theme s) = documentElement s.
Proof.
  unfold updateThemeIcon. destruct (themeToggle b); [|done].
  by destruct (querySelectorIn _ _ _).
Qed.

Lemma updateThemeIcon_localStorage b theme s :
  localStorage (updateThemeIcon b theme s) = localStorage s.
Proof.
  unfold updateThemeIcon. destruct (themeToggle b); [|done].
  by destruct (querySelectorIn _ _ _).
Qed.

(** What one click writes: the other theme, on the root element and in
    the store alike. *)
Lemma themeToggle_click_writes b s toggle :
  themeToggle b = Some toggle →
  let theme :=
    if bool_decide (attributes (documentElement s) !! "data-theme" = Some "dark")
    then "light" else "dark" in
  attributes (documentElement (themeToggle_click b s)) !! "data-theme" = Some theme
  ∧ localStorage (themeToggle_click b s) !! "theme" = Some theme.
Proof.
  intros Hb. unfold themeToggle_click. rewrite Hb. simpl.
  rewrite updateThemeIcon_documentElement, updateThemeIcon_localStorage. simpl.
  split; apply lookup_insert_eq.
Qed.

Lemma storedTheme_of_lookup s theme :
  localStorage s !! "theme" = Some theme → theme ≠ "" → storedTheme s = theme.
Proof.
  intros Hl Hne. unfold storedTheme. rewrite Hl.
  apply truthy_spec in Hne. by rewrite Hne.
Qed.


End ThemeFacts.

Section ThemeOnLoad.

Context `{host : Host}.

Implicit Types (b : Bindings) (s : State).

Lemma navigateToPage_theme b pageName s :
  documentElement (navigateToPage b pageName s) = documentElement s
  ∧ localStorage (navigateToPage b pageName s) = localStorage s.
Proof.
  unfold navigateToPage.
  apply (foldl_keeps (λ acc, documentElement acc = documentElement s
                             ∧ localStorage acc = localStorage s)).
  - intros acc link _ Hacc. unfold markLink. by case_bool_decide.
  - apply (foldl_keeps (λ acc, documentElement acc = documentElement s
                               ∧ localStorage acc = localStorage s)); [|done].
    intros acc page _ Hacc. unfold showPage. by case_bool_decide.
Qed.

Lemma initializePage_theme b s :
  documentElement (initializePage b s) = documentElement s
  ∧ localStorage (initializePage b s) = localStorage s.
Proof.
  unfold initializePage.
  match goal with |- context [if ?c then _ else _] => destruct c end;
    apply navigateToPage_theme.
Qed.

(** The script's own run leaves the root element with the preference it
    read from the store. *)
Lemma runScript_theme_frame b s :
  documentElement (runScript b s) = attr_set "data-theme" (storedTheme s) (documentElement s)
  ∧ localStorage (runScript b s) = localStorage s.
Proof.
  unfold runScript. cbv zeta.
  set (s3 := with_lastClickedBtn _ _).
  destruct (initializePage_theme b s3) as [Hd Hl].
  change (documentElement (initializePage b s3)
          = attr_set "data-theme" (storedTheme s) (documentElement s)
          ∧ localStorage (initializePage b s3) = localStorage s).
  rewrite Hd, Hl. unfold s3. cbn [documentElement localStorage with_lastClickedBtn].
  by rewrite updateThemeIcon_documentElement, updateThemeIcon_localStorage.
Qed.

Lemma runScript_theme b s :
  attributes (documentElement (runScript b s)) !! "data-theme"
  = Some (storedTheme (runScript b s)).
Proof.
  destruct (runScript_theme_frame b s) as [Hd Hl].
  unfold storedTheme at 1. rewrite Hd, Hl. simpl. by rewrite lookup_insert_eq.
Qed.

(** A click on the theme button keeps the root element and the store in
    step, and the stored value among the two themes. *)
Lemma themeToggle_click_theme b s toggle :
  themeToggle b = Some toggle →
  let s' := themeToggle_click b s in
  localStorage s' !! "theme" ∈ [Some "dark"; Some "light"]
  ∧ attributes (documentElement s') !! "data-theme" = Some (storedTheme s').
Proof.
  intros Hb. destruct (themeToggle_click_writes b s toggle Hb) as [Ha Hl]. cbv zeta in *.
  rewrite Ha, Hl. case_bool_decide.
  - split; [set_solver|]. f_equal. symmetry. by apply storedTheme_of_lookup.
  - split; [set_solver|]. f_equal. symmetry. by apply storedTheme_of_lookup.
Qed.

End ThemeOnLoad.

(** ** Testimonials modal *)

Section ModalFacts.

Context `{host : Host}.

Implicit Types (b : Bindings) (s : State) (n m : node).

Lemma hasClass_update_keeps s n m (f : Element → Element) (c : string) :
  (∀ e, classList (f e) = classList e) → hasClass (update n f s) m c = hasClass s m c.
Proof.
  intros Hf. rewrite hasClass_update. destruct (decide (n = m)); [|done].
  unfold hasClass. destruct (nodes s !! m); simpl; [|done].
  unfold class_contains. by rewrite Hf.
Qed.

Lemma hasClass_toggle s n m (c : string) :
  (n < length (nodes s))%nat →
  hasClass (update n (class_toggle c) s) m c =
  if decide (n = m) then negb (hasClass s m c) else hasClass s m c.
Proof.
  intros Hn. rewrite hasClass_update. destruct (decide (n = m)) as [->|]; [|done].
  unfold hasClass. destruct (lookup_lt_is_Some_2 _ _ Hn) as [e ->]. simpl.
  apply class_contains_toggle.
Qed.

(** The focus step at the end of [testimonialsModalFunc] changes no class. *)
Lemma testimonialsModalFunc_nodes b s :
  nodes (testimonialsModalFunc b s) =
  nodes (whenBound (overlay b) (class_toggle "active")
           (whenBound (modalContainer b) (class_toggle "active") s)).
Proof.
  unfold testimonialsModalFunc. destruct (modalContainer b) as [m|]; [|done].
  match goal with |- context [if ?c then _ else _] => destruct c end; [|done].
  by destruct (modalCloseBtn b).
Qed.

Lemma testimonialsModalFunc_body b s :
  body (testimonialsModalFunc b s) = class_toggle "no-scroll" (body s).
Proof.
  unfold testimonialsModalFunc. destruct (modalContainer b) as [m|].
  - match goal with |- context [if ?c then _ else _] => destruct c end.
    + destruct (modalCloseBtn b); simpl; by destruct (overlay b).
    + simpl; by destruct (overlay b).
  - simpl; by destruct (overlay b).
Qed.

Lemma hooksInStore_bind s : hooksInStore (bind (nodes s)) s.
Proof.
  split; simpl; intros n Hq; apply querySelector_lookup in Hq as (e & He & _);
    by apply lookup_lt_Some in He.
Qed.

Lemma hooksInStore_same_length b s s' :
  length (nodes s') = length (nodes s) → hooksInStore b s → hooksInStore b s'.
Proof. intros Hlen [Hm Ho]. split; intros n Hn; rewrite Hlen; eauto. Qed.

Lemma testimonialsModalFunc_hasClass b s n (c : string) :
  hasClass (testimonialsModalFunc b s) n c =
  hasClass (whenBound (overlay b) (class_toggle "active")
              (whenBound (modalContainer b) (class_toggle "active") s)) n c.
Proof. unfold hasClass. by rewrite testimonialsModalFunc_nodes. Qed.

(** [testimonialsModalFunc] flips the three flags at once. *)
Lemma testimonialsModalFunc_flags b s :
  hooksInStore b s →
  (∀ n, modalContainer b = Some n → overlay b ≠ Some n) →
  modalFlags b (testimonialsModalFunc b s) = negb <$> modalFlags b s.
Proof.
  intros [Hm Ho] Hdistinct. unfold modalFlags.
  rewrite testimonialsModalFunc_body, class_contains_toggle.
  destruct (modalContainer b) as [m|] eqn:Em; destruct (overlay b) as [o|] eqn:Eo; simpl;
    rewrite ?testimonialsModalFunc_hasClass, ?Em, ?Eo; simpl;
    rewrite ?hasClass_toggle by (rewrite ?length_update; eauto).
  - assert (m ≠ o) by (intros ->; by eapply Hdistinct).
    repeat case_decide; congruence.
  - repeat case_decide; congruence.
  - repeat case_decide; congruence.
  - done.
Qed.

Lemma testimonialsModalFunc_length b s :
  length (nodes (testimonialsModalFunc b s)) = length (nodes s).
Proof.
  rewrite testimonialsModalFunc_nodes.
  destruct (overlay b), (modalContainer b); simpl; by rewrite ?length_alter.
Qed.

Lemma copyTestimonial_length b item s :
  length (nodes (copyTestimonial b item s)) = length (nodes s).
Proof.
  unfold copyTestimonial.
  repeat match goal with
         | |- context [match ?o with Some _ => _ | None => _ end] => destruct o
         end; simpl; by rewrite ?length_alter.
Qed.

Lemma copyTestimonial_body b item s : body (copyTestimonial b item s) = body s.
Proof.
  unfold copyTestimonial.
  repeat match goal with
         | |- context [match ?o with Some _ => _ | None => _ end] => destruct o
         end; done.
Qed.

Lemma copyTestimonial_hasClass b item s n (c : string) :
  hasClass (copyTestimonial b item s) n c = hasClass s n c.
Proof.
  unfold copyTestimonial.
  repeat match goal with
         | |- context [match ?o with Some _ => _ | None => _ end] => destruct o
         end; by rewrite ?hasClass_update_keeps.
Qed.

Lemma copyTestimonial_flags b item s : modalFlags b (copyTestimonial b item s) = modalFlags b s.
Proof.
  unfold modalFlags. rewrite copyTestimonial_body.
  destruct (modalContainer b), (overlay b); simpl; by rewrite ?copyTestimonial_hasClass.
Qed.

Lemma allEqual_negb (flags : list bool) : allEqual flags → allEqual (negb <$> flags).
Proof.
  intros Heq x y Hx Hy.
  apply list_elem_of_fmap in Hx as (x' & -> & Hx). apply list_elem_of_fmap in Hy as (y' & -> & Hy).
  f_equal. by apply Heq.
Qed.

(** Every listener of the modal keeps the flags or flips all of them. *)
Lemma modal_event_flags b ev s :
  isModalEvent ev = true →
  hooksInStore b s →
  (∀ n, modalContainer b = Some n → overlay b ≠ Some n) →
  let s' := stateOf (dispatch b ev s) in
  length (nodes s') = length (nodes s)
  ∧ (modalFlags b s' = modalFlags b s ∨ modalFlags b s' = negb <$> modalFlags b s).
Proof.
  intros Hev Hhooks Hdistinct. destruct ev; try discriminate Hev; cbn [dispatch stateOf].
  - case_bool_decide; [|by auto]. unfold testimonialsItem_click. split.
    + by rewrite testimonialsModalFunc_length, copyTestimonial_length.
    + right. rewrite testimonialsModalFunc_flags, ?copyTestimonial_flags; [done| |done].
      eapply hooksInStore_same_length; [apply copyTestimonial_length | done].
  - destruct (modalCloseBtn b); [|by auto]. split.
    + apply testimonialsModalFunc_length.
    + right. by apply testimonialsModalFunc_flags.
  - destruct (overlay b) eqn:Eo; [|by auto]. rewrite <- Eo in Hdistinct. split.
    + apply testimonialsModalFunc_length.
    + right. by apply testimonialsModalFunc_flags.
  - unfold escape_keydown. destruct (modalContainer b) eqn:Em; [|by auto].
    rewrite <- Em in Hdistinct.
    match goal with |- context [if ?c then _ else _] => destruct c end; [|by auto]. split.
    + apply testimonialsModalFunc_length.
    + right. by apply testimonialsModalFunc_flags.
Qed.

(** X5.  The modal on its own.  On a page whose modal container and overlay
    are two elements, every modal operation (a click on a testimonial item,
    on the close button, on the overlay, or Escape while the container is
    active) flips the container's [active], the overlay's [active] and the
    body's [no-scroll] together; hence flags that agree stay in agreement
    through any sequence of events on the modal's listeners.  The mobile
    menu writes [no-scroll] too, and its events are not among these. *)
Theorem modal_flags_move_together b s :
  b = bind (nodes s) →
  (∀ n, modalContainer b = Some n → overlay b ≠ Some n) →
  (∀ ev, modalOperation b s ev →
         modalFlags b (stateOf (dispatch b ev s)) = negb <$> modalFlags b s)
  ∧ (∀ evs, Forall (λ ev, isModalEvent ev = true) evs →
            allEqual (modalFlags b s) → allEqual (modalFlags b (run b evs s))).
Proof.
  intros Hb Hdistinct.
  assert (Hhooks : hooksInStore b s) by (subst b; apply hooksInStore_bind).
  clear Hb. split.
  - intros ev Hop. destruct ev; simpl in Hop; try done; cbn [dispatch stateOf].
    + rewrite bool_decide_eq_true_2 by done. unfold testimonialsItem_click.
      rewrite testimonialsModalFunc_flags, ?copyTestimonial_flags; [done| |done].
      eapply hooksInStore_same_length; [apply copyTestimonial_length | done].
    + destruct Hop as [c ->]. by apply testimonialsModalFunc_flags.
    + destruct Hop as [o Ho]. rewrite Ho. by apply testimonialsModalFunc_flags.
    + destruct Hop as (-> & m & Hm & Hactive). unfold escape_keydown. rewrite Hm, Hactive.
      cbn [stateOf bool_decide andb]. by apply testimonialsModalFunc_flags.
  - intros evs Hevs. revert s Hhooks.
    induction Hevs as [|ev evs Hev _ IH]; intros s Hhooks Heq; simpl; [done|].
    destruct (modal_event_flags b ev s Hev Hhooks Hdistinct) as [Hlen Hflags].
    apply IH.
    + by eapply hooksInStore_same_length.
    + destruct Hflags as [-> | ->]; [done | by apply allEqual_negb].
Qed.

End ModalFacts.

(** ** What the modal shows *)

Section ModalContentFacts.

Context `{host : Host}.

Implicit Types (b : Bindings) (s : State) (n m : node).

Lemma reflectedOf_update s n m (f : Element → Element) (a : string) :
  reflectedOf (update n f s) m a =
  if decide (n = m) then from_option (λ e, reflected a (f e)) "" (nodes s !! m)
  else reflectedOf s m a.
Proof.
  unfold reflectedOf. rewrite lookup_update.
  destruct (decide (n = m)); [|done]. by destruct (nodes s !! m).
Qed.

Lemma innerHTMLOf_update s n m (f : Element → Element) :
  innerHTMLOf (update n f s) m =
  if decide (n = m) then from_option (λ e, innerHTML (f e)) "" (nodes s !! m)
  else innerHTMLOf s m.
Proof.
  unfold innerHTMLOf. rewrite lookup_update.
  destruct (decide (n = m)); [|done]. by destruct (nodes s !! m).
Qed.

Lemma reflectedOf_update_keeps s n m (f : Element → Element) (a : string) :
  (∀ e, attributes (f e) !! a = attributes e !! a) →
  reflectedOf (update n f s) m a = reflectedOf s m a.
Proof.
  intros Hf. rewrite reflectedOf_update. destruct (decide (n = m)); [|done].
  unfold reflectedOf, reflected. destruct (nodes s !! m); simpl; [|done]. by rewrite Hf.
Qed.

Lemma innerHTMLOf_update_keeps s n m (f : Element → Element) :
  (∀ e, innerHTML (f e) = innerHTML e) → innerHTMLOf (update n f s) m = innerHTMLOf s m.
Proof.
  intros Hf. rewrite innerHTMLOf_update. destruct (decide (n = m)); [|done].
  unfold innerHTMLOf. destruct (nodes s !! m); simpl; [|done]. by rewrite Hf.
Qed.

Lemma reflectedOf_attr_set s n (a v : string) :
  is_Some (nodes s !! n) → reflectedOf (update n (attr_set a v) s) n a = v.
Proof.
  intros [e He]. rewrite reflectedOf_update, decide_True, He by done. simpl.
  unfold reflected, attr_set; simpl. by rewrite lookup_insert_eq.
Qed.

Lemma reflectedOf_attr_set_ne s n m (a a' v : string) :
  a ≠ a' → reflectedOf (update n (attr_set a v) s) m a' = reflectedOf s m a'.
Proof.
  intros Hne. apply reflectedOf_update_keeps. intros e. simpl. by apply lookup_insert_ne.
Qed.

Lemma innerHTMLOf_with_innerHTML s n (h : string) :
  is_Some (nodes s !! n) → innerHTMLOf (update n (with_innerHTML h) s) n = h.
Proof. intros [e He]. by rewrite innerHTMLOf_update, decide_True, He. Qed.

Lemma innerHTMLOf_update_ne s n m (f : Element → Element) :
  n ≠ m → innerHTMLOf (update n f s) m = innerHTMLOf s m.
Proof. intros Hne. by rewrite innerHTMLOf_update, decide_False. Qed.

Lemma is_Some_lookup_update s n m (f : Element → Element) :
  is_Some (nodes s !! m) → is_Some (nodes (update n f s) !! m).
Proof.
  intros [e He]. rewrite lookup_update, He. destruct (decide (n = m)); simpl; eauto.
Qed.

Lemma whenBound_fieldsAt_classes (o : option node) (g : gset string → gset string) s
    image heading paragraph :
  fieldsAt (whenBound o (with_classList g) s) image heading paragraph
  = fieldsAt s image heading paragraph.
Proof.
  destruct o; [|done]. unfold fieldsAt, whenBound.
  by rewrite !reflectedOf_update_keeps, !innerHTMLOf_update_keeps by done.
Qed.

(** Opening and closing the modal touches classes and the focus only. *)
Lemma testimonialsModalFunc_fieldsAt b s image heading paragraph :
  fieldsAt (testimonialsModalFunc b s) image heading paragraph = fieldsAt s image heading paragraph.
Proof.
  transitivity (fieldsAt (whenBound (overlay b) (class_toggle "active")
                  (whenBound (modalContainer b) (class_toggle "active") s))
                  image heading paragraph).
  - unfold fieldsAt, reflectedOf, innerHTMLOf. by rewrite testimonialsModalFunc_nodes.
  - unfold class_toggle. by rewrite !whenBound_fieldsAt_classes.
Qed.

(** The three guarded copies, when the item has its three parts and the
    modal its three display elements. *)
Lemma copyTestimonial_fieldsAt b s item img ttl txt avatar title text :
  modalImg b = Some img → modalTitle b = Some ttl → modalText b = Some txt →
  is_Some (nodes s !! img) → is_Some (nodes s !! ttl) → is_Some (nodes s !! txt) →
  querySelectorIn item (HasAttr "data-testimonials-avatar") (nodes s) = Some avatar →
  querySelectorIn item (HasAttr "data-testimonials-title") (nodes s) = Some title →
  querySelectorIn item (HasAttr "data-testimonials-text") (nodes s) = Some text →
  ttl ≠ txt → text ≠ ttl →
  fieldsAt (copyTestimonial b item s) img ttl txt = fieldsAt s avatar title text.
Proof.
  intros Himg Httl Htxt Hei Het Hex Ha Ht Hx Hne1 Hne2.
  unfold copyTestimonial. rewrite Himg, Httl, Htxt, Ha, Ht, Hx.
  set (sA := update img (attr_set "src" (reflectedOf s avatar "src")) s).
  set (sB := update img (attr_set "alt" (reflectedOf sA avatar "alt")) sA).
  set (sC := update ttl (with_innerHTML (innerHTMLOf sB title)) sB).
  assert (Halt : reflectedOf sA avatar "alt" = reflectedOf s avatar "alt")
    by (by apply reflectedOf_attr_set_ne).
  assert (Hh1 : innerHTMLOf sB title = innerHTMLOf s title)
    by (unfold sB, sA; by rewrite !innerHTMLOf_update_keeps by done).
  assert (Hh2 : innerHTMLOf sC text = innerHTMLOf s text).
  { unfold sC. rewrite innerHTMLOf_update_ne by done.
    unfold sB, sA; by rewrite !innerHTMLOf_update_keeps by done. }
  unfold fieldsAt. rewrite Hh2. f_equal; [f_equal; [f_equal|]|].
  - unfold sC. rewrite !reflectedOf_update_keeps by done.
    unfold sB. rewrite reflectedOf_attr_set_ne by done.
    by apply reflectedOf_attr_set.
  - unfold sC. rewrite !reflectedOf_update_keeps by done.
    unfold sB. rewrite reflectedOf_attr_set; [done|]. by apply is_Some_lookup_update.
  - rewrite innerHTMLOf_update_ne by done.
    unfold sC. rewrite innerHTMLOf_with_innerHTML; [done|].
    unfold sB, sA. by do 2 apply is_Some_lookup_update.
  - apply innerHTMLOf_with_innerHTML.
    unfold sC, sB, sA. by do 3 apply is_Some_lookup_update.
Qed.


End ModalContentFacts.

(** ** Page navigation *)

Section NavigationFacts.

Context `{host : Host}.

Implicit Types (b : Bindings) (s acc : State) (n p : node) (pageName : string).

Lemma getAttribute_update_keeps s n m (f : Element → Element) (a : string) :
  (∀ e, attributes (f e) !! a = attributes e !! a) →
  getAttribute (update n f s) m a = getAttribute s m a.
Proof.
  intros Hf. unfold getAttribute. rewrite lookup_update.
  destruct (decide (n = m)); [|done]. destruct (nodes s !! m); simpl; [apply Hf | done].
Qed.

Lemma showPage_getAttribute pageName acc page n (a : string) :
  getAttribute (showPage pageName acc page) n a = getAttribute acc n a.
Proof.
  unfold showPage. case_bool_decide.
  - apply (getAttribute_update_keeps acc page n (class_add "active") a). done.
  - by apply getAttribute_update_keeps.
Qed.

Lemma showPage_innerHTMLOf pageName acc page n :
  innerHTMLOf (showPage pageName acc page) n = innerHTMLOf acc n.
Proof.
  unfold showPage. case_bool_decide.
  - apply (innerHTMLOf_update_keeps acc page n (class_add "active")). done.
  - by apply innerHTMLOf_update_keeps.
Qed.

Lemma showPage_length pageName acc page :
  length (nodes (showPage pageName acc page)) = length (nodes acc).
Proof. unfold showPage. case_bool_decide; apply length_alter. Qed.

Lemma showPage_hasClass pageName acc page p :
  hasClass (showPage pageName acc page) p "active" =
  if decide (page = p) then bool_decide (Some pageName = getAttribute acc p "data-page")
  else hasClass acc p "active".
Proof.
  unfold showPage. case_bool_decide as Hm.
  - transitivity (hasClass (update page (class_add "active") acc) p "active"); [done|].
    rewrite hasClass_update. destruct (decide (page = p)) as [->|]; [|done].
    rewrite bool_decide_eq_true_2 by done.
    unfold getAttribute in Hm. destruct (nodes acc !! p); simpl in *; [|done].
    by rewrite class_contains_add, bool_decide_eq_true_2.
  - rewrite hasClass_update. destruct (decide (page = p)) as [->|]; [|done].
    rewrite bool_decide_eq_false_2 by done.
    destruct (nodes acc !! p); simpl; [|done].
    by rewrite class_contains_remove, bool_decide_eq_true_2.
Qed.

Lemma showPages_getAttribute pageName (l : list node) s n (a : string) :
  getAttribute (foldl (showPage pageName) s l) n a = getAttribute s n a.
Proof.
  apply (foldl_keeps (λ acc, getAttribute acc n a = getAttribute s n a)); [|done].
  intros acc x _ Hacc. by rewrite showPage_getAttribute.
Qed.

Lemma showPages_innerHTMLOf pageName (l : list node) s n :
  innerHTMLOf (foldl (showPage pageName) s l) n = innerHTMLOf s n.
Proof.
  apply (foldl_keeps (λ acc, innerHTMLOf acc n = innerHTMLOf s n)); [|done].
  intros acc x _ Hacc. by rewrite showPage_innerHTMLOf.
Qed.

Lemma showPages_length pageName (l : list node) s :
  length (nodes (foldl (showPage pageName) s l)) = length (nodes s).
Proof.
  apply (foldl_keeps (λ acc, length (nodes acc) = length (nodes s))); [|done].
  intros acc x _ Hacc. by rewrite showPage_length.
Qed.

(** After the first loop a page is active exactly when it is the one asked
    for; elements outside the loop keep their class. *)
Lemma showPages_hasClass pageName (l : list node) s p :
  hasClass (foldl (showPage pageName) s l) p "active" =
  if decide (p ∈ l) then bool_decide (Some pageName = getAttribute s p "data-page")
  else hasClass s p "active".
Proof.
  revert s. induction l as [|x l IH]; intros s; cbn [foldl].
  - by rewrite decide_False by apply not_elem_of_nil.
  - rewrite IH, showPage_getAttribute, showPage_hasClass.
    destruct (decide (p ∈ l)) as [Hin|Hin].
    + rewrite decide_True; [done | by right].
    + destruct (decide (x = p)) as [->|Hne].
      * rewrite decide_True; [done | by left].
      * rewrite decide_False; [done|]. rewrite elem_of_cons. naive_solver.
Qed.

Lemma showPage_title_kept pageName acc page :
  title acc = pageTitle pageName → title (showPage pageName acc page) = pageTitle pageName.
Proof. unfold showPage. by case_bool_decide. Qed.

(** The title is written as soon as one page matches. *)
Lemma showPages_title pageName (l : list node) s :
  (∃ p, p ∈ l ∧ getAttribute s p "data-page" = Some pageName) →
  title (foldl (showPage pageName) s l) = pageTitle pageName.
Proof.
  revert s. induction l as [|x l IH]; intros s (p & Hp & Hname).
  - by apply elem_of_nil in Hp.
  - simpl. destruct (decide (getAttribute s x "data-page" = Some pageName)) as [Hx|Hx].
    + apply (foldl_keeps (λ acc, title acc = pageTitle pageName)).
      * intros acc y _. apply showPage_title_kept.
      * unfold showPage. by rewrite bool_decide_eq_true_2.
    + apply IH. exists p. rewrite showPage_getAttribute. split; [|done].
      apply elem_of_cons in Hp as [->|Hp]; [congruence | done].
Qed.

Lemma markLink_title pageName acc link : title (markLink pageName acc link) = title acc.
Proof. unfold markLink. simpl. by case_bool_decide. Qed.

Lemma markLink_innerHTMLOf pageName acc link n :
  innerHTMLOf (markLink pageName acc link) n = innerHTMLOf acc n.
Proof.
  unfold markLink. simpl. case_bool_decide.
  - apply (innerHTMLOf_update_keeps acc link n (class_add "active")). done.
  - by apply innerHTMLOf_update_keeps.
Qed.

Lemma markLink_lookup pageName acc link n :
  is_Some (nodes (markLink pageName acc link) !! n) ↔ is_Some (nodes acc !! n).
Proof.
  rewrite !lookup_lt_is_Some. unfold markLink. simpl.
  case_bool_decide; by rewrite length_update.
Qed.

Lemma markLink_hasClass pageName acc link p :
  is_Some (nodes acc !! p) →
  hasClass (markLink pageName acc link) p "active" =
  if decide (link = p) then bool_decide (toLowerCase (innerHTMLOf acc p) = pageName)
  else hasClass acc p "active".
Proof.
  intros [e He]. unfold markLink. simpl.
  case_bool_decide as Hm; rewrite hasClass_update;
    (destruct (decide (link = p)) as [->|]; [|done]); rewrite He; simpl.
  - by rewrite class_contains_add, !bool_decide_eq_true_2.
  - by rewrite class_contains_remove, bool_decide_eq_true_2, bool_decide_eq_false_2.
Qed.

Lemma markLinks_hasClass pageName (l : list node) s p :
  is_Some (nodes s !! p) →
  hasClass (foldl (markLink pageName) s l) p "active" =
  if decide (p ∈ l) then bool_decide (toLowerCase (innerHTMLOf s p) = pageName)
  else hasClass s p "active".
Proof.
  revert s. induction l as [|x l IH]; intros s Hp; cbn [foldl].
  - by rewrite decide_False by apply not_elem_of_nil.
  - rewrite IH by (by apply markLink_lookup).
    rewrite markLink_innerHTMLOf, markLink_hasClass by done.
    destruct (decide (p ∈ l)) as [Hin|Hin].
    + rewrite decide_True; [done | by right].
    + destruct (decide (x = p)) as [->|Hne].
      * rewrite decide_True; [done | by left].
      * rewrite decide_False; [done|]. rewrite elem_of_cons. naive_solver.
Qed.

Lemma markLinks_title pageName (l : list node) s :
  title (foldl (markLink pageName) s l) = title s.
Proof.
  apply (foldl_keeps (λ acc, title acc = title s)); [|done].
  intros acc x _ Hacc. by rewrite markLink_title.
Qed.

(** What [navigateToPage] leaves on a page that is not also a link, and
    on a link. *)
Lemma navigateToPage_page b pageName s p :
  p ∈ pages b → p ∉ navigationLinks b → is_Some (nodes s !! p) →
  hasClass (navigateToPage b pageName s) p "active" =
  bool_decide (Some pageName = pageNameOf s p).
Proof.
  intros Hp Hnl Hstore. unfold navigateToPage.
  rewrite markLinks_hasClass.
  - rewrite decide_False by done. by rewrite showPages_hasClass, decide_True.
  - apply lookup_lt_is_Some. rewrite showPages_length. by apply lookup_lt_is_Some.
Qed.

Lemma navigateToPage_link b pageName s link :
  link ∈ navigationLinks b → is_Some (nodes s !! link) →
  hasClass (navigateToPage b pageName s) link "active" =
  bool_decide (toLowerCase (innerHTMLOf s link) = pageName).
Proof.
  intros Hl Hstore. unfold navigateToPage.
  rewrite markLinks_hasClass.
  - by rewrite decide_True, showPages_innerHTMLOf.
  - apply lookup_lt_is_Some. rewrite showPages_length. by apply lookup_lt_is_Some.
Qed.

Lemma navigateToPage_title b pageName s :
  knownPage b s pageName → title (navigateToPage b pageName s) = pageTitle pageName.
Proof.
  intros Hknown. unfold navigateToPage. rewrite markLinks_title.
  by apply showPages_title.
Qed.

Lemma filter_none {A} (P : A → Prop) `{∀ x, Decision (P x)} (l : list A) :
  (∀ x, x ∈ l → ¬ P x) → filter P l = [].
Proof.
  induction l as [|x l IH]; intros HP; [done|].
  rewrite filter_cons_False by (apply HP; by left).
  apply IH. intros y Hy. apply HP. by right.
Qed.

Lemma filter_only {A} (P : A → Prop) `{∀ x, Decision (P x)} (l : list A) (a : A) :
  NoDup l → a ∈ l → (∀ x, x ∈ l → P x ↔ x = a) → filter P l = [a].
Proof.
  induction l as [|x l IH]; intros Hnd Ha HP.
  - by apply elem_of_nil in Ha.
  - apply NoDup_cons in Hnd as [Hx Hnd].
    destruct (decide (P x)) as [HPx|HPx].
    + rewrite filter_cons_True by done.
      apply HP in HPx; [subst x | by left]. f_equal.
      apply filter_none. intros y Hy HPy.
      apply HP in HPy; [|by right]. by subst y.
    + rewrite filter_cons_False by done.
      apply IH; [done| |].
      * apply elem_of_cons in Ha as [->|Ha]; [|done].
        exfalso. apply HPx, HP; [by left | done].
      * intros y Hy. apply HP. by right.
Qed.

Lemma filter_ext_in {A} (P Q : A → Prop) `{∀ x, Decision (P x)} `{∀ x, Decision (Q x)}
    (l : list A) :
  (∀ x, x ∈ l → P x ↔ Q x) → filter P l = filter Q l.
Proof.
  induction l as [|x l IH]; intros HPQ; [done|].
  rewrite !filter_cons. rewrite IH by (intros y Hy; apply HPQ; by right).
  destruct (decide (P x)) as [HP|HP], (decide (Q x)) as [HQ|HQ]; try done;
    exfalso; apply HPQ in HP || apply HPQ in HQ; try done; by left.
Qed.

Lemma NoDup_fmap_eq {A B} (f : A → B) (l : list A) (x y : A) :
  NoDup (f <$> l) → x ∈ l → y ∈ l → f x = f y → x = y.
Proof.
  induction l as [|z l IH]; intros Hnd Hx Hy Hf; [by apply elem_of_nil in Hx|].
  rewrite fmap_cons in Hnd. apply NoDup_cons in Hnd as [Hz Hnd].
  apply elem_of_cons in Hx as [->|Hx]; apply elem_of_cons in Hy as [->|Hy]; try done.
  - exfalso. apply Hz. rewrite Hf. by apply list_elem_of_fmap_2.
  - exfalso. apply Hz. rewrite <- Hf. by apply list_elem_of_fmap_2.
  - by apply IH.
Qed.


End NavigationFacts.

(** ** Routing by fragment *)

Section RoutingFacts.

Context `{host : Host}.

Implicit Types (b : Bindings) (s : State) (pageName hash : string).

Lemma knownPage_querySelector s pageName :
  knownPage (bind (nodes s)) s pageName
  ↔ is_Some (querySelector (AttrIs "data-page" pageName) (nodes s)).
Proof.
  rewrite querySelector_is_Some. unfold knownPage, pageNameOf, getAttribute. simpl. split.
  - intros (page & Hpage & Hname). exists page.
    apply elem_of_querySelectorAll. unfold matchesAt.
    destruct (nodes s !! page) as [e|]; simpl in *; [|done]. by apply bool_decide_eq_true.
  - intros (page & Hpage). exists page.
    apply querySelectorAll_lookup in Hpage as (e & He & Hm). simpl in Hm.
    apply bool_decide_eq_true in Hm. rewrite He. simpl. split; [|done].
    apply elem_of_querySelectorAll. unfold matchesAt. rewrite He. simpl.
    apply bool_decide_eq_true. by rewrite Hm.
Qed.

(** At load an empty fragment, and one that the selector does not read as
    the name of a page, is routed to "about". *)
Lemma initializePage_falls_back s :
  let b := bind (nodes s) in
  let hash := Str.slice1 (locationHash s) in
  hash = "" ∨ ¬ knownPage b s (cssString hash) →
  initializePage b s = navigateToPage b "about" s.
Proof.
  intros b hash Hhash. unfold initializePage. fold hash.
  destruct (Str.truthy hash) eqn:Ht; [|done]. simpl.
  destruct Hhash as [->|Hunknown]; [done|].
  rewrite bool_decide_eq_false_2; [done|]. by rewrite <- knownPage_querySelector.
Qed.

Lemma initializePage_known s :
  let b := bind (nodes s) in
  let hash := Str.slice1 (locationHash s) in
  hash ≠ "" → knownPage b s (cssString hash) →
  initializePage b s = navigateToPage b hash s.
Proof.
  intros b hash Hne Hknown. unfold initializePage. fold hash.
  apply truthy_spec in Hne. rewrite Hne. simpl.
  rewrite bool_decide_eq_true_2; [done|]. by rewrite <- knownPage_querySelector.
Qed.

(** On back and forward an empty fragment is routed to "about"... *)
Lemma popstate_empty b s :
  Str.slice1 (locationHash s) = "" → popstate b s = navigateToPage b "about" s.
Proof. intros Hh. unfold popstate. by rewrite Hh. Qed.

(** ...and every other fragment is taken as the page name, known or not. *)
Lemma popstate_nonempty b s :
  Str.slice1 (locationHash s) ≠ "" →
  popstate b s = navigateToPage b (Str.slice1 (locationHash s)) s.
Proof. intros Hh. unfold popstate. apply truthy_spec in Hh. by rewrite Hh. Qed.

(** X12.  With a name no page has, [navigateToPage] leaves no page active. *)
Lemma navigateToPage_unknown b s pageName :
  b = bind (nodes s) →
  (∀ n, n ∈ pages b → n ∉ navigationLinks b) →
  ¬ knownPage b s pageName →
  activePages b (navigateToPage b pageName s) = [].
Proof.
  intros Hb Hdisjoint Hunknown. apply filter_none. intros page Hpage.
  rewrite navigateToPage_page; [|done|by apply Hdisjoint|].
  - rewrite bool_decide_eq_true. intros Heq. apply Hunknown. by exists page.
  - subst b. simpl in Hpage. apply querySelectorAll_lookup in Hpage as (e & He & _). eauto.
Qed.

End RoutingFacts.

(** ** The timer queue *)

Section QueueFacts.

Implicit Types (tm : Timer) (q pre post : list Timer).

Lemma elem_of_enqueue tm q x : x ∈ enqueue tm q ↔ x = tm ∨ x ∈ q.
Proof.
  induction q as [|y q IH]; simpl.
  - rewrite list_elem_of_singleton. split; [auto | intros [?|Hx]; [done | by apply elem_of_nil in Hx]].
  - destruct (due y <=? due tm); rewrite !elem_of_cons; [rewrite IH|]; tauto.
Qed.

Lemma Forall_enqueue (P : Timer → Prop) tm q : P tm → Forall P q → Forall P (enqueue tm q).
Proof.
  intros Htm Hq. apply Forall_forall. intros x Hx.
  apply elem_of_enqueue in Hx as [->|Hx]; [done|]. by eapply Forall_forall.
Qed.

Lemma enqueue_ordered tm q : inFiringOrder q → inFiringOrder (enqueue tm q).
Proof.
  induction q as [|y q IH]; simpl; [done|]. intros [Hy Hq].
  destruct (due y <=? due tm) eqn:Hle; simpl.
  - apply Z.leb_le in Hle. split; [by apply Forall_enqueue | by apply IH].
  - apply Z.leb_gt in Hle. split; [|done].
    constructor; [lia|]. eapply Forall_impl; [done|]. intros x Hx. simpl in Hx. lia.
Qed.

(** A new timer goes behind everything due no later and ahead of
    everything due later. *)
Lemma enqueue_split tm q :
  inFiringOrder q →
  ∃ pre post, q = pre ++ post ∧ enqueue tm q = pre ++ tm :: post
              ∧ Forall (λ x, due x ≤ due tm) pre ∧ Forall (λ x, due tm < due x) post.
Proof.
  induction q as [|y q IH]; simpl.
  - intros _. by exists [], [].
  - intros [Hy Hq]. destruct (due y <=? due tm) eqn:Hle.
    + apply Z.leb_le in Hle. destruct (IH Hq) as (pre & post & -> & -> & Hpre & Hpost).
      exists (y :: pre), post. repeat split; [by constructor | done].
    + apply Z.leb_gt in Hle. exists [], (y :: q). repeat split; [done|].
      constructor; [done|]. eapply Forall_impl; [done|]. intros x Hx. simpl in Hx. lia.
Qed.

Lemma enqueue_behind tm tm0 pre post :
  Forall (λ x, due x ≤ due tm) pre → due tm0 ≤ due tm →
  enqueue tm (pre ++ tm0 :: post) = pre ++ tm0 :: enqueue tm post.
Proof.
  intros Hpre Htm0. induction Hpre as [|y pre Hy _ IH]; simpl.
  - apply Z.leb_le in Htm0. by rewrite Htm0.
  - apply Z.leb_le in Hy. by rewrite Hy, IH.
Qed.

Lemma Forall_filter_keeps {A} (Q P : A → Prop) `{∀ x, Decision (P x)} (l : list A) :
  Forall Q l → Forall Q (filter P l).
Proof.
  rewrite !Forall_forall. intros HQ x Hx. apply list_elem_of_filter in Hx as [_ Hx]. auto.
Qed.

Lemma filter_ordered (P : Timer → Prop) `{∀ x, Decision (P x)} q :
  inFiringOrder q → inFiringOrder (filter P q).
Proof.
  induction q as [|y q IH]; simpl; [done|]. intros [Hy Hq].
  rewrite filter_cons. destruct (decide (P y)); [|by apply IH].
  simpl. split; [by apply Forall_filter_keeps | by apply IH].
Qed.

Lemma NoDup_fmap_filter {A B} (f : A → B) (P : A → Prop) `{∀ x, Decision (P x)} (l : list A) :
  NoDup (f <$> l) → NoDup (f <$> filter P l).
Proof.
  induction l as [|x l IH]; [done|]. rewrite fmap_cons, NoDup_cons. intros [Hx Hl].
  rewrite filter_cons. destruct (decide (P x)); [|by apply IH].
  rewrite fmap_cons. apply NoDup_cons. split; [|by apply IH].
  intros Hin. apply Hx. apply list_elem_of_fmap in Hin as (y & -> & Hy).
  apply list_elem_of_filter in Hy as [_ Hy]. by apply list_elem_of_fmap_2.
Qed.

Lemma pendingRounds_cons tm q : pendingRounds (tm :: q) = (rounds (task tm) + pendingRounds q)%nat.
Proof. done. Qed.

Lemma pendingRounds_app pre post :
  pendingRounds (pre ++ post) = (pendingRounds pre + pendingRounds post)%nat.
Proof.
  unfold pendingRounds. induction pre as [|y pre IH]; simpl; [done|]. rewrite IH. lia.
Qed.

Lemma pendingRounds_enqueue tm q :
  pendingRounds (enqueue tm q) = (rounds (task tm) + pendingRounds q)%nat.
Proof.
  unfold pendingRounds. induction q as [|y q IH]; simpl; [done|].
  destruct (due y <=? due tm); simpl; [rewrite IH|]; lia.
Qed.

Lemma pendingRounds_filter (P : Timer → Prop) `{∀ x, Decision (P x)} q :
  (pendingRounds (filter P q) ≤ pendingRounds q)%nat.
Proof.
  unfold pendingRounds. induction q as [|y q IH]; simpl; [done|]. rewrite filter_cons.
  destruct (decide (P y)); simpl; lia.
Qed.

Lemma rounds_pos (t : Task) : (1 ≤ rounds t)%nat.
Proof. destruct t; simpl; lia. Qed.

Lemma length_le_pendingRounds q : (length q ≤ pendingRounds q)%nat.
Proof.
  unfold pendingRounds. induction q as [|y q IH]; simpl; [done|].
  pose proof (rounds_pos (task y)). lia.
Qed.

End QueueFacts.

(** ** Listeners and the timers *)

Lemma timing_after (h : State → State) (x s : State) :
  keepsTiming h → timing x = timing s → timing (h x) = timing s.
Proof. intros Hh Hx. by rewrite Hh. Qed.

Lemma whenBound_timing (o : option node) (f : Element → Element) : keepsTiming (whenBound o f).
Proof. intros s. by destruct o. Qed.

Create HintDb timing.

#[export] Hint Resolve whenBound_timing : timing.

#[export] Hint Extern 5 (keepsTiming _) => (intros ?; reflexivity) : timing.

(** One step of a proof that a listener leaves the timers alone. *)
Ltac timing_step :=
  match goal with
  | |- timing _ = timing _ => reflexivity
  | H : timing _ = timing ?s |- timing _ = timing ?s => exact H
  | |- timing _ = timing _ => progress cbv beta zeta
  | |- timing (foldl _ _ _) = timing ?s =>
      apply (foldl_keeps (λ acc, timing acc = timing s)); [intros ? ? _ ? |]
  | |- timing (?h ?x) = timing _ => apply (timing_after h); [solve [auto with timing] |]
  | |- context [match ?o with Some _ => _ | None => _ end] => destruct o
  | |- context [if ?c then _ else _] => destruct c
  end.

Ltac keeps_timing := intros ?; repeat timing_step.

Section TimingFacts.

Context `{host : Host}.

Implicit Types (b : Bindings) (s : State) (n : node) (tm : Timer) (q : list Timer).

Lemma wfQueue_timing s s' : timing s' = timing s → wfQueue s → wfQueue s'.
Proof. unfold timing, wfQueue. intros [= -> -> -> _]. done. Qed.

Lemma settled_timing s s' : timing s' = timing s → settled s → settled s'.
Proof. unfold timing, settled. intros [= -> _ _ ->]. done. Qed.

Lemma wellTimed_timing s s' : timing s' = timing s → wellTimed s → wellTimed s'.
Proof. intros Ht [? ?]. split; [by eapply wfQueue_timing | by eapply settled_timing]. Qed.

Lemma elementToggleFunc_timing n : keepsTiming (elementToggleFunc n).
Proof. unfold elementToggleFunc. keeps_timing. Qed.

Lemma sidebarBtn_click_timing b : keepsTiming (sidebarBtn_click b).
Proof. unfold sidebarBtn_click, elementToggleFunc. keeps_timing. Qed.

Lemma sidebar_outside_click_timing b target : keepsTiming (sidebar_outside_click b target).
Proof. unfold sidebar_outside_click, elementToggleFunc. keeps_timing. Qed.

Lemma updateThemeIcon_timing b theme : keepsTiming (updateThemeIcon b theme).
Proof. unfold updateThemeIcon. keeps_timing. Qed.

Hint Resolve updateThemeIcon_timing : timing.

Lemma themeToggle_click_timing b : keepsTiming (themeToggle_click b).
Proof. unfold themeToggle_click. keeps_timing. Qed.

Lemma testimonialsModalFunc_timing b : keepsTiming (testimonialsModalFunc b).
Proof. unfold testimonialsModalFunc. keeps_timing. Qed.

Lemma copyTestimonial_timing b item : keepsTiming (copyTestimonial b item).
Proof. unfold copyTestimonial. keeps_timing. Qed.

Hint Resolve testimonialsModalFunc_timing copyTestimonial_timing : timing.

Lemma testimonialsItem_click_timing b item : keepsTiming (testimonialsItem_click b item).
Proof. unfold testimonialsItem_click. keeps_timing. Qed.

Lemma escape_keydown_timing b key : keepsTiming (escape_keydown b key).
Proof. unfold escape_keydown. keeps_timing. Qed.

Lemma select_click_timing b : keepsTiming (select_click b).
Proof. unfold select_click, elementToggleFunc. keeps_timing. Qed.

Lemma select_outside_click_timing b target : keepsTiming (select_outside_click b target).
Proof. unfold select_outside_click, elementToggleFunc. keeps_timing. Qed.

Lemma validateForm_timing b : keepsTiming (validateForm b).
Proof. unfold validateForm. keeps_timing. Qed.

Lemma formReset_timing f : keepsTiming (formReset f).
Proof. unfold formReset. keeps_timing. Qed.

Hint Resolve formReset_timing : timing.

Lemma submit_reset_timing b originalText : keepsTiming (submit_reset b originalText).
Proof. unfold submit_reset. keeps_timing. Qed.

Lemma navigateToPage_timing b pageName : keepsTiming (navigateToPage b pageName).
Proof. unfold navigateToPage, markLink, showPage. keeps_timing. Qed.

Hint Resolve navigateToPage_timing : timing.

Lemma navigationLink_click_timing b link : keepsTiming (navigationLink_click b link).
Proof. unfold navigationLink_click. keeps_timing. Qed.

Lemma popstate_timing b : keepsTiming (popstate b).
Proof. unfold popstate. keeps_timing. Qed.

Lemma mobileMenuBtn_click_timing b : keepsTiming (mobileMenuBtn_click b).
Proof. unfold mobileMenuBtn_click. keeps_timing. Qed.

Lemma mobileLink_click_timing b : keepsTiming (mobileLink_click b).
Proof. unfold mobileLink_click. keeps_timing. Qed.

Lemma initializePage_timing b : keepsTiming (initializePage b).
Proof. unfold initializePage. keeps_timing. Qed.

Hint Resolve initializePage_timing : timing.

Lemma runScript_timing b : keepsTiming (runScript b).
Proof. unfold runScript. keeps_timing. Qed.

(** *** The queue invariants under [setTimeout] and [clearTimeout] *)

Lemma enqueue_perm tm q : enqueue tm q ≡ₚ tm :: q.
Proof.
  induction q as [|y q IH]; simpl; [done|].
  destruct (due y <=? due tm); [|done]. rewrite IH. apply Permutation_swap.
Qed.

Lemma setTimeout_wfQueue (t : Task) (delay : Z) s :
  (∀ input, t ≠ DebounceLater input) → wfQueue s → wfQueue (setTimeout t delay s).2.
Proof.
  intros Ht (Hord & Hnd & Hfresh & Hvar). unfold wfQueue; simpl. repeat split.
  - by apply enqueue_ordered.
  - rewrite enqueue_perm, fmap_cons. apply NoDup_cons. split; [|done]. simpl.
    intros Hin. apply list_elem_of_fmap in Hin as (tm & Hid & Htm).
    rewrite Forall_forall in Hfresh. specialize (Hfresh tm Htm). lia.
  - apply Forall_enqueue; simpl; [lia|].
    eapply Forall_impl; [done|]. intros tm Htm. simpl in Htm. lia.
  - intros tm input Htm Htask. apply elem_of_enqueue in Htm as [->|Htm]; simpl in *.
    + by destruct (Ht input).
    + by apply Hvar.
Qed.

Lemma setTimeout_settled (t : Task) (delay : Z) s :
  0 < delay → settled s → settled (setTimeout t delay s).2.
Proof. intros Hd Hs. unfold settled; simpl. apply Forall_enqueue; [simpl; lia | done]. Qed.

Lemma clearTimeout_wfQueue (id : option nat) s : wfQueue s → wfQueue (clearTimeout id s).
Proof.
  destruct id as [i|]; [|done]. intros (Hord & Hnd & Hfresh & Hvar).
  unfold wfQueue; simpl. repeat split.
  - by apply filter_ordered.
  - by apply NoDup_fmap_filter.
  - by apply Forall_filter_keeps.
  - intros tm input Htm. apply list_elem_of_filter in Htm as [_ Htm]. by apply Hvar.
Qed.

Lemma clearTimeout_settled (id : option nat) s : settled s → settled (clearTimeout id s).
Proof.
  destruct id as [i|]; [|done]. unfold settled; simpl. intros Hs.
  by apply Forall_filter_keeps.
Qed.

Lemma debounced_wfQueue input (wait : Z) s : wfQueue s → wfQueue (debounced input wait s).
Proof.
  intros (Hord & Hnd & Hfresh & Hvar). unfold debounced, wfQueue; simpl.
  assert (Hq : timers (clearTimeout (debounceTimeout s !! input) s)
               = match debounceTimeout s !! input with
                 | Some i => filter (λ tm, timerId tm ≠ i) (timers s)
                 | None => timers s
                 end) by by destruct (debounceTimeout s !! input).
  assert (Hn : nextTimerId (clearTimeout (debounceTimeout s !! input) s) = nextTimerId s)
    by by destruct (debounceTimeout s !! input).
  assert (Hc : clock (clearTimeout (debounceTimeout s !! input) s) = clock s)
    by by destruct (debounceTimeout s !! input).
  assert (Hd : debounceTimeout (clearTimeout (debounceTimeout s !! input) s) = debounceTimeout s)
    by by destruct (debounceTimeout s !! input).
  rewrite Hq, Hn, Hc, Hd. clear Hq Hn Hc Hd.
  set (q := match debounceTimeout s !! input with
            | Some i => filter (λ tm, timerId tm ≠ i) (timers s)
            | None => timers s
            end).
  assert (Hsub : ∀ tm, tm ∈ q → tm ∈ timers s).
  { intros tm. unfold q. destruct (debounceTimeout s !! input); [|done].
    rewrite list_elem_of_filter. tauto. }
  assert (Hqord : inFiringOrder q).
  { unfold q. destruct (debounceTimeout s !! input); [by apply filter_ordered | done]. }
  assert (Hqnd : NoDup (timerId <$> q)).
  { unfold q. destruct (debounceTimeout s !! input); [by apply NoDup_fmap_filter | done]. }
  rewrite Forall_forall in Hfresh. repeat split.
  - by apply enqueue_ordered.
  - rewrite enqueue_perm, fmap_cons. apply NoDup_cons. split; [|done]. simpl.
    intros Hin. apply list_elem_of_fmap in Hin as (tm & Hid & Htm).
    specialize (Hfresh tm (Hsub tm Htm)). lia.
  - apply Forall_enqueue; simpl; [lia|]. apply Forall_forall. intros tm Htm.
    specialize (Hfresh tm (Hsub tm Htm)). lia.
  - intros tm i Htm Htask. apply elem_of_enqueue in Htm as [->|Htm]; simpl in *.
    + injection Htask as <-. by rewrite lookup_insert_eq.
    + destruct (decide (input = i)) as [<-|Hne].
      * exfalso. pose proof (Hvar tm input (Hsub tm Htm) Htask) as Hv.
        unfold q in Htm. rewrite Hv in Htm.
        apply list_elem_of_filter in Htm as [Hid _]. done.
      * rewrite lookup_insert_ne by done. apply Hvar; [by apply Hsub | done].
Qed.

Lemma debounced_settled input (wait : Z) s :
  0 < wait → settled s → settled (debounced input wait s).
Proof.
  intros Hw Hs. unfold debounced.
  apply (setTimeout_settled (DebounceLater input) wait _ Hw) in Hs as Hs'.
  - unfold settled in *. simpl in *.
    destruct (debounceTimeout s !! input); simpl in *;
      (apply Forall_enqueue; [simpl; lia|]); [by apply Forall_filter_keeps | done].
Qed.

Lemma pop_wfQueue tm q (c : Z) s :
  timers s = tm :: q → wfQueue s → wfQueue (with_clock c (with_timers (λ _, q) s)).
Proof.
  intros Hq (Hord & Hnd & Hfresh & Hvar). rewrite Hq in *. unfold wfQueue; simpl.
  destruct Hord as [_ Hord]. rewrite fmap_cons in Hnd. apply NoDup_cons in Hnd as [_ Hnd].
  apply Forall_cons in Hfresh as [_ Hfresh]. repeat split; try done.
  intros tm' input Htm'. apply Hvar. by right.
Qed.

Lemma runTask_wfQueue b (t : Task) s : wfQueue s → wfQueue (runTask b t s).
Proof.
  intros Hwf. destruct t; cbn [runTask].
  - by eapply wfQueue_timing; [|done].
  - eapply wfQueue_timing; [apply validateForm_timing|]. by apply clearTimeout_wfQueue.
  - unfold submit_resume. apply setTimeout_wfQueue; [done|].
    eapply wfQueue_timing; [apply whenBound_timing | done].
  - eapply wfQueue_timing; [apply submit_reset_timing | done].
Qed.

Lemma fire_wfQueue b tm q s : timers s = tm :: q → wfQueue s → wfQueue (fire b tm q s).
Proof. intros Hq Hwf. unfold fire. apply runTask_wfQueue. by apply (pop_wfQueue tm). Qed.

(** *** Firing *)

Lemma timing_inv s s' :
  timing s' = timing s →
  timers s' = timers s ∧ nextTimerId s' = nextTimerId s
  ∧ debounceTimeout s' = debounceTimeout s ∧ clock s' = clock s.
Proof. unfold timing. by intros [= -> -> -> ->]. Qed.

Lemma clearTimeout_clock (id : option nat) s : clock (clearTimeout id s) = clock s.
Proof. by destruct id. Qed.

Lemma clearTimeout_debounceTimeout (id : option nat) s :
  debounceTimeout (clearTimeout id s) = debounceTimeout s.
Proof. by destruct id. Qed.

Lemma runTask_clock b (t : Task) s : clock (runTask b t s) = clock s.
Proof.
  destruct t; cbn [runTask].
  - done.
  - destruct (timing_inv _ _ (validateForm_timing b (clearTimeout (debounceTimeout s !! input) s)))
      as (_ & _ & _ & ->). apply clearTimeout_clock.
  - unfold submit_resume. simpl.
    by destruct (timing_inv _ _ (whenBound_timing (formBtn b) (with_innerHTML sentMarkup) s))
      as (_ & _ & _ & ->).
  - by destruct (timing_inv _ _ (submit_reset_timing b originalText s)) as (_ & _ & _ & ->).
Qed.

Lemma runTask_debounceTimeout b (t : Task) s :
  debounceTimeout (runTask b t s) = debounceTimeout s.
Proof.
  destruct t; cbn [runTask].
  - done.
  - destruct (timing_inv _ _ (validateForm_timing b (clearTimeout (debounceTimeout s !! input) s)))
      as (_ & _ & -> & _). apply clearTimeout_debounceTimeout.
  - unfold submit_resume. simpl.
    by destruct (timing_inv _ _ (whenBound_timing (formBtn b) (with_innerHTML sentMarkup) s))
      as (_ & _ & -> & _).
  - by destruct (timing_inv _ _ (submit_reset_timing b originalText s)) as (_ & _ & -> & _).
Qed.

(** What a callback does to the queue: nothing, or it clears the timer
    its [timeout] variable names, or it starts the reset two seconds on. *)
Lemma runTask_timers b (t : Task) s :
  timers (runTask b t s) =
  match t with
  | RevealItem _ | SubmitReset _ => timers s
  | DebounceLater input =>
      match debounceTimeout s !! input with
      | Some i => filter (λ tm, timerId tm ≠ i) (timers s)
      | None => timers s
      end
  | SubmitResume originalText =>
      enqueue (mkTimer (nextTimerId s) (clock s + 2000) (SubmitReset originalText)) (timers s)
  end.
Proof.
  destruct t; cbn [runTask].
  - done.
  - destruct (timing_inv _ _ (validateForm_timing b (clearTimeout (debounceTimeout s !! input) s)))
      as (-> & _). by destruct (debounceTimeout s !! input).
  - unfold submit_resume. simpl.
    by destruct (timing_inv _ _ (whenBound_timing (formBtn b) (with_innerHTML sentMarkup) s))
      as (-> & -> & _ & ->).
  - by destruct (timing_inv _ _ (submit_reset_timing b originalText s)) as (-> & _).
Qed.

Lemma runTask_rounds b (t : Task) s :
  (pendingRounds (timers (runTask b t s)) + 1 ≤ rounds t + pendingRounds (timers s))%nat.
Proof.
  rewrite runTask_timers. destruct t; simpl; try lia.
  - destruct (debounceTimeout s !! input); [|lia].
    pose proof (pendingRounds_filter (λ tm, timerId tm ≠ n) (timers s)). lia.
  - rewrite pendingRounds_enqueue. simpl. lia.
Qed.

Lemma runTask_later b (t : Task) (T : Z) s :
  T ≤ clock s → Forall (λ tm, T < due tm) (timers s) →
  Forall (λ tm, T < due tm) (timers (runTask b t s)).
Proof.
  intros Hc Hq. rewrite runTask_timers. destruct t; try done.
  - destruct (debounceTimeout s !! input); [by apply Forall_filter_keeps | done].
  - apply Forall_enqueue; [simpl; lia | done].
Qed.

Lemma fire_clock b tm q s : clock (fire b tm q s) = Z.max (clock s) (due tm).
Proof. unfold fire. by rewrite runTask_clock. Qed.

Lemma with_clock_same (c : Z) s : clock s = c → with_clock c s = s.
Proof. intros <-. by destruct s. Qed.

Lemma wfQueue_with_clock (c : Z) s : wfQueue s → wfQueue (with_clock c s).
Proof. done. Qed.

Lemma inFiringOrder_head tm q : inFiringOrder (tm :: q) → Forall (λ x, due tm ≤ due x) (tm :: q).
Proof. intros [Hq _]. constructor; [lia | done]. Qed.

(** Letting time pass up to [T] leaves a queue in which nothing is due. *)
Lemma runTimers_settles b (T : Z) (fuel : nat) s :
  wfQueue s → clock s ≤ T → (pendingRounds (timers s) < fuel)%nat →
  let r := runTimers fuel b T s in
  wfQueue r ∧ clock r = T ∧ Forall (λ tm, T < due tm) (timers r).
Proof.
  revert s. induction fuel as [|fuel IH]; intros s Hwf Hc Hfuel; [lia|].
  simpl. destruct (timers s) as [|tm q] eqn:Hq.
  - split; [|split]; [by apply wfQueue_with_clock | simpl; lia | simpl; by rewrite Hq].
  - destruct (due tm <=? T) eqn:Hdue.
    + apply Z.leb_le in Hdue. apply IH.
      * by apply fire_wfQueue.
      * rewrite fire_clock. lia.
      * pose proof (runTask_rounds b (task tm)
          (with_clock (Z.max (clock s) (due tm)) (with_timers (λ _, q) s))) as Hr.
        simpl in Hr. unfold fire. unfold pendingRounds in Hfuel. simpl in Hfuel.
        unfold pendingRounds in *. lia.
    + apply Z.leb_gt in Hdue.
      split; [|split]; [by apply wfQueue_with_clock | simpl; lia |]. simpl. rewrite Hq.
      destruct Hwf as (Hord & _). rewrite Hq in Hord. apply inFiringOrder_head in Hord.
      eapply Forall_impl; [done|]. intros x Hx. simpl in Hx. lia.
Qed.

(** Time passing keeps the timers well-formed and leaves nothing overdue. *)
Lemma elapse_wellTimed b (ms : Z) s : 0 ≤ ms → wfQueue s → wellTimed (elapse b ms s).
Proof.
  intros Hms Hwf. unfold elapse.
  destruct (runTimers_settles b (clock s + ms) (S (pendingRounds (timers s))) s)
    as (Hwf' & Hc & Hq); [done | lia | lia |].
  split; [done|]. unfold settled. by rewrite Hc.
Qed.

Lemma elapse_clock b (ms : Z) s : 0 ≤ ms → wfQueue s → clock (elapse b ms s) = clock s + ms.
Proof.
  intros Hms Hwf. unfold elapse.
  by destruct (runTimers_settles b (clock s + ms) (S (pendingRounds (timers s))) s)
    as (_ & Hc & _); [done | lia | lia |].
Qed.

(** *** The timer that fires last *)

(** A callback that runs while [tm0] waits leaves it waiting, with no
    more timers ahead of it than before and only later ones behind. *)
Lemma runTask_queue_behind b (t : Task) tm0 (T : Z) pre post s :
  timers s = pre ++ tm0 :: post →
  due tm0 = T →
  Forall (λ tm, due tm ≤ T) pre →
  Forall (λ tm, T < due tm) post →
  T < clock s + 2000 →
  (∀ input, t = DebounceLater input → debounceTimeout s !! input ≠ Some (timerId tm0)) →
  ∃ pre' post', timers (runTask b t s) = pre' ++ tm0 :: post'
                ∧ (∀ tm, tm ∈ pre' → tm ∈ pre) ∧ (length pre' ≤ length pre)%nat
                ∧ Forall (λ tm, T < due tm) post'.
Proof.
  intros Hq Hdue Hpre Hpost Hc Hvar. rewrite runTask_timers, Hq. destruct t.
  - by exists pre, post.
  - destruct (debounceTimeout s !! input) as [i|] eqn:Hi; [|by exists pre, post].
    exists (filter (λ tm, timerId tm ≠ i) pre), (filter (λ tm, timerId tm ≠ i) post).
    rewrite filter_app, filter_cons_True.
    + split; [done|]. split; [|split].
      * intros tm Htm. apply list_elem_of_filter in Htm. tauto.
      * apply length_filter.
      * by apply Forall_filter_keeps.
    + intros <-. by apply (Hvar input).
  - exists pre, (enqueue (mkTimer (nextTimerId s) (clock s + 2000) (SubmitReset originalText)) post).
    rewrite enqueue_behind.
    + split; [done|]. split; [done|]. split; [lia|].
      apply Forall_enqueue; [simpl; lia | done].
    + eapply Forall_impl; [done|]. intros tm Htm. simpl in *. lia.
    + simpl. lia.
  - by exists pre, post.
Qed.

(** Let [tm0] wait in the queue with nothing behind it due by its own
    time [T].  Then letting time pass up to [T] ends with [tm0] firing:
    whatever is ahead of it fires first, nothing fires after it.  [I] is
    any property that survives the firing of a timer ahead of [tm0]. *)
Lemma runTimers_fires_last b tm0 (T : Z) (I : State → Prop) :
  due tm0 = T →
  (∀ acc tm q, timers acc = tm :: q → tm0 ∈ q → I acc → I (fire b tm q acc)) →
  ∀ (n fuel : nat) s pre post,
    (length pre ≤ n)%nat → (n + 2 ≤ fuel)%nat →
    timers s = pre ++ tm0 :: post →
    Forall (λ tm, due tm ≤ T ∧ T < due tm + 2000) pre →
    Forall (λ tm, T < due tm) post →
    clock s ≤ T →
    (∀ tm input, tm ∈ pre → task tm = DebounceLater input →
                 debounceTimeout s !! input ≠ Some (timerId tm0)) →
    I s →
    ∃ acc q, timers acc = tm0 :: q ∧ I acc ∧ clock acc ≤ T
             ∧ Forall (λ tm, T < due tm) q
             ∧ runTimers fuel b T s = fire b tm0 q acc.
Proof.
  intros Hdue Hkeep. induction n as [|n IH]; intros fuel s pre post Hlen Hfuel Hq Hpre Hpost Hc Hvar HI.
  - destruct pre; [|simpl in Hlen; lia]. simpl in Hq.
    exists s, post. repeat split; try done.
    destruct fuel as [|[|fuel]]; [lia..|]. cbn [runTimers]. rewrite Hq.
    assert (Hle : (due tm0 <=? T) = true) by (apply Z.leb_le; lia). rewrite Hle.
    assert (Hlater : Forall (λ tm, T < due tm) (timers (fire b tm0 post s))).
    { apply runTask_later; simpl; [lia | done]. }
    assert (Hclock : clock (fire b tm0 post s) = T) by (rewrite fire_clock; lia).
    destruct (timers (fire b tm0 post s)) as [|x q'] eqn:Hq'.
    + apply with_clock_same. lia.
    + apply Forall_cons in Hlater as [Hx _].
      assert (Hgt : (due x <=? T) = false) by (apply Z.leb_gt; lia). rewrite Hgt.
      apply with_clock_same. lia.
  - destruct pre as [|h pre].
    { apply (IH fuel s [] post); simpl; try done; lia. }
    destruct fuel as [|fuel]; [lia|]. simpl in Hq, Hlen. cbn [runTimers]. rewrite Hq.
    apply Forall_cons in Hpre as [[Hh1 Hh2] Hpre].
    assert (Hle : (due h <=? T) = true) by (apply Z.leb_le; lia). rewrite Hle.
    destruct (runTask_queue_behind b (task h) tm0 T pre post
                (with_clock (Z.max (clock s) (due h)) (with_timers (λ _, pre ++ tm0 :: post) s)))
      as (pre' & post' & Hq' & Hsub & Hlen' & Hpost'); simpl; try done.
    + eapply Forall_impl; [done|]. intros tm Htm. simpl in Htm. tauto.
    + lia.
    + intros input Htask. apply (Hvar h); [by left | done].
    + apply (IH fuel (fire b h (pre ++ tm0 :: post) s) pre' post'); try done.
      * lia.
      * lia.
      * apply Forall_forall. intros tm Htm. rewrite Forall_forall in Hpre. by apply Hpre, Hsub.
      * rewrite fire_clock. lia.
      * intros tm input Htm Htask. unfold fire. rewrite runTask_debounceTimeout. simpl.
        apply (Hvar tm); [right; by apply Hsub | done].
      * apply Hkeep; [done| |done]. apply elem_of_app. right. by left.
Qed.

End TimingFacts.

(** ** Contact form *)

Section FormFacts.

Context `{host : Host}.

Implicit Types (b : Bindings) (s : State) (n f btn : node) (d : list Element).

Lemma sameForm_sameMarkup d d' : sameForm d d' → sameMarkup d d'.
Proof. intros Hd. eapply Forall2_impl; [done|]. by intros e e' [? _]. Qed.

Lemma formControls_same d d' f : sameMarkup d d' → formControls d' f = formControls d f.
Proof.
  intros Hd. unfold formControls. rewrite (sameMarkup_length d d' Hd).
  apply list_filter_iff. intros n. rewrite (contains_same d d') by done.
  destruct (lookup_same d d' n Hd) as [e e' (Ht & _)|]; simpl; [|done].
  unfold isControl. by rewrite Ht.
Qed.

Lemma satisfiesConstraints_same (e e' : Element) :
  sameHooks e e' → value e' = value e → satisfiesConstraints e' = satisfiesConstraints e.
Proof.
  intros (_ & _ & Ha) Hv. unfold satisfiesConstraints, isRequired.
  rewrite Hv, !Ha; [done|..]; unfold scriptWrites; set_solver.
Qed.

Lemma checkValidity_same d d' f : sameForm d d' → checkValidity d' f = checkValidity d f.
Proof.
  intros Hd. unfold checkValidity.
  rewrite (formControls_same d d') by by apply sameForm_sameMarkup.
  induction (formControls d f) as [|n l IH]; simpl; [done|]. rewrite IH. f_equal.
  pose proof (proj1 (Forall2_lookup _ _ _) Hd n) as Hn.
  destruct Hn as [e e' [He Hv]|]; simpl; [|done]. by apply satisfiesConstraints_same.
Qed.

Lemma sameForm_refl d : sameForm d d.
Proof. apply Forall_Forall2_diag, Forall_forall. intros e _. split; [apply sameHooks_refl | done]. Qed.

Lemma sameForm_alter d n (g : Element → Element) :
  (∀ e, sameHooks e (g e) ∧ value (g e) = value e) → sameForm d (alter g n d).
Proof.
  intros Hg. apply Forall2_alter_r; [apply sameForm_refl|].
  intros e e' _ _ [He Hv]. destruct (Hg e') as [He' Hv'].
  split; [by eapply sameHooks_trans | congruence].
Qed.

Lemma isDisabled_update s n (g : Element → Element) btn :
  isDisabled (update n g s) btn =
  if decide (n = btn)
  then from_option (λ e, bool_decide (is_Some (attributes (g e) !! "disabled"))) false
         (nodes s !! btn)
  else isDisabled s btn.
Proof.
  unfold isDisabled, getAttribute. rewrite lookup_update.
  destruct (decide (n = btn)); [|done]. by destruct (nodes s !! btn).
Qed.

Lemma isDisabled_update_keeps s n (g : Element → Element) btn :
  (∀ e, attributes (g e) !! "disabled" = attributes e !! "disabled") →
  isDisabled (update n g s) btn = isDisabled s btn.
Proof.
  intros Hg. unfold isDisabled. by rewrite getAttribute_update_keeps.
Qed.

(** [validateForm] leaves the button disabled exactly when the form is
    invalid, and changes nothing validation looks at. *)
Lemma validateForm_spec b s f btn :
  form b = Some f → formBtn b = Some btn → is_Some (nodes s !! btn) →
  isDisabled (validateForm b s) btn = negb (checkValidity (nodes s) f)
  ∧ checkValidity (nodes (validateForm b s)) f = checkValidity (nodes s) f.
Proof.
  intros Hf Hbtn [e He]. unfold validateForm, formIsValid. rewrite Hf, Hbtn. split.
  - destruct (checkValidity (nodes s) f); simpl; rewrite isDisabled_update, decide_True, He by done;
      simpl.
    + apply bool_decide_eq_false. rewrite lookup_delete_eq. by intros [? ?].
    + apply bool_decide_eq_true. by rewrite lookup_insert_eq.
  - apply checkValidity_same.
    destruct (checkValidity (nodes s) f); simpl; apply sameForm_alter; intros e0; split;
      auto with hooks.
Qed.

(** The guard of the [submit] listener: an invalid form is not sent. *)
Lemma form_submit_blocked b s f :
  form b = Some f → checkValidity (nodes s) f = false → form_submit b s = s.
Proof. intros Hf Hv. unfold form_submit. by rewrite Hf, Hv. Qed.

Lemma checkValidity_spec d f :
  checkValidity d f = true ↔
  ∀ c e, c ∈ formControls d f → d !! c = Some e → satisfiesConstraints e = true.
Proof.
  unfold checkValidity. induction (formControls d f) as [|n l IH]; simpl.
  - split; [|done]. intros _ c e Hc. by apply elem_of_nil in Hc.
  - rewrite andb_true_iff, IH. split.
    + intros [Hn Hl] c e Hc He. apply elem_of_cons in Hc as [->|Hc]; [|by eapply Hl].
      by rewrite He in Hn.
    + intros Hall. split.
      * destruct (d !! n) as [e|] eqn:He; simpl; [|done]. apply (Hall n); [by left | done].
      * intros c e Hc. apply Hall. by right.
Qed.

Lemma required_empty_fails (e : Element) :
  isRequired e = true → value e = "" → satisfiesConstraints e = false.
Proof. intros Hr Hv. unfold satisfiesConstraints. by rewrite Hr, Hv. Qed.

(** A timer that has just been started, in a queue that was in order
    with nothing overdue, is the last to fire once its delay has passed. *)
Lemma elapse_fires_last b tm0 (q : list Timer) (delay : Z) (I : State → Prop) s1 :
  wfQueue s1 →
  timers s1 = enqueue tm0 q →
  inFiringOrder q →
  Forall (λ tm, clock s1 < due tm) q →
  due tm0 = clock s1 + delay → 0 < delay ≤ 2000 →
  (∀ acc tm q', timers acc = tm :: q' → tm0 ∈ q' → I acc → I (fire b tm q' acc)) →
  I s1 →
  ∃ acc q', timers acc = tm0 :: q' ∧ I acc ∧ clock acc ≤ clock s1 + delay
            ∧ Forall (λ tm, clock s1 + delay < due tm) q'
            ∧ elapse b delay s1 = fire b tm0 q' acc.
Proof.
  intros Hwf Hq Hord Hsettled Hdue Hdelay Hkeep HI.
  destruct (enqueue_split tm0 q Hord) as (pre & post & Hqq & Hsplit & Hpre & Hpost).
  rewrite Hsplit in Hq. subst q. apply Forall_app in Hsettled as [Hspre Hspost].
  unfold elapse.
  apply (runTimers_fires_last b tm0 (clock s1 + delay) I Hdue Hkeep (length pre) _ s1 pre post);
    try done.
  - rewrite Hq. pose proof (length_le_pendingRounds (pre ++ tm0 :: post)) as Hlen.
    rewrite length_app in Hlen. simpl in Hlen. lia.
  - apply Forall_forall. intros tm Htm. rewrite Forall_forall in Hpre, Hspre.
    specialize (Hpre tm Htm). specialize (Hspre tm Htm). simpl in *. lia.
  - eapply Forall_impl; [done|]. intros tm Htm. simpl in Htm. lia.
  - lia.
  - intros tm input Htm Htask. destruct Hwf as (_ & Hnd & _ & Hvar).
    rewrite Hq in Hnd, Hvar. rewrite (Hvar tm input); [|apply elem_of_app; by left | done].
    intros [= Hid]. rewrite fmap_app, fmap_cons in Hnd.
    apply NoDup_app in Hnd as (_ & Hdisj & _).
    apply (Hdisj (timerId tm)); [by apply list_elem_of_fmap_2 | rewrite Hid; by left].
Qed.

(** Whenever a debounced callback runs, it leaves the button disabled
    exactly when the form is invalid. *)
Lemma debounceLater_validates b s input f btn :
  form b = Some f → formBtn b = Some btn → is_Some (nodes s !! btn) →
  let s' := runTask b (DebounceLater input) s in
  isDisabled s' btn = negb (checkValidity (nodes s') f).
Proof.
  intros Hf Hbtn Hstore. cbn [runTask].
  destruct (validateForm_spec b (clearTimeout (debounceTimeout s !! input) s) f btn)
    as [Hd Hv]; [done..|by rewrite clearTimeout_nodes|].
  simpl. by rewrite Hd, Hv.
Qed.

(** C7.  A form input changes and 300 ms pass without an event.  The
    debounced callback of that input is then the last thing to have run,
    and it leaves the submit button disabled exactly when the form fails
    constraint validation: disabled if a required control is empty, enabled
    only if every control satisfies its constraints.  Submitting an invalid
    form does nothing. *)
Theorem validation_after_quiet_period b s input (newValue : string) f btn :
  b = bind (nodes s) → wellTimed s →
  input ∈ formInputs b → form b = Some f → formBtn b = Some btn →
  let s1 := stateOf (dispatch b (FormInputInput input newValue) s) in
  let s2 := elapse b 300 s1 in
  isDisabled s2 btn = negb (checkValidity (nodes s2) f)
  ∧ (∀ c e, c ∈ formControls (nodes s2) f → nodes s2 !! c = Some e →
            isRequired e = true → value e = "" → isDisabled s2 btn = true)
  ∧ (isDisabled s2 btn = false →
     ∀ c e, c ∈ formControls (nodes s2) f → nodes s2 !! c = Some e →
            satisfiesConstraints e = true)
  ∧ (∀ s', checkValidity (nodes s') f = false → stateOf (dispatch b FormSubmit s') = s').
Proof.
  intros Hb [Hwf Hsettled] Hinput Hf Hbtn s1 s2.
  assert (Hstore : is_Some (nodes s !! btn)).
  { subst b. simpl in Hbtn. apply querySelector_lookup in Hbtn as (e & He & _). eauto. }
  set (s0 := update input (with_value newValue) s).
  assert (Hs1 : s1 = debounced input 300 s0).
  { unfold s1. cbn [dispatch stateOf]. by rewrite bool_decide_eq_true_2. }
  assert (Hwf0 : wfQueue s0) by done.
  set (q := timers (clearTimeout (debounceTimeout s0 !! input) s0)).
  set (tm0 := mkTimer (nextTimerId s) (clock s + 300) (DebounceLater input)).
  assert (Hq1 : timers s1 = enqueue tm0 q).
  { rewrite Hs1. unfold debounced, q, tm0. simpl.
    by destruct (debounceTimeout s !! input). }
  assert (Hc1 : clock s1 = clock s).
  { rewrite Hs1. unfold debounced. simpl. by rewrite clearTimeout_clock. }
  assert (Hwfq : wfQueue (clearTimeout (debounceTimeout s0 !! input) s0))
    by by apply clearTimeout_wfQueue.
  assert (Hsq : settled (clearTimeout (debounceTimeout s0 !! input) s0))
    by by apply clearTimeout_settled.
  destruct (elapse_fires_last b tm0 q 300 (λ acc, is_Some (nodes acc !! btn)) s1)
    as (acc & q' & Hacc & Hbtn' & _ & _ & Hs2); try done.
  - rewrite Hs1. by apply debounced_wfQueue.
  - by destruct Hwfq.
  - rewrite Hc1. unfold settled in Hsq. by rewrite clearTimeout_clock in Hsq.
  - simpl. lia.
  - intros acc tm q' _ _ Hsome. apply lookup_lt_is_Some.
    rewrite (sameMarkup_length (nodes acc) (nodes (fire b tm q' acc))).
    + by apply lookup_lt_is_Some.
    + apply fire_keeps, sameMarkup_refl.
  - rewrite Hs1, debounced_nodes. unfold s0. by apply is_Some_lookup_update.
  - assert (Hiff : isDisabled s2 btn = negb (checkValidity (nodes s2) f)).
    { unfold s2. rewrite Hs2. unfold fire.
      by apply (debounceLater_validates b (with_clock _ (with_timers _ acc)) input f btn). }
    split; [done|]. split; [|split].
    + intros c e Hc He Hreq Hval. rewrite Hiff. apply negb_true_iff.
      destruct (checkValidity (nodes s2) f) eqn:Hv; [|done].
      rewrite checkValidity_spec in Hv. specialize (Hv c e Hc He).
      by rewrite required_empty_fails in Hv.
    + intros Hen. rewrite Hiff in Hen. apply negb_false_iff in Hen.
      by apply checkValidity_spec.
    + intros s' Hinv. cbn [dispatch stateOf]. by apply (form_submit_blocked b s' f).
Qed.

End FormFacts.

(** ** The simulated submission *)

Section SubmitFacts.

Context `{host : Host}.

Implicit Types (b : Bindings) (s : State) (n f btn : node) (d : list Element).

(** A [forEach] that writes each node of a duplicate-free list once. *)
Lemma foldl_update_lookup (g : Element → Element) (l : list node) s m :
  NoDup l →
  nodes (foldl (λ acc n, update n g acc) s l) !! m =
  if decide (m ∈ l) then g <$> nodes s !! m else nodes s !! m.
Proof.
  revert s. induction l as [|x l IH]; intros s Hnd; cbn [foldl].
  - by rewrite decide_False by apply not_elem_of_nil.
  - apply NoDup_cons in Hnd as [Hx Hnd]. rewrite IH, lookup_update by done.
    destruct (decide (m ∈ l)) as [Hin|Hin].
    + rewrite (decide_True (P := m ∈ x :: l)) by (by right).
      rewrite (decide_False (P := x = m)); [done|]. by intros ->.
    + destruct (decide (x = m)) as [->|Hne].
      * rewrite decide_True; [done | by left].
      * rewrite decide_False; [done|]. rewrite elem_of_cons. naive_solver.
Qed.

Lemma NoDup_formControls d f : NoDup (formControls d f).
Proof. apply NoDup_filter, NoDup_seq. Qed.

Lemma formReset_lookup f s c :
  nodes (formReset f s) !! c =
  if decide (c ∈ formControls (nodes s) f)
  then (λ e, with_value (defaultValue e) e) <$> nodes s !! c
  else nodes s !! c.
Proof. apply foldl_update_lookup, NoDup_formControls. Qed.

Lemma formReset_length f s : length (nodes (formReset f s)) = length (nodes s).
Proof.
  symmetry. eapply Forall2_length. apply (formReset_keeps f (nodes s) s), sameMarkup_refl.
Qed.

(** What the reset callback leaves behind. *)
Lemma submit_reset_spec b (originalText : option string) s f btn :
  form b = Some f → formBtn b = Some btn → is_Some (nodes s !! btn) → NoDup (formInputs b) →
  let s' := submit_reset b originalText s in
  innerHTMLOf s' btn = default "undefined" originalText
  ∧ (∀ c e, c ∈ formControls (nodes s') f → nodes s' !! c = Some e → value e = defaultValue e)
  ∧ (∀ input, input ∈ formInputs b → hasClass s' input "has-value" = false).
Proof.
  intros Hf Hbtn Hstore Hnd s'.
  assert (Hctl : formControls (nodes s') f = formControls (nodes s) f).
  { apply formControls_same. apply submit_reset_keeps, sameMarkup_refl. }
  unfold s', submit_reset in *. rewrite Hf, Hbtn in *. cbn [whenBound] in *.
  set (s1 := formReset f s) in *.
  set (s2 := update btn (with_innerHTML (default "undefined" originalText)) s1) in *.
  split; [|split].
  - transitivity (innerHTMLOf s2 btn).
    + apply (foldl_keeps (λ acc, innerHTMLOf acc btn = innerHTMLOf s2 btn)); [|done].
      intros acc x _ Hacc. by rewrite innerHTMLOf_update_keeps.
    + apply innerHTMLOf_with_innerHTML. apply lookup_lt_is_Some.
      unfold s1. rewrite formReset_length. by apply lookup_lt_is_Some.
  - rewrite Hctl. intros c e Hc.
    rewrite foldl_update_lookup by done. unfold s2. rewrite lookup_update.
    unfold s1. rewrite formReset_lookup.
    rewrite (decide_True (P := c ∈ formControls (nodes s) f)) by done.
    destruct (nodes s !! c) as [e0|]; simpl;
      repeat (case_decide; simpl); intros [= <-]; done.
  - intros input Hinput. unfold hasClass. rewrite foldl_update_lookup by done.
    rewrite (decide_True (P := input ∈ formInputs b)) by done.
    destruct (nodes s2 !! input) as [e|]; simpl; [|done].
    by rewrite class_contains_remove, bool_decide_eq_true_2.
Qed.

(** Callbacks other than a validation leave the [disabled] attribute of
    every element as it is. *)
Lemma runTask_isDisabled b (t : Task) s btn :
  (∀ input, t ≠ DebounceLater input) →
  isDisabled (runTask b t s) btn = isDisabled s btn.
Proof.
  intros Ht. destruct t; cbn [runTask].
  - by apply isDisabled_update_keeps.
  - by destruct (Ht input).
  - unfold submit_resume. destruct (formBtn b); simpl; [|done].
    by apply (isDisabled_update_keeps s n (with_innerHTML sentMarkup) btn).
  - unfold submit_reset.
    apply (foldl_keeps (λ acc, isDisabled acc btn = isDisabled s btn)).
    + intros acc x _ Hacc. by rewrite isDisabled_update_keeps.
    + transitivity (isDisabled (match form b with Some f => formReset f s | None => s end) btn).
      * destruct (formBtn b); simpl; [|done]. by rewrite isDisabled_update_keeps.
      * destruct (form b); [|done]. unfold formReset.
        apply (foldl_keeps (λ acc, isDisabled acc btn = isDisabled s btn)); [|done].
        intros acc x _ Hacc. by rewrite isDisabled_update_keeps.
Qed.

Lemma runTask_noValidationPending b (t : Task) s :
  (∀ input, t ≠ DebounceLater input) →
  noValidationPending (timers s) → noValidationPending (timers (runTask b t s)).
Proof.
  intros Ht Hq. rewrite runTask_timers. destruct t; try done.
  - by destruct (Ht input).
  - by apply Forall_enqueue.
Qed.

Lemma cycleInv_fire b (quiet : Prop) btn acc tm q :
  timers acc = tm :: q → cycleInv quiet btn acc → cycleInv quiet btn (fire b tm q acc).
Proof.
  intros Hq (Hwf & Hstore & Hquiet). split; [by apply fire_wfQueue|]. split.
  - apply lookup_lt_is_Some.
    rewrite (sameMarkup_length (nodes acc) (nodes (fire b tm q acc))).
    + by apply lookup_lt_is_Some.
    + apply fire_keeps, sameMarkup_refl.
  - intros Hyes. destruct (Hquiet Hyes) as [Hnv Hdis]. rewrite Hq in Hnv.
    apply Forall_cons in Hnv as [Htm Hnv]. unfold fire. split.
    + by apply runTask_noValidationPending.
    + by rewrite runTask_isDisabled.
Qed.


End SubmitFacts.

(** ** The timers stay well-formed through a session *)

Section SessionFacts.

Context `{host : Host}.

Implicit Types (b : Bindings) (s : State).

Lemma setTimeout_wellTimed (t : Task) (delay : Z) s :
  (∀ input, t ≠ DebounceLater input) → 0 < delay →
  wellTimed s → wellTimed (setTimeout t delay s).2.
Proof.
  intros Ht Hd [Hwf Hs]. split; [by apply setTimeout_wfQueue | by apply setTimeout_settled].
Qed.

Lemma filterFunc_wellTimed b (selectedValue : string) s :
  wellTimed s → wellTimed (filterFunc b selectedValue s).
Proof.
  intros Hs. unfold filterFunc. apply (foldl_keeps wellTimed); [|done].
  intros acc item _ Hacc. unfold filterOne.
  match goal with |- context [if ?c then _ else _] => destruct c end.
  - by apply setTimeout_wellTimed.
  - by eapply wellTimed_timing; [|done].
Qed.

Lemma form_submit_wellTimed b s : wellTimed s → wellTimed (form_submit b s).
Proof.
  intros Hs. unfold form_submit. destruct (form b); [|done].
  match goal with |- context [if ?c then _ else _] => destruct c end; [done|].
  apply setTimeout_wellTimed; [done | lia |].
  eapply wellTimed_timing; [|done].
  transitivity (timing (whenBound (formBtn b) (attr_set "disabled" "") s));
    apply whenBound_timing.
Qed.

(** Every event of a session keeps the timers well-formed and leaves
    nothing overdue, time only moving forward. *)
Lemma dispatch_wellTimed b (ev : Event) s :
  (∀ ms, ev = Elapse ms → 0 ≤ ms) →
  wellTimed s → wellTimed (stateOf (dispatch b ev s)).
Proof.
  intros Hms Hs. destruct ev; cbn [dispatch stateOf].
  - eapply wellTimed_timing; [apply sidebarBtn_click_timing | done].
  - eapply wellTimed_timing; [apply select_outside_click_timing|].
    eapply wellTimed_timing; [apply sidebar_outside_click_timing | done].
  - eapply wellTimed_timing; [apply themeToggle_click_timing | done].
  - case_bool_decide; [|done].
    eapply wellTimed_timing; [apply testimonialsItem_click_timing | done].
  - destruct (modalCloseBtn b); [|done].
    eapply wellTimed_timing; [apply testimonialsModalFunc_timing | done].
  - destruct (overlay b); [|done].
    eapply wellTimed_timing; [apply testimonialsModalFunc_timing | done].
  - eapply wellTimed_timing; [apply escape_keydown_timing | done].
  - eapply wellTimed_timing; [apply select_click_timing | done].
  - case_bool_decide; [|done]. unfold selectItem_click.
    destruct (select b); cbn [stateOf].
    + apply filterFunc_wellTimed.
      eapply wellTimed_timing; [apply elementToggleFunc_timing|].
      by destruct (selectValue b).
    + by destruct (selectValue b).
  - case_bool_decide; [|done]. unfold filterBtn_click.
    match goal with
    | |- wellTimed (with_lastClickedBtn _ (update _ _ (whenBound ?o _ ?x))) =>
        apply (wellTimed_timing x); [by destruct o|]
    end.
    apply filterFunc_wellTimed. by destruct (selectValue b).
  - case_bool_decide; [|done]. unfold formInput_input.
    destruct Hs as [Hwf Hset]. split; [by apply debounced_wfQueue | by apply debounced_settled].
  - case_bool_decide; [|done]. unfold formInput_blur.
    by match goal with |- context [if ?c then _ else _] => destruct c end.
  - by apply form_submit_wellTimed.
  - case_bool_decide; [|done].
    eapply wellTimed_timing; [apply navigationLink_click_timing | done].
  - eapply wellTimed_timing; [apply popstate_timing | done].
  - eapply wellTimed_timing; [apply mobileMenuBtn_click_timing | done].
  - case_bool_decide; [|done].
    eapply wellTimed_timing; [apply mobileLink_click_timing | done].
  - apply elapse_wellTimed; [by apply Hms | by destruct Hs].
Qed.

Lemma run_wellTimed b (evs : list Event) s :
  Forall (λ ev, ∀ ms, ev = Elapse ms → 0 ≤ ms) evs →
  wellTimed s → wellTimed (run b evs s).
Proof.
  intros Hevs. revert s. induction Hevs as [|ev evs Hev _ IH]; intros s Hs; [done|].
  simpl. apply IH. by apply dispatch_wellTimed.
Qed.

(** A page starts with no timer, and the script's own run starts none. *)
Lemma runScript_wellTimed b s : timers s = [] → wellTimed (runScript b s).
Proof.
  intros Hq. apply (wellTimed_timing s); [apply runScript_timing|].
  unfold wellTimed, wfQueue, settled. rewrite Hq. repeat split; try done.
  - constructor.
  - intros tm input Htm. by apply elem_of_nil in Htm.
Qed.

End SessionFacts.

(** ** The project filter *)

Section FilterFacts.

Context `{host : Host}.

Implicit Types (s acc : State) (b : Bindings) (item n : node) (v : string).

Lemma hasClass_update_same s n m (f : Element → Element) (c : string) :
  (∀ e, class_contains c (f e) = class_contains c e) →
  hasClass (update n f s) m c = hasClass s m c.
Proof.
  intros Hf. rewrite hasClass_update. destruct (decide (n = m)); [|done].
  unfold hasClass. by destruct (nodes s !! m); simpl.
Qed.

Lemma hasClass_whenBound_same s (o : option node) m (f : Element → Element) (c : string) :
  (∀ e, class_contains c (f e) = class_contains c e) →
  hasClass (whenBound o f s) m c = hasClass s m c.
Proof. intros Hf. destruct o; simpl; [by apply hasClass_update_same | done]. Qed.

(** *** One selection *)

Lemma filterOne_hide v acc item :
  selects v (getAttribute acc item "data-category") = false →
  filterOne v acc item = update item (class_remove "active") acc.
Proof. unfold filterOne, selects. by intros ->. Qed.

Lemma filterOne_reveal v acc item :
  selects v (getAttribute acc item "data-category") = true →
  filterOne v acc item = (setTimeout (RevealItem item) 50 acc).2.
Proof. unfold filterOne, selects. by intros ->. Qed.

Lemma filterOne_frame v acc item :
  clock (filterOne v acc item) = clock acc
  ∧ (∀ n a, getAttribute (filterOne v acc item) n a = getAttribute acc n a)
  ∧ (∀ n, is_Some (nodes acc !! n) → is_Some (nodes (filterOne v acc item) !! n))
  ∧ (∀ n, hasClass acc n "active" = false → hasClass (filterOne v acc item) n "active" = false)
  ∧ (∀ tm, tm ∈ timers acc → tm ∈ timers (filterOne v acc item))
  ∧ (∀ tm, tm ∈ timers (filterOne v acc item) →
           tm ∈ timers acc
           ∨ selects v (getAttribute acc item "data-category") = true
             ∧ task tm = RevealItem item ∧ due tm = clock acc + 50).
Proof.
  destruct (selects v (getAttribute acc item "data-category")) eqn:Hsel.
  - rewrite (filterOne_reveal _ _ _ Hsel). simpl.
    repeat split; try done.
    + intros tm Htm. apply elem_of_enqueue. by right.
    + intros tm Htm. apply elem_of_enqueue in Htm as [->|Htm]; [by right | by left].
  - rewrite (filterOne_hide _ _ _ Hsel). repeat split; try done.
    + intros n a. by apply getAttribute_update_keeps.
    + intros n Hn. apply lookup_lt_is_Some. rewrite length_update. by apply lookup_lt_is_Some.
    + intros n Hn. rewrite hasClass_update. destruct (decide (item = n)) as [->|]; [|done].
      destruct (nodes acc !! n); simpl; [|done].
      by rewrite class_contains_remove, bool_decide_eq_true_2.
    + intros tm Htm. by left.
Qed.


(** The whole loop, over any list of items. *)
Lemma filterLoop_spec v (l : list node) s :
  let r := foldl (filterOne v) s l in
  clock r = clock s
  ∧ (∀ n a, getAttribute r n a = getAttribute s n a)
  ∧ (∀ n, is_Some (nodes s !! n) → is_Some (nodes r !! n))
  ∧ (∀ n, hasClass s n "active" = false → hasClass r n "active" = false)
  ∧ (∀ tm, tm ∈ timers s → tm ∈ timers r)
  ∧ (∀ tm, tm ∈ timers r →
           tm ∈ timers s
           ∨ ∃ item, item ∈ l ∧ selects v (getAttribute s item "data-category") = true
                     ∧ task tm = RevealItem item ∧ due tm = clock s + 50)
  ∧ (∀ item, item ∈ l → selects v (getAttribute s item "data-category") = true →
             ∃ tm, tm ∈ timers r ∧ task tm = RevealItem item ∧ due tm = clock s + 50)
  ∧ (∀ item, item ∈ l → selects v (getAttribute s item "data-category") = false →
             hasClass r item "active" = false).
Proof.
  revert s. induction l as [|x l IH]; intros s; cbn [foldl].
  - repeat split; try done; try tauto.
    + intros item Hin. by apply elem_of_nil in Hin.
    + intros item Hin. by apply elem_of_nil in Hin.
  - destruct (filterOne_frame v s x) as (Hc & Ha & Hst & Hact & Hmono & Horig).
    destruct (IH (filterOne v s x)) as (Hc' & Ha' & Hst' & Hact' & Hmono' & Horig' & Hrev' & Hhid').
    cbv zeta. split; [congruence|]. split; [by intros n a; rewrite Ha', Ha|].
    split; [by auto|]. split; [by auto|]. split; [by auto|]. split; [|split].
    + intros tm Htm. destruct (Horig' tm Htm) as [Hold|(item & Hin & Hsel & Htask & Hdue)].
      * destruct (Horig tm Hold) as [?|(Hsel & Htask & Hdue)]; [by left|].
        right. exists x. split; [by left | done].
      * right. exists item. rewrite Ha, Hc in *. split; [by right | done].
    + intros item Hin Hsel. apply elem_of_cons in Hin as [->|Hin].
      * exists (mkTimer (nextTimerId s) (clock s + 50) (RevealItem x)).
        split; [|done]. apply Hmono'. rewrite (filterOne_reveal _ _ _ Hsel). simpl.
        apply elem_of_enqueue. by left.
      * destruct (Hrev' item Hin) as (tm & Htm & Htask & Hdue); [by rewrite Ha|].
        exists tm. rewrite Hc in Hdue. done.
    + intros item Hin Hsel. apply elem_of_cons in Hin as [->|Hin].
      * apply Hact'. rewrite (filterOne_hide _ _ _ Hsel), hasClass_update.
        rewrite decide_True by done. destruct (nodes s !! x); simpl; [|done].
        by rewrite class_contains_remove, bool_decide_eq_true_2.
      * apply Hhid'; [done | by rewrite Ha].
Qed.

(** *** What the timer callbacks do to the [active] class *)

Lemma runTask_active_other b (t : Task) s n :
  t ≠ RevealItem n → hasClass (runTask b t s) n "active" = hasClass s n "active".
Proof.
  intros Ht. destruct t; cbn [runTask].
  - rewrite hasClass_update. destruct (decide (item = n)) as [->|]; [done | done].
  - unfold validateForm.
    transitivity (hasClass (clearTimeout (debounceTimeout s !! input) s) n "active").
    + by destruct (formIsValid b _); apply hasClass_whenBound_same.
    + by destruct (debounceTimeout s !! input).
  - unfold submit_resume. simpl. by apply (hasClass_whenBound_same s (formBtn b)).
  - unfold submit_reset.
    apply (foldl_keeps (λ acc, hasClass acc n "active" = hasClass s n "active")).
    + intros acc x _ <-. apply hasClass_update_same. intros e.
      by rewrite class_contains_remove, bool_decide_eq_false_2.
    + rewrite hasClass_whenBound_same by done.
      destruct (form b); [|done]. unfold formReset.
      apply (foldl_keeps (λ acc, hasClass acc n "active" = hasClass s n "active")); [|done].
      intros acc x _ <-. by apply hasClass_update_same.
Qed.

Lemma runTask_active_kept b (t : Task) s n :
  hasClass s n "active" = true → hasClass (runTask b t s) n "active" = true.
Proof.
  intros Hn.
  assert (Hcases : t = RevealItem n ∨ t ≠ RevealItem n).
  { destruct t as [item| | |]; try by right.
    destruct (decide (item = n)) as [->|]; [by left | right; congruence]. }
  destruct Hcases as [->|Hne].
  - cbn [runTask]. rewrite hasClass_update, decide_True by done.
    unfold hasClass in Hn. destruct (nodes s !! n); simpl in *; [|done].
    by rewrite class_contains_add.
  - by rewrite runTask_active_other.
Qed.

Lemma runTask_reveals b s n :
  is_Some (nodes s !! n) → hasClass (runTask b (RevealItem n) s) n "active" = true.
Proof.
  intros [e He]. cbn [runTask]. rewrite hasClass_update, decide_True by done.
  rewrite He. simpl. by rewrite class_contains_add.
Qed.

Lemma fire_in_store b tm q acc n :
  is_Some (nodes acc !! n) → is_Some (nodes (fire b tm q acc) !! n).
Proof.
  intros Hn. apply lookup_lt_is_Some.
  rewrite (sameMarkup_length (nodes acc) (nodes (fire b tm q acc))).
  - by apply lookup_lt_is_Some.
  - apply fire_keeps, sameMarkup_refl.
Qed.


(** *** Reveals and the passing of time *)

Lemma runTimers_invariant b (T : Z) (I : State → Prop) :
  (∀ acc tm q, timers acc = tm :: q → wfQueue acc → I acc → I (fire b tm q acc)) →
  (∀ acc (c : Z), I acc → I (with_clock c acc)) →
  ∀ (fuel : nat) s, wfQueue s → I s → I (runTimers fuel b T s).
Proof.
  intros Hfire Hclock. induction fuel as [|fuel IH]; intros s Hwf HI; [done|].
  cbn [runTimers]. destruct (timers s) as [|tm q] eqn:Hq; [by apply Hclock|].
  destruct (due tm <=? T); [|by apply Hclock].
  apply IH; [by apply fire_wfQueue | by apply Hfire].
Qed.

Lemma fire_shownBy b (T : Z) item acc tm q :
  timers acc = tm :: q → wfQueue acc → shownBy T item acc → shownBy T item (fire b tm q acc).
Proof.
  intros Hq Hwf [Hst Hsh]. split; [by apply fire_in_store|].
  destruct Hsh as [Hact | (tm' & Hin & Htask & Hdue)].
  - left. unfold fire. by apply runTask_active_kept.
  - rewrite Hq in Hin. apply elem_of_cons in Hin as [->|Hin].
    + left. unfold fire. rewrite Htask. by apply runTask_reveals.
    + right. exists tm'. split; [|done]. unfold fire. rewrite runTask_timers.
      destruct (task tm) eqn:Ht; try done.
      * cbn [debounceTimeout with_clock with_timers timers].
        destruct (debounceTimeout acc !! input) as [i|] eqn:Hi; [|done].
        apply list_elem_of_filter. split; [|done].
        destruct Hwf as (_ & Hnd & _ & Hvar).
        assert (Hv : debounceTimeout acc !! input = Some (timerId tm)).
        { apply Hvar; [rewrite Hq; by left | done]. }
        rewrite Hi in Hv. injection Hv as ->.
        rewrite Hq, fmap_cons in Hnd. apply NoDup_cons in Hnd as [Hnotin _].
        intros Heq. apply Hnotin. rewrite <- Heq. apply list_elem_of_fmap. by exists tm'.
      * apply elem_of_enqueue. by right.
Qed.

Lemma fire_hiddenFor b item acc tm q :
  timers acc = tm :: q → hiddenFor item acc → hiddenFor item (fire b tm q acc).
Proof.
  intros Hq [Hact Hnone]. rewrite Hq in Hnone.
  assert (Htm : task tm ≠ RevealItem item) by (apply Hnone; by left).
  split.
  - unfold fire. by rewrite runTask_active_other.
  - intros tm' Hin. unfold fire in Hin. rewrite runTask_timers in Hin.
    destruct (task tm) eqn:Ht.
    + apply Hnone. by right.
    + cbn [debounceTimeout with_clock with_timers timers] in Hin.
      destruct (debounceTimeout acc !! input);
        [apply list_elem_of_filter in Hin as [_ Hin]|]; apply Hnone; by right.
    + apply elem_of_enqueue in Hin as [->|Hin]; [done | apply Hnone; by right].
    + apply Hnone; by right.
Qed.

(** A selected item is shown 50 ms after the selection, whatever was
    waiting in the queue. *)
Lemma filterFunc_reveals b v s item :
  wellTimed s → item ∈ filterItems b → is_Some (nodes s !! item) →
  selects v (getAttribute s item "data-category") = true →
  hasClass (elapse b 50 (filterFunc b v s)) item "active" = true.
Proof.
  intros Hs Hin Hst Hsel.
  destruct (filterFunc_wellTimed b v s Hs) as [Hwf _].
  destruct (filterLoop_spec v (filterItems b) s) as (Hc & _ & Hst' & _ & _ & _ & Hrev & _).
  fold (filterFunc b v s) in Hc, Hst', Hrev.
  set (T := clock (filterFunc b v s) + 50).
  assert (Hinv : shownBy T item (elapse b 50 (filterFunc b v s))).
  { unfold elapse. apply (runTimers_invariant b T (shownBy T item)); [| done | done |].
    - intros acc tm q Hq Hwf'. by apply fire_shownBy.
    - split; [by apply Hst'|]. right.
      destruct (Hrev item Hin Hsel) as (tm & Htm & Htask & Hdue).
      exists tm. split; [done|]. split; [done|]. unfold T. lia. }
  destruct Hinv as [_ [Hact | (tm & Htm & Htask & Hdue)]]; [done|]. exfalso.
  destruct (runTimers_settles b T (S (pendingRounds (timers (filterFunc b v s)))) (filterFunc b v s))
    as (_ & _ & Hlater); [done | unfold T; lia | lia |].
  rewrite Forall_forall in Hlater. specialize (Hlater tm Htm). lia.
Qed.

(** An item that is not selected is hidden 50 ms after the selection,
    provided no earlier reveal of it was still waiting. *)
Lemma filterFunc_hides b v s item :
  wellTimed s → item ∈ filterItems b →
  (∀ tm, tm ∈ timers s → task tm ≠ RevealItem item) →
  selects v (getAttribute s item "data-category") = false →
  hasClass (elapse b 50 (filterFunc b v s)) item "active" = false.
Proof.
  intros Hs Hin Hnone Hsel.
  destruct (filterFunc_wellTimed b v s Hs) as [Hwf _].
  destruct (filterLoop_spec v (filterItems b) s) as (_ & _ & _ & _ & _ & Horig & _ & Hhid).
  fold (filterFunc b v s) in Horig, Hhid.
  assert (Hinv : hiddenFor item (elapse b 50 (filterFunc b v s))); [|by destruct Hinv].
  unfold elapse. apply (runTimers_invariant b _ (hiddenFor item)); [| done | done |].
  - intros acc tm q Hq _. by apply fire_hiddenFor.
  - split; [by apply Hhid|]. intros tm Htm.
    destruct (Horig tm Htm) as [Hold|(item' & _ & Hsel' & Htask & _)]; [by apply Hnone|].
    rewrite Htask. intros [= ->]. congruence.
Qed.

(** Selecting "all", or any category, and waiting 50 ms shows every item
    the selection matches. *)
Theorem filterFunc_shows_selected b v s :
  b = bind (nodes s) → wellTimed s →
  ∀ item, item ∈ filterItems b →
    selects v (getAttribute s item "data-category") = true →
    hasClass (elapse b 50 (filterFunc b v s)) item "active" = true.
Proof.
  intros Hb Hs item Hin Hsel. apply filterFunc_reveals; try done.
  subst b. simpl in Hin. apply querySelectorAll_lookup in Hin as (e & -> & _). by eexists.
Qed.

Theorem filterFunc_all b s :
  b = bind (nodes s) → wellTimed s →
  ∀ item, item ∈ filterItems b →
    hasClass (elapse b 50 (filterFunc b "all" s)) item "active" = true.
Proof. intros Hb Hs item Hin. by apply filterFunc_shows_selected. Qed.

(** X8.  A selection made while no reveal is waiting, and left alone for its
    50 ms, shows the selected items and no other. *)
Theorem filterFunc_at_rest b v s :
  b = bind (nodes s) → wellTimed s → noRevealPending (timers s) →
  ∀ item, item ∈ filterItems b →
    hasClass (elapse b 50 (filterFunc b v s)) item "active"
    = selects v (getAttribute s item "data-category").
Proof.
  intros Hb Hs Hrest item Hin.
  destruct (selects v (getAttribute s item "data-category")) eqn:Hsel.
  - by apply filterFunc_shows_selected.
  - apply filterFunc_hides; try done.
    intros tm Htm. unfold noRevealPending in Hrest. rewrite Forall_forall in Hrest. by apply Hrest.
Qed.

End FilterFacts.

(** ** Exceptions *)

Section ExceptionFacts.

Context `{host : Host}.

(** The one listener that can throw is the dropdown item's, and it does so
    exactly when the markup has no [data-select] element. *)
Lemma dispatch_throws_iff (b : Bindings) (ev : Event) (s : State) :
  (∃ error s', dispatch b ev s = Thrown error s')
  ↔ ∃ item, ev = SelectItemClick item ∧ item ∈ selectItems b ∧ select b = None.
Proof.
  split.
  - intros (error & s' & Hthrown). destruct ev; try discriminate Hthrown.
    exists item. cbn [dispatch] in Hthrown.
    case_bool_decide; [|discriminate Hthrown].
    unfold selectItem_click in Hthrown. by destruct (select b).
  - intros (item & -> & Hitem & Hselect). cbn [dispatch].
    rewrite bool_decide_eq_true_2 by done. unfold selectItem_click. rewrite Hselect. eauto.
Qed.

(** When it throws, the dropdown's value has been written and the filter
    has not run. *)
Lemma selectItem_click_thrown (b : Bindings) (item : node) (s : State) :
  select b = None →
  selectItem_click b item s =
  Thrown "TypeError"
    (match selectValue b with
     | Some sv => update sv (with_innerText (innerTextOf s item)) s
     | None => s
     end).
Proof. intros Hselect. unfold selectItem_click. by rewrite Hselect. Qed.

(** A dropdown item never touches the button row's memory of the last
    button clicked. *)
Lemma filterFunc_lastClickedBtn (b : Bindings) (selectedValue : string) (s : State) :
  lastClickedBtn (filterFunc b selectedValue s) = lastClickedBtn s.
Proof.
  unfold filterFunc.
  apply (foldl_keeps (λ acc, lastClickedBtn acc = lastClickedBtn s)); [|done].
  intros acc item _ Hacc. unfold filterOne.
  by match goal with |- context [if ?c then _ else _] => destruct c end.
Qed.

Lemma selectItem_click_lastClickedBtn (b : Bindings) (item : node) (s : State) :
  lastClickedBtn (stateOf (selectItem_click b item s)) = lastClickedBtn s.
Proof.
  unfold selectItem_click. destruct (select b); cbn [stateOf].
  - rewrite filterFunc_lastClickedBtn. by destruct (selectValue b).
  - by destruct (selectValue b).
Qed.

End ExceptionFacts.

(** * The model at work

    The theorems above applied to the sample markup, and the runs that
    settle the remaining claims. *)

Section Runs.

#[local] Existing Instance ascii_host.

Import Sample.

Ltac by_compute := apply (bool_decide_unpack _); vm_compute; exact I.

(** *** Theme: a visitor who had chosen the light theme *)


(** *** Modal: both items of the sample, the modal closed in between *)

Lemma modal_flags_move_together_sample :
  let s := loaded modalMarkup "" ∅ in
  let b := bind (nodes s) in
  (∀ n, modalContainer b = Some n → overlay b ≠ Some n)
  ∧ (∀ ev, modalOperation b s ev →
           modalFlags b (stateOf (dispatch b ev s)) = negb <$> modalFlags b s)
  ∧ (∀ evs, Forall (λ ev, isModalEvent ev = true) evs →
            allEqual (modalFlags b s) → allEqual (modalFlags b (run b evs s))).
Proof.
  intros s b.
  assert (H1 : ∀ n, modalContainer b = Some n → overlay b ≠ Some n).
  { intros n Hn. vm_compute in Hn. injection Hn as <-. vm_compute. discriminate. }
  split; [done|]. exact (modal_flags_move_together b s eq_refl H1).
Defined.



(** What that run shows in the end, read off directly: the second item's
    content, and an open modal. *)
Lemma modal_after_both_items :
  let s := loaded modalMarkup "" ∅ in
  let b := bind (nodes s) in
  let s2 := run b [TestimonialsItemClick 0%nat; ModalCloseBtnClick; TestimonialsItemClick 4%nat] s in
  fieldsAt s2 11%nat 12%nat 13%nat = ("avatar-2.png", "Bob", "Bob", "<p>Would hire again.</p>")
  ∧ modalFlags b s2 = [true; true; true].
Proof. vm_compute. done. Qed.

(** *** Navigation: the scenario of the fragment [#portfolio] *)


Lemma load_at_portfolio :
  let s := loaded navMarkup "#portfolio" ∅ in
  let b := bind (nodes s) in
  activePages b s = [6%nat] ∧ activeLinks b s = [2%nat] ∧ title s = "Portfolio - Portfolio".
Proof. vm_compute. done. Qed.

(** C1.  On back or forward to the fragment [#xyz], which names no page,
    the [popstate] listener calls [navigateToPage "xyz"]: the page that was
    active is hidden and none is shown, where the claim has "about" shown.
    Loaded at the same fragment, [initializePage] does show "about". *)
Theorem popstate_unknown_fragment_shows_no_page :
  let s := loaded navMarkup "" ∅ in
  let b := bind (nodes s) in
  let s' := stateOf (dispatch b (PopState "#xyz") s) in
  let atLoad := loaded navMarkup "#xyz" ∅ in
  ¬ knownPage b s "xyz"
  ∧ activePages b s = [4%nat]
  ∧ s' = navigateToPage b "xyz" (with_locationHash "#xyz" s)
  ∧ activePages b s' = [] ∧ activeLinks b s' = []
  ∧ activePages b atLoad = [4%nat] ∧ pageNameOf atLoad 4%nat = Some "about".
Proof.
  intros s b s' atLoad. split.
  - intros (page & Hpage & Hname).
    assert (Hall : Forall (λ p, pageNameOf s p ≠ Some "xyz") (pages b)) by by_compute.
    rewrite Forall_forall in Hall. by apply (Hall page).
  - vm_compute. done.
Qed.

(** *** Filter *)

(** C3.  "Web design" is selected and, 10 ms later, "Applications".  The
    second selection hides the two web-design projects at once, but the
    reveal the first selection had scheduled for them still fires 40 ms
    later: in the end all three projects are visible, the two that do not
    match the current selection among them.  A single selection, left
    alone for its 50 ms, shows exactly the matching projects. *)
Theorem filter_reselect_within_delay :
  let s := loaded filterMarkup "" ∅ in
  let b := bind (nodes s) in
  let category item := getAttribute s item "data-category" in
  let hurried := run b [FilterBtnClick 6%nat; Elapse 10; FilterBtnClick 7%nat; Elapse 50] s in
  let unhurried := run b [FilterBtnClick 6%nat; Elapse 50; FilterBtnClick 7%nat; Elapse 50] s in
  filterItems b = [8%nat; 9%nat; 10%nat]
  ∧ category <$> filterItems b = [Some "web design"; Some "applications"; Some "web design"]
  ∧ innerTextOf hurried 1%nat = "Applications"
  ∧ (λ item, hasClass hurried item "active") <$> filterItems b = [true; true; true]
  ∧ timers hurried = []
  ∧ (λ item, hasClass unhurried item "active") <$> filterItems b = [false; true; false].
Proof. vm_compute. done. Qed.

(** C6.  A selection made in the dropdown writes the dropdown's own value
    and filters, but the button row still highlights "All", the button
    clicked last; a selection made in the button row does update the
    dropdown's value.  Both run [filterFunc] on the lower-cased label. *)
Theorem dropdown_selection_leaves_button_row :
  let s := loaded filterMarkup "" ∅ in
  let b := bind (nodes s) in
  let viaDropdown := run b [SelectItemClick 3%nat; Elapse 50] s in
  let viaButtons := run b [FilterBtnClick 6%nat; Elapse 50] s in
  let shown s' := (λ item, hasClass s' item "active") <$> filterItems b in
  let highlighted s' := (λ btn, hasClass s' btn "active") <$> filterBtns b in
  selectValue b = Some 1%nat ∧ filterBtns b = [5%nat; 6%nat; 7%nat]
  ∧ innerTextOf s 3%nat = "Web design" ∧ innerTextOf s 6%nat = "Web design"
  ∧ shown viaDropdown = [true; false; true] ∧ shown viaButtons = [true; false; true]
  ∧ innerTextOf viaDropdown 1%nat = "Web design" ∧ innerTextOf viaButtons 1%nat = "Web design"
  ∧ highlighted viaButtons = [false; true; false] ∧ lastClickedBtn viaButtons = Some 6%nat
  ∧ highlighted viaDropdown = [true; false; false] ∧ lastClickedBtn viaDropdown = Some 5%nat.
Proof. vm_compute. done. Qed.

(** C9.  In a markup variant that has dropdown items but no [data-select]
    element, a click on an item throws: [elementToggleFunc(select)] reads
    [classList] of [null].  The listener stops there, before [filterFunc]. *)
Theorem select_item_without_select_throws :
  let s := loaded filterMarkupWithoutSelect "" ∅ in
  let b := bind (nodes s) in
  select b = None ∧ selectItems b = [0%nat; 1%nat]
  ∧ dispatch b (SelectItemClick 1%nat) s = Thrown "TypeError" s
  ∧ timers s = [].
Proof. vm_compute. done. Qed.

(** *** Contact form *)

Lemma validation_after_quiet_period_sample :
  let s := loaded (formMarkup "Ann" "" "Hello" [("disabled", "")]) "" ∅ in
  let b := bind (nodes s) in
  let s1 := stateOf (dispatch b (FormInputInput 2%nat "ann@example.org") s) in
  let s2 := elapse b 300 s1 in
  (wellTimed s ∧ 2%nat ∈ formInputs b ∧ form b = Some 0%nat ∧ formBtn b = Some 4%nat)
  ∧ isDisabled s2 4%nat = negb (checkValidity (nodes s2) 0%nat)
  ∧ (∀ c e, c ∈ formControls (nodes s2) 0%nat → nodes s2 !! c = Some e →
            isRequired e = true → value e = "" → isDisabled s2 4%nat = true)
  ∧ (isDisabled s2 4%nat = false →
     ∀ c e, c ∈ formControls (nodes s2) 0%nat → nodes s2 !! c = Some e →
            satisfiesConstraints e = true)
  ∧ (∀ s', checkValidity (nodes s') 0%nat = false → stateOf (dispatch b FormSubmit s') = s').
Proof.
  intros s b s1 s2.
  assert (H1 : wellTimed s) by (apply runScript_wellTimed; reflexivity).
  assert (H2 : 2%nat ∈ formInputs b) by by_compute.
  assert (H3 : form b = Some 0%nat) by (vm_compute; reflexivity).
  assert (H4 : formBtn b = Some 4%nat) by (vm_compute; reflexivity).
  split; [done|].
  exact (validation_after_quiet_period b s 2%nat "ann@example.org" 0%nat 4%nat eq_refl H1 H2 H3 H4).
Defined.

(** The same run read off directly: the button, disabled in the markup,
    is enabled 300 ms after the last missing value was typed. *)
Lemma button_enabled_after_typing :
  let s := loaded (formMarkup "Ann" "" "Hello" [("disabled", "")]) "" ∅ in
  let b := bind (nodes s) in
  let s2 := run b [FormInputInput 2%nat "ann@example.org"; Elapse 300] s in
  isDisabled s 4%nat = true ∧ checkValidity (nodes s2) 0%nat = true ∧ isDisabled s2 4%nat = false.
Proof. vm_compute. done. Qed.

(** Leaving a field marks it when it holds more than white space. *)
Lemma blur_marks_filled_inputs :
  let s := loaded (formMarkup "Ann" "  " "" [("disabled", "")]) "" ∅ in
  let b := bind (nodes s) in
  let s' := run b [FormInputBlur 1%nat; FormInputBlur 2%nat; FormInputBlur 3%nat] s in
  (λ input, hasClass s' input "has-value") <$> formInputs b = [true; false; false].
Proof. vm_compute. done. Qed.



End Runs.

(** ** The queue of the effects' callbacks *)

Section JobQueueFacts.

Implicit Types (d x : Deferred) (q : list Deferred) (p : Page).

Lemma elem_of_enqueueJob d q x : x ∈ enqueueJob d q ↔ x = d ∨ x ∈ q.
Proof.
  induction q as [|y q IH]; simpl.
  - rewrite list_elem_of_singleton. split; [auto | intros [?|Hx]; [done | by apply elem_of_nil in Hx]].
  - destruct (jobDue y <=? jobDue d); rewrite !elem_of_cons; [rewrite IH|]; tauto.
Qed.

Lemma Forall_enqueueJob (P : Deferred → Prop) d q : P d → Forall P q → Forall P (enqueueJob d q).
Proof.
  intros Hd Hq. apply Forall_forall. intros x Hx.
  apply elem_of_enqueueJob in Hx as [->|Hx]; [done|]. by eapply Forall_forall.
Qed.

Lemma enqueueJob_ordered d q : jobsInOrder q → jobsInOrder (enqueueJob d q).
Proof.
  induction q as [|y q IH]; simpl; [done|]. intros [Hy Hq].
  destruct (jobDue y <=? jobDue d) eqn:Hle; simpl.
  - apply Z.leb_le in Hle. split; [by apply Forall_enqueueJob | by apply IH].
  - apply Z.leb_gt in Hle. split; [|done].
    constructor; [lia|]. eapply Forall_impl; [done|]. intros x Hx. simpl in Hx. lia.
Qed.

Lemma length_enqueueJob d q : length (enqueueJob d q) = S (length q).
Proof.
  induction q as [|y q IH]; simpl; [done|].
  destruct (jobDue y <=? jobDue d); simpl; [by rewrite IH | done].
Qed.

Lemma enqueueJob_split d q : ∃ pre post, q = pre ++ post ∧ enqueueJob d q = pre ++ d :: post.
Proof.
  induction q as [|y q (pre & post & Hq & He)]; simpl.
  - by exists [], [].
  - destruct (jobDue y <=? jobDue d).
    + exists (y :: pre), post. simpl. by rewrite He, <- Hq.
    + by exists [], (y :: q).
Qed.

(** What a new callback adds to the releases of a gate. *)
Lemma releases_enqueueJob_other h d q :
  job d ≠ ReleaseThrottle h → releases h (enqueueJob d q) = releases h q.
Proof.
  intros Hd. destruct (enqueueJob_split d q) as (pre & post & -> & ->).
  unfold releases. by rewrite !filter_app, filter_cons_False.
Qed.

Lemma releases_enqueueJob_first h d q :
  job d = ReleaseThrottle h → releases h q = [] → releases h (enqueueJob d q) = [d].
Proof.
  intros Hd. destruct (enqueueJob_split d q) as (pre & post & -> & ->).
  unfold releases. rewrite !filter_app, filter_cons_True by done.
  intros Hnil. apply app_eq_nil in Hnil as [-> ->]. done.
Qed.

Lemma releases_elem_of h d q : d ∈ releases h q ↔ d ∈ q ∧ job d = ReleaseThrottle h.
Proof. unfold releases. rewrite list_elem_of_filter. tauto. Qed.

End JobQueueFacts.

Section PendingFacts.

Context `{host : Host}.

Implicit Types (b : Bindings) (p : Page) (d : Deferred) (h : Throttled).

Lemma pageReady_queues p : pageReady p → queuesInv p.
Proof. intros ([Hwf _] & Ho & _ & Hg & Hs). split; [done|]. split; [done|]. by split. Qed.

Lemma step_cases b p (t : Z) p' :
  step b p = Some (t, p') →
  (∃ tm q, timers (dom p) = tm :: q ∧ t = due tm ∧ p' = onDom (fire b tm q) p
           ∧ Forall (λ d, due tm ≤ jobDue d) (take 1 (jobs p)))
  ∨ (∃ d rest, jobs p = d :: rest ∧ t = jobDue d ∧ p' = fireJob d rest p
               ∧ Forall (λ tm, jobDue d ≤ due tm) (take 1 (timers (dom p)))).
Proof.
  unfold step. destruct (timers (dom p)) as [|tm q] eqn:Hq, (jobs p) as [|d rest] eqn:Hj;
    try discriminate.
  - intros [= <- <-]. right. exists d, rest. split; [done|]. split; [done|]. split; [done|]. constructor.
  - intros [= <- <-]. left. exists tm, q. split; [done|]. split; [done|]. split; [done|]. constructor.
  - destruct (timerFirst tm d) eqn:Hf; intros [= <- <-].
    + left. exists tm, q. repeat split; try done. simpl. constructor; [|done].
      unfold timerFirst in Hf. apply orb_true_iff in Hf as [Hf|Hf]; [apply Z.ltb_lt in Hf; lia|].
      apply andb_true_iff in Hf as [Hf _]. apply Z.eqb_eq in Hf. lia.
    + right. exists d, rest. repeat split; try done. simpl. constructor; [|done].
      unfold timerFirst in Hf. apply orb_false_iff in Hf as [Hf _]. apply Z.ltb_ge in Hf. lia.
Qed.

Lemma runJob_timing (j : Job) p : timing (dom (runJob j p)) = timing (dom p).
Proof. by destruct j. Qed.

Lemma runJob_jobs (j : Job) p : jobs (runJob j p) = jobs p.
Proof. by destruct j. Qed.

Lemma runJob_skillObserved (j : Job) p : skillObserved (runJob j p) = skillObserved p.
Proof. by destruct j. Qed.

Lemma runJob_imageObserved (j : Job) p : imageObserved (runJob j p) = imageObserved p.
Proof. by destruct j. Qed.

Lemma fireJob_jobs d rest p : jobs (fireJob d rest p) = rest.
Proof. unfold fireJob. by rewrite runJob_jobs. Qed.

Lemma fireJob_clock d rest p : clock (dom (fireJob d rest p)) = Z.max (clock (dom p)) (jobDue d).
Proof.
  unfold fireJob.
  by destruct (timing_inv _ _ (runJob_timing (job d)
    (with_jobs (λ _, rest) (onDom (λ s, with_clock (Z.max (clock s) (jobDue d)) s) p))))
    as (_ & _ & _ & ->).
Qed.

Lemma fireJob_timers d rest p : timers (dom (fireJob d rest p)) = timers (dom p).
Proof.
  unfold fireJob.
  by destruct (timing_inv _ _ (runJob_timing (job d)
    (with_jobs (λ _, rest) (onDom (λ s, with_clock (Z.max (clock s) (jobDue d)) s) p))))
    as (-> & _).
Qed.

Lemma fireJob_wfQueue d rest p : wfQueue (dom p) → wfQueue (dom (fireJob d rest p)).
Proof.
  intros Hwf. unfold fireJob. eapply wfQueue_timing; [apply runJob_timing|]. done.
Qed.

Lemma fireJob_inThrottle d rest p :
  inThrottle (fireJob d rest p) =
  match job d with
  | ReleaseThrottle h => inThrottle p ∖ {[h]}
  | _ => inThrottle p
  end.
Proof. unfold fireJob. by destruct (job d). Qed.

Lemma fireJob_skillObserved d rest p : skillObserved (fireJob d rest p) = skillObserved p.
Proof. unfold fireJob. by rewrite runJob_skillObserved. Qed.

Lemma gateInv_clock p p' :
  inThrottle p' = inThrottle p → jobs p' = jobs p → clock (dom p) ≤ clock (dom p') →
  gateInv p → gateInv p'.
Proof.
  intros Hi Hj Hc Hg h. specialize (Hg h). rewrite Hi, Hj.
  case_bool_decide; [|done]. destruct Hg as (d & Hd & Hdue). exists d. split; [done | lia].
Qed.

Lemma fireJob_gateInv d rest p : jobs p = d :: rest → gateInv p → gateInv (fireJob d rest p).
Proof.
  intros Hj Hg h. rewrite fireJob_inThrottle, fireJob_jobs, fireJob_clock.
  pose proof (Hg h) as Hh. rewrite Hj in Hh. unfold releases in *. rewrite filter_cons in Hh.
  destruct (decide (job d = ReleaseThrottle h)) as [Hd|Hd].
  - rewrite Hd. rewrite bool_decide_eq_false_2 by set_solver.
    case_bool_decide; [|done]. destruct Hh as (d' & Hd' & _). by injection Hd' as _ ->.
  - assert (Hsame : (h ∈ match job d with
                         | ReleaseThrottle h' => inThrottle p ∖ {[h']}
                         | _ => inThrottle p
                         end) ↔ h ∈ inThrottle p).
    { destruct (job d) as [h'| |]; [|done..]. set_solver. }
    case_bool_decide as Hin.
    + rewrite bool_decide_eq_true_2 by by apply Hsame.
      destruct Hh as (d' & Hd' & Hdue). exists d'. split; [done | lia].
    + rewrite bool_decide_eq_false_2; [done|]. by rewrite Hsame.
Qed.

Lemma fire_queuesInv b tm q p :
  timers (dom p) = tm :: q → queuesInv p → queuesInv (onDom (fire b tm q) p).
Proof.
  intros Hq (Hwf & Ho & Hg & Hs). split; [by apply fire_wfQueue|]. split; [done|]. split; [|done].
  apply (gateInv_clock p); try done. simpl. rewrite fire_clock. lia.
Qed.

Lemma fireJob_queuesInv d rest p :
  jobs p = d :: rest → queuesInv p → queuesInv (fireJob d rest p).
Proof.
  intros Hj (Hwf & Ho & Hg & Hs). split; [by apply fireJob_wfQueue|].
  rewrite fireJob_jobs, fireJob_skillObserved. rewrite Hj in Ho, Hs. destruct Ho as [_ Ho].
  split; [done|]. split; [by apply fireJob_gateInv|].
  intros d' bar w Hd'. apply Hs. by right.
Qed.

(** A property that survives every callback due by [T] holds when time
    has passed up to [T]. *)
Lemma runPending_invariant b (T : Z) (I : Page → Prop) :
  (∀ p tm q, timers (dom p) = tm :: q → due tm ≤ T → queuesInv p → I p →
             I (onDom (fire b tm q) p)) →
  (∀ p d rest, jobs p = d :: rest → jobDue d ≤ T → queuesInv p → I p →
               I (fireJob d rest p)) →
  (∀ p, I p → I (idle T p)) →
  ∀ (fuel : nat) p, queuesInv p → I p → I (runPending fuel b T p).
Proof.
  intros Hfire Hjob Hidle. induction fuel as [|fuel IH]; intros p Hinv HI; [done|].
  cbn [runPending]. destruct (step b p) as [[t p']|] eqn:Hstep; [|by apply Hidle].
  destruct (t <=? T) eqn:Ht; [|by apply Hidle]. apply Z.leb_le in Ht.
  apply step_cases in Hstep as [(tm & q & Hq & -> & -> & _)|(d & rest & Hj & -> & -> & _)].
  - apply IH; [by apply fire_queuesInv | by apply Hfire].
  - apply IH; [by apply fireJob_queuesInv | by apply Hjob].
Qed.

Lemma jobsInOrder_head d q : jobsInOrder (d :: q) → Forall (λ x, jobDue d ≤ jobDue x) (d :: q).
Proof. intros [Hq _]. constructor; [lia | done]. Qed.

(** Letting time pass up to [T] leaves nothing waiting that is due. *)
Lemma runPending_settles b (T : Z) (fuel : nat) p :
  queuesInv p → clock (dom p) ≤ T →
  (pendingRounds (timers (dom p)) + length (jobs p) < fuel)%nat →
  let r := runPending fuel b T p in
  queuesInv r ∧ clock (dom r) = T
  ∧ Forall (λ tm, T < due tm) (timers (dom r)) ∧ Forall (λ d, T < jobDue d) (jobs r).
Proof.
  revert p. induction fuel as [|fuel IH]; intros p Hinv Hc Hfuel; [lia|].
  assert (Hidle : ∀ p, queuesInv p → clock (dom p) ≤ T →
            Forall (λ tm, T < due tm) (timers (dom p)) → Forall (λ d, T < jobDue d) (jobs p) →
            queuesInv (idle T p) ∧ clock (dom (idle T p)) = T
            ∧ Forall (λ tm, T < due tm) (timers (dom (idle T p)))
            ∧ Forall (λ d, T < jobDue d) (jobs (idle T p))).
  { intros p0 (Hwf & Ho & Hg & Hs) Hc0 Ht Hj. split; [|split; [simpl; lia | by split]].
    split; [done|]. split; [done|]. split; [|done].
    apply (gateInv_clock p0); try done. simpl. lia. }
  cbn [runPending]. destruct (step b p) as [[t p']|] eqn:Hstep.
  - apply step_cases in Hstep as [(tm & q & Hq & -> & -> & Hfirst)|(d & rest & Hj & -> & -> & Hfirst)].
    + destruct (due tm <=? T) eqn:Ht.
      * apply Z.leb_le in Ht. apply IH.
        -- by apply fire_queuesInv.
        -- simpl. rewrite fire_clock. lia.
        -- simpl. pose proof (runTask_rounds b (task tm)
             (with_clock (Z.max (clock (dom p)) (due tm)) (with_timers (λ _, q) (dom p)))) as Hr.
           simpl in Hr. unfold fire. rewrite Hq, pendingRounds_cons in Hfuel. lia.
      * apply Z.leb_gt in Ht. apply Hidle; try done.
        -- destruct Hinv as ((Hord & _) & _). rewrite Hq in Hord |- *.
           apply inFiringOrder_head in Hord.
           eapply Forall_impl; [done|]. intros x Hx. simpl in Hx. lia.
        -- destruct Hinv as (_ & Ho & _). destruct (jobs p) as [|d rest]; [done|].
           simpl in Hfirst. apply Forall_cons in Hfirst as [Hd _].
           apply jobsInOrder_head in Ho.
           eapply Forall_impl; [done|]. intros x Hx. simpl in Hx. lia.
    + destruct (jobDue d <=? T) eqn:Ht.
      * apply Z.leb_le in Ht. apply IH.
        -- by apply fireJob_queuesInv.
        -- rewrite fireJob_clock. lia.
        -- rewrite fireJob_timers, fireJob_jobs. rewrite Hj in Hfuel. simpl in Hfuel. lia.
      * apply Z.leb_gt in Ht. apply Hidle; try done.
        -- destruct Hinv as ((Hord & _) & _). destruct (timers (dom p)) as [|tm q]; [done|].
           simpl in Hfirst. apply Forall_cons in Hfirst as [Htm _].
           apply inFiringOrder_head in Hord.
           eapply Forall_impl; [done|]. intros x Hx. simpl in Hx. lia.
        -- destruct Hinv as (_ & Ho & _). rewrite Hj in Ho |- *.
           apply jobsInOrder_head in Ho.
           eapply Forall_impl; [done|]. intros x Hx. simpl in Hx. lia.
  - unfold step in Hstep.
    destruct (timers (dom p)) as [|tm q] eqn:Hq, (jobs p) as [|d rest] eqn:Hj; try discriminate.
    + apply Hidle; try done; by rewrite ?Hq, ?Hj.
    + by destruct (timerFirst tm d).
Qed.

(** Time passing leaves the page ready for the next event. *)
Lemma pass_ready b (ms : Z) p : 0 ≤ ms → queuesInv p → pageReady (pass b ms p).
Proof.
  intros Hms Hinv. unfold pass.
  destruct (runPending_settles b (clock (dom p) + ms)
              (S (pendingRounds (timers (dom p)) + length (jobs p))) p)
    as ((Hwf & Ho & Hg & Hs) & Hc & Ht & Hj); [done | lia | lia |].
  split; [|split; [done|split; [|by split]]].
  - split; [done|]. unfold settled. by rewrite Hc.
  - by rewrite Hc.
Qed.

Lemma pass_clock b (ms : Z) p : 0 ≤ ms → queuesInv p → clock (dom (pass b ms p)) = clock (dom p) + ms.
Proof.
  intros Hms Hinv. unfold pass.
  by destruct (runPending_settles b (clock (dom p) + ms)
              (S (pendingRounds (timers (dom p)) + length (jobs p))) p)
    as (_ & Hc & _); [done | lia | lia |].
Qed.

End PendingFacts.

Section EffectFacts.

Context `{host : Host}.
Context (offsetTop : node → Z).

Implicit Types (b : Bindings) (fx : EffectBindings) (p : Page) (s : State) (h : Throttled).

(** *** Events keep the page ready *)

Lemma dispatch_clock b (ev : Event) s :
  (∀ ms, ev ≠ Elapse ms) → clock (stateOf (dispatch b ev s)) = clock s.
Proof.
  intros Hev.
  assert (Hk : ∀ (f : State → State) x, keepsTiming f → clock (f x) = clock x).
  { intros f x Hf. by destruct (timing_inv _ _ (Hf x)) as (_ & _ & _ & ->). }
  assert (Hfilter : ∀ v x, clock (filterFunc b v x) = clock x).
  { intros v x. unfold filterFunc.
    apply (foldl_keeps (λ acc, clock acc = clock x)); [|done].
    intros acc item _ <-. by destruct (filterOne_frame v acc item) as (-> & _). }
  destruct ev; cbn [dispatch stateOf].
  - apply Hk, sidebarBtn_click_timing.
  - rewrite (Hk _ _ (select_outside_click_timing b target)).
    apply Hk, sidebar_outside_click_timing.
  - apply Hk, themeToggle_click_timing.
  - case_bool_decide; [|done]. apply Hk, testimonialsItem_click_timing.
  - destruct (modalCloseBtn b); [|done]. apply Hk, testimonialsModalFunc_timing.
  - destruct (overlay b); [|done]. apply Hk, testimonialsModalFunc_timing.
  - apply Hk, escape_keydown_timing.
  - apply Hk, select_click_timing.
  - case_bool_decide; [|done]. unfold selectItem_click.
    destruct (select b); cbn [stateOf]; [rewrite Hfilter|]; by destruct (selectValue b).
  - case_bool_decide; [|done]. unfold filterBtn_click. cbn [clock with_lastClickedBtn].
    match goal with
    | |- clock (update _ _ (whenBound ?o _ ?x)) = _ =>
        transitivity (clock x); [by destruct o|]
    end.
    rewrite Hfilter. by destruct (selectValue b).
  - case_bool_decide; [|done]. unfold formInput_input, debounced. simpl.
    by destruct (debounceTimeout _ !! input).
  - case_bool_decide; [|done]. unfold formInput_blur.
    by match goal with |- context [if ?c then _ else _] => destruct c end.
  - unfold form_submit. destruct (form b); [|done].
    match goal with |- context [if ?c then _ else _] => destruct c end; [done|].
    simpl. by destruct (formBtn b).
  - case_bool_decide; [|done]. apply Hk, navigationLink_click_timing.
  - rewrite (Hk _ _ (popstate_timing b)). done.
  - apply Hk, mobileMenuBtn_click_timing.
  - case_bool_decide; [|done]. apply Hk, mobileLink_click_timing.
  - by destruct (Hev ms).
Qed.

(** A change of the document that leaves the timers alone. *)
Lemma onDom_ready (f : State → State) p :
  wellTimed (f (dom p)) → clock (f (dom p)) = clock (dom p) →
  pageReady p → pageReady (onDom f p).
Proof.
  intros Hw Hc (_ & Ho & Hj & Hg & Hs). split; [done|]. split; [done|]. simpl. rewrite Hc.
  split; [done|]. split; [|done].
  intros h. specialize (Hg h). simpl. by rewrite Hc.
Qed.

Lemma onDom_ready_timing (f : State → State) p :
  keepsTiming f → pageReady p → pageReady (onDom f p).
Proof.
  intros Hf Hp. apply onDom_ready; [| |done].
  - eapply wellTimed_timing; [apply Hf|]. by destruct Hp.
  - by destruct (timing_inv _ _ (Hf (dom p))) as (_ & _ & _ & ->).
Qed.

Lemma wellTimed_nextTimerId s : wellTimed s → wellTimed (with_nextTimerId (S (nextTimerId s)) s).
Proof.
  intros [(Hord & Hnd & Hfresh & Hvar) Hs]. split; [|done].
  split; [done|]. split; [done|]. split; [|done]. simpl.
  eapply Forall_impl; [exact Hfresh|]. intros tm Htm. simpl in Htm. lia.
Qed.

(** A callback set [delay] ms ahead that is no release. *)
Lemma defer_ready (j : Job) (delay : Z) p :
  0 < delay → (∀ h, j ≠ ReleaseThrottle h) →
  (∀ bar w, j = FillSkillBar bar w → bar ∉ skillObserved p) →
  pageReady p → pageReady (defer j delay p).
Proof.
  intros Hd Hj Hbar (Hw & Ho & Hs & Hg & Hsk). unfold defer. split; [by apply wellTimed_nextTimerId|].
  split; [by apply enqueueJob_ordered|]. split; [apply Forall_enqueueJob; [simpl; lia | done]|].
  split.
  - intros h. specialize (Hg h). simpl in *.
    by rewrite releases_enqueueJob_other.
  - intros d bar w Hin Hjob. simpl in *. apply elem_of_enqueueJob in Hin as [->|Hin].
    + by apply (Hbar bar w).
    + by apply (Hsk d bar w).
Qed.

(** A throttled call keeps the page ready, whether it runs or is dropped. *)
Lemma throttle_ready h (f : State → State) p :
  keepsTiming f → pageReady p → pageReady (throttle h (onDom f) 100 p).
Proof.
  intros Hf Hp. unfold throttle. case_bool_decide as Hin; [done|].
  apply (onDom_ready_timing f) in Hp as (Hw & Ho & Hs & Hg & Hsk); [|done].
  unfold defer. split; [by apply wellTimed_nextTimerId|].
  split; [by apply enqueueJob_ordered|]. split; [apply Forall_enqueueJob; [simpl; lia | done]|].
  split.
  - intros h'. pose proof (Hg h') as Hh'. simpl in *. destruct (decide (h' = h)) as [->|Hne].
    + rewrite bool_decide_eq_true_2 by set_solver.
      rewrite bool_decide_eq_false_2 in Hh' by done.
      eexists. split; [by apply releases_enqueueJob_first|]. simpl. lia.
    + rewrite releases_enqueueJob_other by (simpl; congruence).
      case_bool_decide as H1; case_bool_decide as H2; try done; set_solver.
  - intros d bar w Hd Hjob. simpl in *. apply elem_of_enqueueJob in Hd as [->|Hd]; [done|].
    by apply (Hsk d bar w).
Qed.

Lemma handleScroll_func_timing fx : keepsTiming (handleScroll_func fx).
Proof. unfold handleScroll_func. keeps_timing. Qed.

Lemma handleScrollTop_func_timing fx : keepsTiming (handleScrollTop_func fx).
Proof. unfold handleScrollTop_func. keeps_timing. Qed.

Lemma spyLink_timing (current : string) acc link : timing (spyLink current acc link) = timing acc.
Proof.
  unfold spyLink. cbv zeta.
  destruct (getAttribute _ link "href") as [href|]; [|done]. by destruct (includesb current href).
Qed.

Lemma updateActiveNavOnScroll_func_timing b : keepsTiming (updateActiveNavOnScroll_func offsetTop b).
Proof.
  intros s. unfold updateActiveNavOnScroll_func.
  apply (foldl_keeps (λ acc, timing acc = timing s)); [|done].
  intros acc link _ <-. apply spyLink_timing.
Qed.

Lemma scroll_ready b fx (y : Z) p : pageReady p → pageReady (scroll offsetTop b fx y p).
Proof.
  intros Hp. unfold scroll, updateActiveNavOnScroll, handleScrollTop, handleScroll.
  apply throttle_ready; [apply updateActiveNavOnScroll_func_timing|].
  apply throttle_ready; [apply handleScrollTop_func_timing|].
  apply throttle_ready; [apply handleScroll_func_timing|].
  by apply onDom_ready_timing.
Qed.

Lemma foldl_inv {A S} (P : S → Prop) (f : S → A → S) (l : list A) (x : S) :
  (∀ acc a, a ∈ l → P acc → P (f acc a)) → P x → P (foldl f x l).
Proof.
  revert x. induction l as [|a l IH]; intros x Hf Hx; simpl; [done|].
  apply IH; [intros acc a' Ha'; apply Hf; by right | apply Hf; [by left | done]].
Qed.

Lemma imageObserver_entry_ready p (entry : node * bool) :
  pageReady p → pageReady (imageObserver_entry p entry).
Proof.
  intros Hp. destruct entry as [img []]; cbn [imageObserver_entry]; [|done].
  match goal with |- pageReady (with_imageObserved _ ?p1) => assert (Hp1 : pageReady p1) end.
  { destruct (getAttribute (dom p) img "data-src") as [src|]; [|done].
    destruct (Str.truthy src); [|done]. by apply onDom_ready_timing. }
  done.
Qed.

Lemma skillObserver_entry_ready p (entry : node * bool) :
  pageReady p → pageReady (skillObserver_entry p entry).
Proof.
  intros Hp. destruct entry as [bar []]; cbn [skillObserver_entry]; [|done].
  destruct Hp as (Hw & Ho & Hs & Hg & Hsk). unfold defer.
  split; [by apply wellTimed_nextTimerId|].
  split; [by apply enqueueJob_ordered|]. split; [apply Forall_enqueueJob; [simpl; lia | done]|].
  split.
  - intros h. specialize (Hg h). simpl in *. by rewrite releases_enqueueJob_other.
  - intros d bar' w Hd Hjob. simpl in *. apply elem_of_enqueueJob in Hd as [->|Hd].
    + simpl in Hjob. injection Hjob as <- _. set_solver.
    + specialize (Hsk d bar' w Hd Hjob). set_solver.
Qed.

Lemma animateOnScroll_entry_timing s (entry : node * bool) :
  timing (animateOnScroll_entry s entry) = timing s.
Proof. by destruct entry as [target []]. Qed.

(** Every event leaves the page ready for the next. *)
Lemma dispatchPage_ready b fx (ev : PageEvent) p :
  forward ev → pageReady p → pageReady (dispatchPage offsetTop b fx ev p).
Proof.
  intros Hev Hp. destruct ev as [ev|y| |entries|entries|entries|]; cbn [dispatchPage].
  - assert (Hother : (∀ ms, ev ≠ Elapse ms) →
                     pageReady (onDom (λ s, stateOf (dispatch b ev s)) p)).
    { intros Hne. apply onDom_ready; [|by apply dispatch_clock|done].
      apply dispatch_wellTimed; [|by destruct Hp]. intros ms ->. by destruct (Hne ms). }
    destruct ev; try (by apply Hother).
    apply pass_ready; [by apply Hev | by apply pageReady_queues].
  - by apply scroll_ready.
  - apply onDom_ready_timing; [|done]. intros s. unfold scrollTopBtn_click.
    by destruct (scrollTopBtn fx).
  - apply (foldl_inv pageReady); [|done]. intros acc entry _. apply imageObserver_entry_ready.
  - apply onDom_ready_timing; [|done]. intros s.
    apply (foldl_inv (λ acc, timing acc = timing s)); [|done].
    intros acc entry _ <-. apply animateOnScroll_entry_timing.
  - apply (foldl_inv pageReady); [|done]. intros acc entry _. apply skillObserver_entry_ready.
  - unfold preloader_load. destruct (preloader fx) as [pre|]; [|done].
    apply defer_ready; [lia | done | done |]. by apply onDom_ready_timing.
Qed.

Lemma runPage_ready b fx (evs : list PageEvent) p :
  Forall forward evs → pageReady p → pageReady (runPage offsetTop b fx evs p).
Proof.
  intros Hevs. revert p. induction Hevs as [|ev evs Hev _ IH]; intros p Hp; [done|].
  simpl. apply IH. by apply dispatchPage_ready.
Qed.

(** The page the script leaves behind is ready. *)
Lemma openPage_ready (d : list Element) s : timers s = [] → pageReady (openPage d s).
Proof.
  intros Hq. unfold openPage. cbv zeta.
  split; [by apply runScript_wellTimed|]. split; [done|]. split; [constructor|].
  split; [|by intros d' bar w Hd'; apply elem_of_nil in Hd'].
  intros h. simpl. by rewrite bool_decide_eq_false_2 by set_solver.
Qed.

End EffectFacts.

Section ScrollFacts.

Context `{host : Host}.
Context (offsetTop : node → Z).

Implicit Types (b : Bindings) (fx : EffectBindings) (p : Page) (s : State) (h : Throttled)
  (n : node) (c : string).

(** *** What the callbacks leave alone *)

(** A timer callback of the controllers writes no class but [active] and
    [has-value]. *)
Lemma runTask_hasClass_other b (t : Task) s n c :
  c ≠ "active" → c ≠ "has-value" → hasClass (runTask b t s) n c = hasClass s n c.
Proof.
  intros Hc1 Hc2. destruct t; cbn [runTask].
  - apply hasClass_update_same. intros e. by rewrite class_contains_add, bool_decide_eq_false_2.
  - unfold validateForm.
    transitivity (hasClass (clearTimeout (debounceTimeout s !! input) s) n c).
    + by destruct (formIsValid b _); apply hasClass_whenBound_same.
    + by destruct (debounceTimeout s !! input).
  - unfold submit_resume. simpl. by apply (hasClass_whenBound_same s (formBtn b)).
  - unfold submit_reset.
    apply (foldl_keeps (λ acc, hasClass acc n c = hasClass s n c)).
    + intros acc x _ <-. apply hasClass_update_same. intros e.
      by rewrite class_contains_remove, bool_decide_eq_false_2.
    + rewrite hasClass_whenBound_same by done.
      destruct (form b); [|done]. unfold formReset.
      apply (foldl_keeps (λ acc, hasClass acc n c = hasClass s n c)); [|done].
      intros acc x _ <-. by apply hasClass_update_same.
Qed.

Lemma fire_hasClass_other b tm q s n c :
  c ≠ "active" → c ≠ "has-value" → hasClass (fire b tm q s) n c = hasClass s n c.
Proof. intros Hc1 Hc2. unfold fire. by rewrite runTask_hasClass_other. Qed.

(** The callbacks of the effects write no class at all. *)
Lemma fireJob_hasClass (d : Deferred) rest p n c :
  hasClass (dom (fireJob d rest p)) n c = hasClass (dom p) n c.
Proof.
  unfold fireJob. destruct (job d); simpl; try done; by rewrite hasClass_update_same.
Qed.

Lemma fireJob_in_store (d : Deferred) rest p n :
  is_Some (nodes (dom p) !! n) → is_Some (nodes (dom (fireJob d rest p)) !! n).
Proof.
  intros Hn. unfold fireJob. destruct (job d); simpl; try done;
    apply lookup_lt_is_Some; rewrite length_alter; by apply lookup_lt_is_Some.
Qed.

Lemma pass_hasClass_other b (ms : Z) p n c :
  c ≠ "active" → c ≠ "has-value" → queuesInv p →
  hasClass (dom (pass b ms p)) n c = hasClass (dom p) n c.
Proof.
  intros Hc1 Hc2 Hinv. unfold pass.
  apply (runPending_invariant b _ (λ acc, hasClass (dom acc) n c = hasClass (dom p) n c));
    try done.
  - intros acc tm q _ _ _ <-. by apply fire_hasClass_other.
  - intros acc d rest _ _ _ <-. apply fireJob_hasClass.
Qed.

Lemma pass_in_store b (ms : Z) p n :
  queuesInv p → is_Some (nodes (dom p) !! n) → is_Some (nodes (dom (pass b ms p)) !! n).
Proof.
  intros Hinv Hn. unfold pass.
  apply (runPending_invariant b _ (λ acc, is_Some (nodes (dom acc) !! n))); try done.
  - intros acc tm q _ _ _. apply fire_in_store.
  - intros acc d rest _ _ _. apply fireJob_in_store.
Qed.

(** *** The gate of a throttled function *)

(** Once nothing has happened for the length of the limit, every gate
    is open again. *)
Lemma pass_opens_gates b (ms : Z) p : 100 ≤ ms → pageReady p → inThrottle (pass b ms p) = ∅.
Proof.
  intros Hms Hp. set (T := clock (dom p) + ms).
  assert (Hinv : queuesInv p) by by apply pageReady_queues.
  pose (I := λ acc : Page, ∀ h, h ∈ inThrottle acc →
                 ∃ d, d ∈ jobs acc ∧ job d = ReleaseThrottle h ∧ jobDue d ≤ T).
  assert (HI : I (pass b ms p)).
  { unfold pass. fold T. apply (runPending_invariant b T I); try done.
    - intros acc d rest Hj _ _ Hacc h Hh. rewrite fireJob_inThrottle in Hh. rewrite fireJob_jobs.
      assert (Hh' : h ∈ inThrottle acc ∧ job d ≠ ReleaseThrottle h).
      { destruct (job d) as [h'| |]; [|done..]. set_solver. }
      destruct Hh' as [Hin Hne]. destruct (Hacc h Hin) as (d' & Hd' & Hjob & Hdue).
      rewrite Hj in Hd'. apply elem_of_cons in Hd' as [->|Hd']; [done|]. by exists d'.
    - destruct Hp as (_ & _ & _ & Hg & _). intros h Hh. specialize (Hg h).
      rewrite bool_decide_eq_true_2 in Hg by done. destruct Hg as (d & Hd & Hdue).
      exists d. assert (Hin : d ∈ releases h (jobs p)) by (rewrite Hd; by left).
      apply releases_elem_of in Hin as [Hin Hjob]. split; [done|]. split; [done|].
      unfold T. lia. }
  apply set_eq. intros h. split; [|set_solver]. intros Hh.
  destruct (HI h Hh) as (d & Hd & _ & Hdue).
  unfold pass in Hd. fold T in Hd.
  destruct (runPending_settles b T (S (pendingRounds (timers (dom p)) + length (jobs p))) p)
    as (_ & _ & _ & Hlater); [done | unfold T; lia | lia |].
  rewrite Forall_forall in Hlater. specialize (Hlater d Hd). lia.
Qed.

(** A gate stays closed while its release is still ahead. *)
Lemma pass_keeps_gate b (ms : Z) p h :
  queuesInv p → h ∈ inThrottle p →
  Forall (λ d, clock (dom p) + ms < jobDue d) (releases h (jobs p)) →
  h ∈ inThrottle (pass b ms p).
Proof.
  intros Hinv Hh Hrel. set (T := clock (dom p) + ms).
  pose (I := λ acc : Page, h ∈ inThrottle acc ∧ Forall (λ d, T < jobDue d) (releases h (jobs acc))).
  assert (HI : I (pass b ms p)); [|by destruct HI].
  unfold pass. fold T. apply (runPending_invariant b T I); try done.
  intros acc d rest Hj Hdue _ [Hin Hlater]. unfold I. rewrite fireJob_inThrottle, fireJob_jobs.
  rewrite Hj in Hlater. unfold releases in Hlater. rewrite filter_cons in Hlater.
  destruct (decide (job d = ReleaseThrottle h)) as [Hd|Hd].
  - apply Forall_cons in Hlater as [Hlt _]. lia.
  - split; [|done]. destruct (job d) as [h'| |]; [|done..]. set_solver.
Qed.

(** A throttled call on an open gate: the function runs, the gate closes
    and its release is set [100] ms ahead. *)
Lemma throttle_open h (f : State → State) p :
  keepsTiming f → pageReady p → h ∉ inThrottle p →
  let p' := throttle h (onDom f) 100 p in
  (∀ n c, hasClass (dom p') n c = hasClass (f (dom p)) n c)
  ∧ nodes (dom p') = nodes (f (dom p))
  ∧ h ∈ inThrottle p'
  ∧ Forall (λ d, jobDue d = clock (dom p) + 100) (releases h (jobs p')).
Proof.
  intros Hf (_ & _ & _ & Hg & _) Hh. unfold throttle. rewrite bool_decide_eq_false_2 by done.
  cbv zeta. split; [done|]. split; [done|]. split; [simpl; set_solver|]. cbn [defer jobs with_jobs onDom with_inThrottle dom].
  specialize (Hg h). rewrite bool_decide_eq_false_2 in Hg by done.
  rewrite releases_enqueueJob_first by done. constructor; [|done]. simpl.
  by destruct (timing_inv _ _ (Hf (dom p))) as (_ & _ & _ & ->).
Qed.

(** A throttled call on a closed gate changes nothing. *)
Lemma throttle_closed h (func : Page → Page) (limit : Z) p :
  h ∈ inThrottle p → throttle h func limit p = p.
Proof. intros Hh. unfold throttle. by rewrite bool_decide_eq_true_2. Qed.

(** What a throttled call does to the document: what its function does,
    on an open gate. *)
Lemma throttle_nodes h (f : State → State) p :
  nodes (dom (throttle h (onDom f) 100 p))
  = if bool_decide (h ∈ inThrottle p) then nodes (dom p) else nodes (f (dom p)).
Proof. unfold throttle. by case_bool_decide. Qed.

Lemma throttle_scrollY h (f : State → State) p :
  (∀ s, scrollY (f s) = scrollY s) →
  scrollY (dom (throttle h (onDom f) 100 p)) = scrollY (dom p).
Proof. intros Hf. unfold throttle. case_bool_decide; [done|]. simpl. apply Hf. Qed.

Lemma throttle_clock h (f : State → State) p :
  keepsTiming f → clock (dom (throttle h (onDom f) 100 p)) = clock (dom p).
Proof.
  intros Hf. unfold throttle. case_bool_decide; [done|]. simpl.
  by destruct (timing_inv _ _ (Hf (dom p))) as (_ & _ & _ & ->).
Qed.

(** What a throttled call leaves alone of the gate of another function. *)
Lemma throttle_other h h' (f : State → State) p :
  h' ≠ h →
  let p' := throttle h' (onDom f) 100 p in
  (h ∈ inThrottle p' ↔ h ∈ inThrottle p) ∧ releases h (jobs p') = releases h (jobs p).
Proof.
  intros Hne. unfold throttle. case_bool_decide; [done|]. cbv zeta. simpl. split; [set_solver|].
  apply releases_enqueueJob_other. simpl. congruence.
Qed.

Lemma hasClass_nodes s s' n c : nodes s' = nodes s → hasClass s' n c = hasClass s n c.
Proof. unfold hasClass. by intros ->. Qed.

Lemma getAttribute_nodes s s' n (a : string) :
  nodes s' = nodes s → getAttribute s' n a = getAttribute s n a.
Proof. unfold getAttribute. by intros ->. Qed.

(** *** The three scroll listeners *)

Lemma handleScroll_func_hasClass fx s n c :
  hasClass (handleScroll_func fx s) n c =
  if bool_decide (header fx = Some n ∧ c = "scrolled" ∧ is_Some (nodes s !! n))
  then bool_decide (100 < scrollY s) else hasClass s n c.
Proof.
  unfold handleScroll_func.
  destruct (100 <? scrollY s) eqn:Hy; rewrite hasClass_whenBound;
    [apply Z.ltb_lt in Hy | apply Z.ltb_ge in Hy].
  - case_bool_decide as H1; destruct (decide (header fx = Some n)) as [Hh|Hh].
    + destruct H1 as (_ & -> & [e He]). unfold hasClass. rewrite He. simpl.
      rewrite class_contains_add, bool_decide_eq_true_2 by done.
      symmetry. by apply bool_decide_eq_true.
    + by destruct H1.
    + unfold hasClass. destruct (nodes s !! n) as [e|] eqn:He; simpl; [|done].
      rewrite class_contains_add, bool_decide_eq_false_2; [done|].
      intros ->. apply H1. eauto.
    + done.
  - case_bool_decide as H1; destruct (decide (header fx = Some n)) as [Hh|Hh].
    + destruct H1 as (_ & -> & [e He]). unfold hasClass. rewrite He. simpl.
      rewrite class_contains_remove, bool_decide_eq_true_2 by done.
      symmetry. apply bool_decide_eq_false. lia.
    + by destruct H1.
    + unfold hasClass. destruct (nodes s !! n) as [e|] eqn:He; simpl; [|done].
      rewrite class_contains_remove, bool_decide_eq_false_2; [done|].
      intros ->. apply H1. eauto.
    + done.
Qed.

Lemma handleScrollTop_func_hasClass fx s n c :
  hasClass (handleScrollTop_func fx s) n c =
  if bool_decide (scrollTopBtn fx = Some n ∧ c = "visible" ∧ is_Some (nodes s !! n))
  then bool_decide (500 < scrollY s) else hasClass s n c.
Proof.
  unfold handleScrollTop_func.
  destruct (500 <? scrollY s) eqn:Hy; rewrite hasClass_whenBound;
    [apply Z.ltb_lt in Hy | apply Z.ltb_ge in Hy].
  - case_bool_decide as H1; destruct (decide (scrollTopBtn fx = Some n)) as [Hh|Hh].
    + destruct H1 as (_ & -> & [e He]). unfold hasClass. rewrite He. simpl.
      rewrite class_contains_add, bool_decide_eq_true_2 by done.
      symmetry. by apply bool_decide_eq_true.
    + by destruct H1.
    + unfold hasClass. destruct (nodes s !! n) as [e|] eqn:He; simpl; [|done].
      rewrite class_contains_add, bool_decide_eq_false_2; [done|].
      intros ->. apply H1. eauto.
    + done.
  - case_bool_decide as H1; destruct (decide (scrollTopBtn fx = Some n)) as [Hh|Hh].
    + destruct H1 as (_ & -> & [e He]). unfold hasClass. rewrite He. simpl.
      rewrite class_contains_remove, bool_decide_eq_true_2 by done.
      symmetry. apply bool_decide_eq_false. lia.
    + by destruct H1.
    + unfold hasClass. destruct (nodes s !! n) as [e|] eqn:He; simpl; [|done].
      rewrite class_contains_remove, bool_decide_eq_false_2; [done|].
      intros ->. apply H1. eauto.
    + done.
Qed.

Lemma spyLink_hasClass_other (current : string) acc link n c :
  c ≠ "active" → hasClass (spyLink current acc link) n c = hasClass acc n c.
Proof.
  intros Hc. unfold spyLink. cbv zeta.
  assert (H1 : hasClass (update link (class_remove "active") acc) n c = hasClass acc n c).
  { apply hasClass_update_same. intros e. by rewrite class_contains_remove, bool_decide_eq_false_2. }
  destruct (getAttribute _ link "href") as [href|]; [|done].
  destruct (includesb current href); [|done].
  rewrite hasClass_update_same; [done|].
  intros e. by rewrite class_contains_add, bool_decide_eq_false_2.
Qed.

Lemma updateActiveNavOnScroll_func_hasClass_other b s n c :
  c ≠ "active" → hasClass (updateActiveNavOnScroll_func offsetTop b s) n c = hasClass s n c.
Proof.
  intros Hc. unfold updateActiveNavOnScroll_func.
  apply (foldl_keeps (λ acc, hasClass acc n c = hasClass s n c)); [|done].
  intros acc link _ <-. by apply spyLink_hasClass_other.
Qed.

Lemma handleScroll_func_scrollY fx s : scrollY (handleScroll_func fx s) = scrollY s.
Proof.
  unfold handleScroll_func. destruct (100 <? scrollY s), (header fx); done.
Qed.

Lemma handleScrollTop_func_scrollY fx s : scrollY (handleScrollTop_func fx s) = scrollY s.
Proof.
  unfold handleScrollTop_func. destruct (500 <? scrollY s), (scrollTopBtn fx); done.
Qed.

Lemma spyLink_scrollY (current : string) acc link : scrollY (spyLink current acc link) = scrollY acc.
Proof.
  unfold spyLink. cbv zeta.
  destruct (getAttribute _ link "href") as [href|]; [|done]. by destruct (includesb current href).
Qed.

Lemma updateActiveNavOnScroll_func_scrollY b s :
  scrollY (updateActiveNavOnScroll_func offsetTop b s) = scrollY s.
Proof.
  unfold updateActiveNavOnScroll_func.
  apply (foldl_keeps (λ acc, scrollY acc = scrollY s)); [|done].
  intros acc link _ <-. apply spyLink_scrollY.
Qed.

Lemma scroll_scrollY b fx (y : Z) p : scrollY (dom (scroll offsetTop b fx y p)) = y.
Proof.
  unfold scroll, updateActiveNavOnScroll, handleScrollTop, handleScroll.
  rewrite !throttle_scrollY; [done | | |].
  - apply handleScroll_func_scrollY.
  - apply handleScrollTop_func_scrollY.
  - apply updateActiveNavOnScroll_func_scrollY.
Qed.

Lemma scroll_clock b fx (y : Z) p : clock (dom (scroll offsetTop b fx y p)) = clock (dom p).
Proof.
  unfold scroll, updateActiveNavOnScroll, handleScrollTop, handleScroll.
  rewrite !throttle_clock; [done | | |].
  - apply handleScroll_func_timing.
  - apply handleScrollTop_func_timing.
  - apply updateActiveNavOnScroll_func_timing.
Qed.

(** A scroll event closes every gate it finds open, for [100] ms. *)
Lemma scroll_closes_gate b fx (y : Z) p h :
  pageReady p → h ∉ inThrottle p →
  let p' := scroll offsetTop b fx y p in
  h ∈ inThrottle p' ∧ Forall (λ d, jobDue d = clock (dom p) + 100) (releases h (jobs p')).
Proof.
  intros Hp Hh. unfold scroll, updateActiveNavOnScroll, handleScrollTop, handleScroll. cbv zeta.
  set (p0 := onDom (with_scrollY y) p).
  set (pa := throttle HandleScroll (onDom (handleScroll_func fx)) 100 p0).
  set (pb := throttle HandleScrollTop (onDom (handleScrollTop_func fx)) 100 pa).
  assert (Hp0 : pageReady p0) by by apply onDom_ready_timing.
  assert (Hpa : pageReady pa) by (apply throttle_ready; [apply handleScroll_func_timing | done]).
  assert (Hpb : pageReady pb) by (apply throttle_ready; [apply handleScrollTop_func_timing | done]).
  assert (Hca : clock (dom pa) = clock (dom p))
    by (unfold pa; rewrite throttle_clock; [done | apply handleScroll_func_timing]).
  assert (Hcb : clock (dom pb) = clock (dom p))
    by (unfold pb; rewrite throttle_clock; [done | apply handleScrollTop_func_timing]).
  destruct h.
  - destruct (throttle_open HandleScroll (handleScroll_func fx) p0) as (_ & _ & Hin & Hrel);
      [apply handleScroll_func_timing | done | done |]. fold pa in Hin, Hrel.
    destruct (throttle_other HandleScroll HandleScrollTop (handleScrollTop_func fx) pa)
      as [Hi1 Hr1]; [done|]. fold pb in Hi1, Hr1.
    destruct (throttle_other HandleScroll UpdateActiveNavOnScroll
                (updateActiveNavOnScroll_func offsetTop b) pb) as [Hi2 Hr2]; [done|].
    split; [by apply Hi2, Hi1|]. by rewrite Hr2, Hr1.
  - destruct (throttle_other HandleScrollTop HandleScroll (handleScroll_func fx) p0)
      as [Hi0 Hr0]; [done|]. fold pa in Hi0, Hr0.
    destruct (throttle_open HandleScrollTop (handleScrollTop_func fx) pa) as (_ & _ & Hin & Hrel);
      [apply handleScrollTop_func_timing | done | by rewrite Hi0 |]. fold pb in Hin, Hrel.
    destruct (throttle_other HandleScrollTop UpdateActiveNavOnScroll
                (updateActiveNavOnScroll_func offsetTop b) pb) as [Hi2 Hr2]; [done|].
    split; [by apply Hi2|]. rewrite Hr2. by rewrite Hca in Hrel.
  - destruct (throttle_other UpdateActiveNavOnScroll HandleScroll (handleScroll_func fx) p0)
      as [Hi0 Hr0]; [done|]. fold pa in Hi0, Hr0.
    destruct (throttle_other UpdateActiveNavOnScroll HandleScrollTop (handleScrollTop_func fx) pa)
      as [Hi1 Hr1]; [done|]. fold pb in Hi1, Hr1.
    destruct (throttle_open UpdateActiveNavOnScroll (updateActiveNavOnScroll_func offsetTop b) pb)
      as (_ & _ & Hin & Hrel);
      [apply updateActiveNavOnScroll_func_timing | done | by rewrite Hi1, Hi0 |].
    split; [done|]. by rewrite Hcb in Hrel.
Qed.

(** What a scroll event does to a class that only the header's listener
    writes, and to one that only the button's listener writes. *)
Lemma scroll_hasClass b fx (y : Z) p n c :
  c ≠ "active" →
  hasClass (dom (scroll offsetTop b fx y p)) n c =
  if bool_decide ((HandleScroll ∉ inThrottle p) ∧ header fx = Some n ∧ c = "scrolled"
                  ∧ is_Some (nodes (dom p) !! n))
  then bool_decide (100 < y)
  else if bool_decide ((HandleScrollTop ∉ inThrottle p) ∧ scrollTopBtn fx = Some n
                       ∧ c = "visible" ∧ is_Some (nodes (dom p) !! n))
  then bool_decide (500 < y)
  else hasClass (dom p) n c.
Proof.
  intros Hc. unfold scroll, updateActiveNavOnScroll, handleScrollTop, handleScroll.
  set (p0 := onDom (with_scrollY y) p).
  set (pa := throttle HandleScroll (onDom (handleScroll_func fx)) 100 p0).
  set (pb := throttle HandleScrollTop (onDom (handleScrollTop_func fx)) 100 pa).
  set (pc := throttle UpdateActiveNavOnScroll _ 100 pb).
  assert (Hc3 : hasClass (dom pc) n c = hasClass (dom pb) n c).
  { unfold pc. match goal with |- hasClass ?x _ _ = _ =>
      rewrite (hasClass_nodes (if bool_decide (UpdateActiveNavOnScroll ∈ inThrottle pb)
                               then dom pb
                               else updateActiveNavOnScroll_func offsetTop b (dom pb)) x) end.
    - case_bool_decide; [done|]. by apply updateActiveNavOnScroll_func_hasClass_other.
    - rewrite throttle_nodes. by case_bool_decide. }
  assert (Hc2 : hasClass (dom pb) n c =
                if bool_decide (HandleScrollTop ∈ inThrottle pa) then hasClass (dom pa) n c
                else hasClass (handleScrollTop_func fx (dom pa)) n c).
  { unfold pb. match goal with |- hasClass ?x _ _ = _ =>
      rewrite (hasClass_nodes (if bool_decide (HandleScrollTop ∈ inThrottle pa)
                               then dom pa else handleScrollTop_func fx (dom pa)) x) end.
    - by case_bool_decide.
    - rewrite throttle_nodes. by case_bool_decide. }
  assert (Hc1 : hasClass (dom pa) n c =
                if bool_decide (HandleScroll ∈ inThrottle p0) then hasClass (dom p0) n c
                else hasClass (handleScroll_func fx (dom p0)) n c).
  { unfold pa. match goal with |- hasClass ?x _ _ = _ =>
      rewrite (hasClass_nodes (if bool_decide (HandleScroll ∈ inThrottle p0)
                               then dom p0 else handleScroll_func fx (dom p0)) x) end.
    - by destruct (bool_decide (HandleScroll ∈ inThrottle p0)).
    - rewrite throttle_nodes. by destruct (bool_decide (HandleScroll ∈ inThrottle p0)). }
  assert (Hgate : HandleScrollTop ∈ inThrottle pa ↔ HandleScrollTop ∈ inThrottle p).
  { by destruct (throttle_other HandleScrollTop HandleScroll (handleScroll_func fx) p0). }
  assert (Hstore : is_Some (nodes (dom pa) !! n) ↔ is_Some (nodes (dom p) !! n)).
  { unfold pa. rewrite throttle_nodes. case_bool_decide; [done|].
    rewrite !lookup_lt_is_Some. unfold handleScroll_func.
    destruct (100 <? scrollY (dom p0)), (header fx); cbn [whenBound]; by rewrite ?length_update. }
  assert (Hya : scrollY (dom pa) = y).
  { unfold pa. rewrite throttle_scrollY; [done | apply handleScroll_func_scrollY]. }
  rewrite Hc3, Hc2, handleScrollTop_func_hasClass, Hc1, handleScroll_func_hasClass, Hya.
  change (inThrottle p0) with (inThrottle p). change (nodes (dom p0)) with (nodes (dom p)).
  change (scrollY (dom p0)) with y. change (hasClass (dom p0) n c) with (hasClass (dom p) n c).
  rewrite (bool_decide_ext _ _ Hgate).
  assert (Hexcl : c = "scrolled" → c = "visible" → False) by (by intros ->).
  clearbody p0 pa pb pc. clear Hc3 Hc2 Hc1 Hgate Hya.
  repeat case_bool_decide; try done; exfalso; tauto.
Qed.

Lemma spyLink_length (current : string) acc link :
  length (nodes (spyLink current acc link)) = length (nodes acc).
Proof.
  unfold spyLink. cbv zeta.
  destruct (getAttribute _ link "href") as [href|]; [|by rewrite length_update].
  destruct (includesb current href); by rewrite ?length_update.
Qed.

Lemma updateActiveNavOnScroll_func_length b s :
  length (nodes (updateActiveNavOnScroll_func offsetTop b s)) = length (nodes s).
Proof.
  unfold updateActiveNavOnScroll_func.
  apply (foldl_keeps (λ acc, length (nodes acc) = length (nodes s))); [|done].
  intros acc link _ <-. apply spyLink_length.
Qed.

Lemma scroll_length b fx (y : Z) p :
  length (nodes (dom (scroll offsetTop b fx y p))) = length (nodes (dom p)).
Proof.
  unfold scroll, updateActiveNavOnScroll, handleScrollTop, handleScroll.
  rewrite throttle_nodes.
  assert (H2 : ∀ q, length (nodes (dom (throttle HandleScrollTop
                      (onDom (handleScrollTop_func fx)) 100 q))) = length (nodes (dom q))).
  { intros q. rewrite throttle_nodes. case_bool_decide; [done|]. unfold handleScrollTop_func.
    destruct (500 <? scrollY (dom q)), (scrollTopBtn fx); cbn [whenBound]; by rewrite ?length_update. }
  assert (H1 : ∀ q, length (nodes (dom (throttle HandleScroll
                      (onDom (handleScroll_func fx)) 100 q))) = length (nodes (dom q))).
  { intros q. rewrite throttle_nodes. case_bool_decide; [done|]. unfold handleScroll_func.
    destruct (100 <? scrollY (dom q)), (header fx); cbn [whenBound]; by rewrite ?length_update. }
  case_bool_decide; rewrite ?updateActiveNavOnScroll_func_length, H2, H1; done.
Qed.

Lemma scroll_in_store b fx (y : Z) p n :
  is_Some (nodes (dom p) !! n) → is_Some (nodes (dom (scroll offsetTop b fx y p)) !! n).
Proof. rewrite !lookup_lt_is_Some. by rewrite scroll_length. Qed.

(** X14.  The header's listener runs on the first scroll event and then not
    again for 100 ms: a scroll event in that time leaves the header as the
    first one put it, wherever the page has scrolled to; the first event
    after it is heard again.  The header is [scrolled] above 100 pixels. *)
Theorem header_hears_one_scroll_per_limit b fx p hd (y0 y1 d : Z) :
  pageReady p → header fx = Some hd → is_Some (nodes (dom p) !! hd) →
  HandleScroll ∉ inThrottle p → 0 ≤ d →
  let p1 := scroll offsetTop b fx y0 p in
  let p2 := scroll offsetTop b fx y1 (pass b d p1) in
  hasClass (dom p1) hd "scrolled" = bool_decide (100 < y0)
  ∧ scrollY (dom p2) = y1
  ∧ hasClass (dom p2) hd "scrolled" = bool_decide (100 < (if bool_decide (d < 100) then y0 else y1)).
Proof.
  intros Hp Hhd Hstore Hopen Hd p1 p2.
  assert (H1 : hasClass (dom p1) hd "scrolled" = bool_decide (100 < y0)).
  { unfold p1. rewrite scroll_hasClass by done. by rewrite bool_decide_eq_true_2. }
  assert (Hp1 : pageReady p1) by by apply scroll_ready.
  assert (Hq1 : queuesInv p1) by by apply pageReady_queues.
  assert (Hstore2 : is_Some (nodes (dom (pass b d p1)) !! hd))
    by by apply pass_in_store, scroll_in_store.
  split; [done|]. split; [apply scroll_scrollY|].
  unfold p2. rewrite scroll_hasClass by done.
  destruct (decide (d < 100)) as [Hd100|Hd100];
    [rewrite (bool_decide_eq_true_2 (d < 100)) by done
    |rewrite (bool_decide_eq_false_2 (d < 100)) by done].
  - destruct (scroll_closes_gate b fx y0 p HandleScroll Hp Hopen) as [Hin Hrel]. fold p1 in Hin, Hrel.
    assert (Hclosed : HandleScroll ∈ inThrottle (pass b d p1)).
    { assert (Hc1 : clock (dom p1) = clock (dom p)) by apply scroll_clock.
      apply pass_keeps_gate; [done | done |].
      eapply Forall_impl; [exact Hrel|]. intros x Hx. simpl in Hx. lia. }
    rewrite bool_decide_eq_false_2 by tauto.
    rewrite bool_decide_eq_false_2 by (intros (_ & _ & ? & _); done).
    by rewrite pass_hasClass_other.
  - rewrite bool_decide_eq_true_2; [done|].
    rewrite pass_opens_gates by (done || lia). repeat split; try done; set_solver.
Qed.

(** X15.  The listener of the scroll-to-top button runs on the first scroll
    event and then not again for 100 ms: a scroll event in that time leaves
    the button as the first one put it; the first event after it is heard
    again.  The button is [visible] above 500 pixels. *)
Theorem scrollTopBtn_hears_one_scroll_per_limit b fx p btn (y0 y1 d : Z) :
  pageReady p → scrollTopBtn fx = Some btn → is_Some (nodes (dom p) !! btn) →
  HandleScrollTop ∉ inThrottle p → 0 ≤ d →
  let p1 := scroll offsetTop b fx y0 p in
  let p2 := scroll offsetTop b fx y1 (pass b d p1) in
  hasClass (dom p1) btn "visible" = bool_decide (500 < y0)
  ∧ hasClass (dom p2) btn "visible" = bool_decide (500 < (if bool_decide (d < 100) then y0 else y1)).
Proof.
  intros Hp Hbtn Hstore Hopen Hd p1 p2.
  assert (H1 : hasClass (dom p1) btn "visible" = bool_decide (500 < y0)).
  { unfold p1. rewrite scroll_hasClass by done.
    rewrite bool_decide_eq_false_2 by (intros (_ & _ & ? & _); done).
    by rewrite bool_decide_eq_true_2. }
  assert (Hp1 : pageReady p1) by by apply scroll_ready.
  assert (Hq1 : queuesInv p1) by by apply pageReady_queues.
  assert (Hstore2 : is_Some (nodes (dom (pass b d p1)) !! btn))
    by by apply pass_in_store, scroll_in_store.
  split; [done|].
  unfold p2. rewrite scroll_hasClass by done.
  rewrite bool_decide_eq_false_2 by (intros (_ & _ & ? & _); done).
  destruct (decide (d < 100)) as [Hd100|Hd100];
    [rewrite (bool_decide_eq_true_2 (d < 100)) by done
    |rewrite (bool_decide_eq_false_2 (d < 100)) by done].
  - destruct (scroll_closes_gate b fx y0 p HandleScrollTop Hp Hopen) as [Hin Hrel].
    fold p1 in Hin, Hrel.
    assert (Hclosed : HandleScrollTop ∈ inThrottle (pass b d p1)).
    { assert (Hc1 : clock (dom p1) = clock (dom p)) by apply scroll_clock.
      apply pass_keeps_gate; [done | done |].
      eapply Forall_impl; [exact Hrel|]. intros x Hx. simpl in Hx. lia. }
    rewrite bool_decide_eq_false_2 by tauto.
    by rewrite pass_hasClass_other.
  - rewrite bool_decide_eq_true_2; [done|].
    rewrite pass_opens_gates by (done || lia). repeat split; try done; set_solver.
Qed.

(** *** The scroll spy *)

Lemma spyLink_getAttribute (current : string) acc link n (a : string) :
  getAttribute (spyLink current acc link) n a = getAttribute acc n a.
Proof.
  unfold spyLink. cbv zeta.
  assert (H1 : ∀ x, getAttribute (update link (class_remove "active") x) n a = getAttribute x n a)
    by (intros x; by apply getAttribute_update_keeps).
  destruct (getAttribute _ link "href") as [href|]; [|done].
  destruct (includesb current href); [|done].
  by rewrite getAttribute_update_keeps.
Qed.

Lemma spyLink_active (current : string) acc link n :
  is_Some (nodes acc !! n) →
  hasClass (spyLink current acc link) n "active" =
  if decide (link = n)
  then from_option (includesb current) false (getAttribute acc n "href")
  else hasClass acc n "active".
Proof.
  intros [e He]. unfold spyLink. cbv zeta.
  rewrite (getAttribute_update_keeps acc link link (class_remove "active") "href") by done.
  assert (H1 : hasClass (update link (class_remove "active") acc) n "active"
               = if decide (link = n) then false else hasClass acc n "active").
  { rewrite hasClass_update. destruct (decide (link = n)); [|done]. rewrite He. simpl.
    by rewrite class_contains_remove, bool_decide_eq_true_2. }
  destruct (decide (link = n)) as [->|Hne].
  - destruct (getAttribute acc n "href") as [href|]; simpl; [|done].
    destruct (includesb current href); [|done].
    rewrite hasClass_update, decide_True by done.
    rewrite lookup_update, decide_True, He by done. simpl.
    by rewrite class_contains_add, bool_decide_eq_true_2.
  - destruct (getAttribute acc link "href") as [href|]; [|done].
    destruct (includesb current href); [|done].
    by rewrite hasClass_update, decide_False.
Qed.

Lemma spyLinks_active (current : string) (l : list node) acc n :
  NoDup l → is_Some (nodes acc !! n) →
  hasClass (foldl (spyLink current) acc l) n "active" =
  if decide (n ∈ l)
  then from_option (includesb current) false (getAttribute acc n "href")
  else hasClass acc n "active".
Proof.
  revert acc. induction l as [|x l IH]; intros acc Hnd Hn; cbn [foldl].
  - destruct (decide (n ∈ [])) as [Hin|]; [by apply elem_of_nil in Hin | done].
  - apply NoDup_cons in Hnd as [Hx Hnd]. rewrite IH; [|done|].
    + rewrite spyLink_getAttribute, spyLink_active by done.
      destruct (decide (x = n)) as [->|Hne].
      * rewrite decide_False by done. rewrite decide_True by by left. done.
      * destruct (decide (n ∈ l)) as [Hin|Hin].
        -- by rewrite decide_True by by right.
        -- rewrite decide_False; [done|]. rewrite elem_of_cons. naive_solver.
    + apply lookup_lt_is_Some. rewrite spyLink_length. by apply lookup_lt_is_Some.
Qed.

Lemma includesb_empty (s : string) : includesb "" s = true.
Proof. by destruct s. Qed.

Lemma currentSection_none s :
  (∀ section, section ∈ querySelectorAllWhere isSection (nodes s) →
              scrollY s < offsetTop section - 200) →
  currentSection offsetTop s = "".
Proof.
  intros Habove. unfold currentSection. apply (foldl_inv (λ c, c = "")); [|done].
  intros acc section Hsec ->. rewrite (proj2 (Z.leb_gt _ _)); [done|]. by apply Habove.
Qed.


End ScrollFacts.

Section ObserverFacts.

Context `{host : Host}.
Context (offsetTop : node → Z).

Implicit Types (b : Bindings) (fx : EffectBindings) (p : Page) (s : State)
  (n img : node) (entry : node * bool) (entries : list (node * bool)).

(** *** The lazy images *)

Lemma imageObserver_entry_other p entry n :
  entry.1 ≠ n →
  let p' := imageObserver_entry p entry in
  nodes (dom p') !! n = nodes (dom p) !! n ∧ (n ∈ imageObserved p' ↔ n ∈ imageObserved p).
Proof.
  intros Hne. destruct entry as [img []]; cbn [imageObserver_entry]; [|done]. simpl in Hne.
  split.
  - destruct (getAttribute (dom p) img "data-src") as [src|]; [|done].
    destruct (Str.truthy src); [|done]. simpl.
    by rewrite !list_lookup_alter_ne.
  - simpl. assert (Hobs : ∀ q, imageObserved q ∖ {[img]} = imageObserved q ∖ {[img]}) by done.
    destruct (getAttribute (dom p) img "data-src") as [src|]; [|set_solver].
    destruct (Str.truthy src); set_solver.
Qed.

Lemma imageObserver_entry_data_src p entry n :
  getAttribute (dom (imageObserver_entry p entry)) n "data-src" = getAttribute (dom p) n "data-src".
Proof.
  destruct entry as [img []]; cbn [imageObserver_entry]; [|done].
  destruct (getAttribute (dom p) img "data-src") as [src|]; [|done].
  destruct (Str.truthy src); [|done]. simpl.
  rewrite (getAttribute_update_keeps _ img n (class_add "loaded") "data-src") by done.
  apply getAttribute_update_keeps. intros e. simpl. by rewrite lookup_insert_ne.
Qed.

Lemma imageObserver_entry_length p entry :
  length (nodes (dom (imageObserver_entry p entry))) = length (nodes (dom p)).
Proof.
  destruct entry as [img []]; cbn [imageObserver_entry]; [|done].
  destruct (getAttribute (dom p) img "data-src") as [src|]; [|done].
  destruct (Str.truthy src); [|done]. simpl. by rewrite !length_alter.
Qed.

Lemma imageObserver_entry_observed p entry n :
  n ∈ imageObserved (imageObserver_entry p entry) → n ∈ imageObserved p.
Proof.
  destruct entry as [img []]; cbn [imageObserver_entry]; [|done].
  destruct (getAttribute (dom p) img "data-src") as [src|]; [|set_solver].
  destruct (Str.truthy src); set_solver.
Qed.

(** An intersecting entry for [img]: the image is loaded when [data-src]
    holds a source, left as it is otherwise, and unobserved either way. *)
Lemma imageObserver_entry_self p img :
  is_Some (nodes (dom p) !! img) →
  let p' := imageObserver_entry p (img, true) in
  (img ∉ imageObserved p')
  ∧ match getAttribute (dom p) img "data-src" with
    | Some src =>
        if Str.truthy src
        then getAttribute (dom p') img "src" = Some src ∧ hasClass (dom p') img "loaded" = true
        else dom p' = dom p
    | None => dom p' = dom p
    end.
Proof.
  intros [e He]. cbn [imageObserver_entry]. cbv zeta. split.
  - destruct (getAttribute (dom p) img "data-src") as [src|]; [|set_solver].
    destruct (Str.truthy src); set_solver.
  - destruct (getAttribute (dom p) img "data-src") as [src|]; [|done].
    destruct (Str.truthy src); [|done]. simpl. split.
    + unfold getAttribute. simpl. rewrite !list_lookup_alter_eq, He. simpl.
      by rewrite lookup_insert_eq.
    + unfold hasClass. simpl. rewrite !list_lookup_alter_eq, He. simpl.
      by rewrite class_contains_add, bool_decide_eq_true_2.
Qed.

Lemma getAttribute_lookup s s' n (a : string) :
  nodes s' !! n = nodes s !! n → getAttribute s' n a = getAttribute s n a.
Proof. unfold getAttribute. by intros ->. Qed.

Lemma hasClass_lookup s s' n (c : string) :
  nodes s' !! n = nodes s !! n → hasClass s' n c = hasClass s n c.
Proof. unfold hasClass. by intros ->. Qed.

(** An image that was loaded stays loaded, whatever entries follow. *)
Lemma imageObserver_entry_loaded p entry img (src : string) :
  getAttribute (dom p) img "data-src" = Some src → Str.truthy src = true →
  getAttribute (dom p) img "src" = Some src ∧ hasClass (dom p) img "loaded" = true
  ∧ img ∉ imageObserved p →
  let p' := imageObserver_entry p entry in
  getAttribute (dom p') img "src" = Some src ∧ hasClass (dom p') img "loaded" = true
  ∧ img ∉ imageObserved p'.
Proof.
  intros Hds Ht (Hsrc & Hcls & Hobs). cbv zeta.
  destruct (decide (entry.1 = img)) as [Heq|Hne].
  - destruct entry as [n []]; simpl in Heq; subst n; [|done].
    assert (Hst : is_Some (nodes (dom p) !! img)).
    { unfold getAttribute in Hds. destruct (nodes (dom p) !! img); [by eexists | done]. }
    destruct (imageObserver_entry_self p img Hst) as [Ho Hd].
    rewrite Hds, Ht in Hd. tauto.
  - destruct (imageObserver_entry_other p entry img Hne) as [Hl Ho].
    rewrite (getAttribute_lookup _ _ _ _ Hl), (hasClass_lookup _ _ _ _ Hl). tauto.
Qed.

Lemma imageObserver_entries_load entries p img (src : string) :
  getAttribute (dom p) img "data-src" = Some src → Str.truthy src = true →
  (img, true) ∈ entries →
  let p' := foldl imageObserver_entry p entries in
  getAttribute (dom p') img "src" = Some src ∧ hasClass (dom p') img "loaded" = true
  ∧ img ∉ imageObserved p'.
Proof.
  intros Hds Ht. revert p Hds. induction entries as [|e l IH]; intros p Hds Hin; cbv zeta.
  - by apply elem_of_nil in Hin.
  - cbn [foldl]. apply elem_of_cons in Hin as [<-|Hin].
    + assert (Hst : is_Some (nodes (dom p) !! img)).
      { unfold getAttribute in Hds. destruct (nodes (dom p) !! img); [by eexists | done]. }
      destruct (imageObserver_entry_self p img Hst) as [Ho Hd]. rewrite Hds, Ht in Hd.
      apply (foldl_inv (λ acc, getAttribute (dom acc) img "data-src" = Some src
                               ∧ getAttribute (dom acc) img "src" = Some src
                               ∧ hasClass (dom acc) img "loaded" = true
                               ∧ img ∉ imageObserved acc)).
      * intros acc entry _ (Hds' & Hrest). split; [by rewrite imageObserver_entry_data_src|].
        by apply imageObserver_entry_loaded.
      * split; [by rewrite imageObserver_entry_data_src | tauto].
    + apply IH; [by rewrite imageObserver_entry_data_src | done].
Qed.

Lemma imageObserver_entries_skip entries p img :
  is_Some (nodes (dom p) !! img) →
  from_option Str.truthy false (getAttribute (dom p) img "data-src") = false →
  let p' := foldl imageObserver_entry p entries in
  nodes (dom p') !! img = nodes (dom p) !! img
  ∧ (img ∉ imageObserved p ∨ (img, true) ∈ entries → img ∉ imageObserved p').
Proof.
  revert p. induction entries as [|e l IH]; intros p Hst Hds; cbv zeta.
  - split; [done|]. intros [?|Hin]; [done | by apply elem_of_nil in Hin].
  - cbn [foldl].
    assert (Hstep : nodes (dom (imageObserver_entry p e)) !! img = nodes (dom p) !! img
                    ∧ (img ∉ imageObserved p ∨ e = (img, true) →
                       img ∉ imageObserved (imageObserver_entry p e))).
    { destruct (decide (e.1 = img)) as [Heq|Hne].
      - destruct e as [n [|]]; simpl in Heq; subst n.
        + destruct (imageObserver_entry_self p img Hst) as [Ho Hd]. split; [|done].
          destruct (getAttribute (dom p) img "data-src") as [src|]; [|by rewrite Hd].
          simpl in Hds. rewrite Hds in Hd. by rewrite Hd.
        + split; [done|]. intros [?|?]; done.
      - destruct (imageObserver_entry_other p e img Hne) as [Hl Ho]. split; [done|].
        intros [Hn|Heq]; [tauto | by subst e]. }
    destruct Hstep as [Hl Ho].
    destruct (IH (imageObserver_entry p e)) as [Hl' Ho'].
    + by rewrite Hl.
    + by rewrite (getAttribute_lookup _ _ _ _ Hl).
    + split; [by rewrite Hl', Hl|]. intros Hcase. apply Ho'.
      destruct Hcase as [Hn|Hin]; [left; exact (Ho (or_introl Hn))|].
      apply elem_of_cons in Hin as [Heq|Hin]; [left; exact (Ho (or_intror (eq_sym Heq))) | by right].
Qed.

Lemma elem_of_observedEntries (observed : gset node) entries entry :
  entry ∈ observedEntries observed entries ↔ entry.1 ∈ observed ∧ entry ∈ entries.
Proof. unfold observedEntries. by rewrite list_elem_of_filter. Qed.

(** Entries that are not for [img] leave it alone. *)
Lemma imageObserver_entries_other entries p img :
  Forall (λ entry, entry.1 ≠ img) entries →
  nodes (dom (foldl imageObserver_entry p entries)) !! img = nodes (dom p) !! img.
Proof.
  intros Hall. revert p. induction Hall as [|e l He _ IH]; intros p; [done|].
  cbn [foldl]. rewrite IH. by destruct (imageObserver_entry_other p e img He).
Qed.

(** X18.  The first batch of entries in which an observed image intersects
    loads it: [src] becomes its [data-src] and it is marked [loaded].  It
    is observed no longer, and no later batch touches it. *)
Theorem lazy_image_loads_once b fx p img (src : string) entries :
  img ∈ imageObserved p →
  getAttribute (dom p) img "data-src" = Some src → src ≠ "" →
  (img, true) ∈ entries →
  let p' := dispatchPage offsetTop b fx (ImageEntries entries) p in
  getAttribute (dom p') img "src" = Some src
  ∧ hasClass (dom p') img "loaded" = true
  ∧ (img ∉ imageObserved p')
  ∧ ∀ later, nodes (dom (dispatchPage offsetTop b fx (ImageEntries later) p')) !! img
             = nodes (dom p') !! img.
Proof.
  intros Hobs Hds Hne Hin. cbn [dispatchPage]. cbv zeta.
  destruct (imageObserver_entries_load (observedEntries (imageObserved p) entries) p img src)
    as (Hsrc & Hcls & Hun); [done | by apply truthy_spec | by apply elem_of_observedEntries |].
  split; [done|]. split; [done|]. split; [done|].
  intros later. apply imageObserver_entries_other. apply Forall_forall.
  intros entry Hentry. apply elem_of_observedEntries in Hentry as [Hentry _]. congruence.
Qed.

(** X19.  An observed image whose [data-src] is empty is not loaded when it
    intersects, and it is unobserved all the same: it never loads. *)
Theorem lazy_image_without_source_never_loads b fx p img entries :
  img ∈ imageObserved p → is_Some (nodes (dom p) !! img) →
  from_option Str.truthy false (getAttribute (dom p) img "data-src") = false →
  (img, true) ∈ entries →
  let p' := dispatchPage offsetTop b fx (ImageEntries entries) p in
  nodes (dom p') !! img = nodes (dom p) !! img
  ∧ (img ∉ imageObserved p')
  ∧ ∀ later, nodes (dom (dispatchPage offsetTop b fx (ImageEntries later) p')) !! img
             = nodes (dom p) !! img.
Proof.
  intros Hobs Hst Hds Hin. cbn [dispatchPage]. cbv zeta.
  destruct (imageObserver_entries_skip (observedEntries (imageObserved p) entries) p img Hst Hds)
    as [Hl Hun].
  assert (Hin' : (img, true) ∈ observedEntries (imageObserved p) entries)
    by by apply elem_of_observedEntries.
  assert (Hun' := Hun (or_intror Hin')).
  split; [done|]. split; [done|].
  intros later. rewrite <- Hl. apply imageObserver_entries_other. apply Forall_forall.
  intros entry Hentry. apply elem_of_observedEntries in Hentry as [Hentry _]. congruence.
Qed.

(** *** The enter animation *)

Lemma animateOnScroll_entry_hasClass s entry n (c : string) :
  is_Some (nodes s !! n) →
  hasClass (animateOnScroll_entry s entry) n c =
  hasClass s n c || bool_decide (entry = (n, true) ∧ c = "animate-in").
Proof.
  intros [e He]. destruct entry as [target [|]]; cbn [animateOnScroll_entry].
  - rewrite hasClass_update. destruct (decide (target = n)) as [->|Hne].
    + rewrite He. simpl. rewrite class_contains_add. unfold hasClass. rewrite He. simpl.
      rewrite orb_comm. f_equal. apply bool_decide_ext. naive_solver.
    + rewrite bool_decide_eq_false_2; [by rewrite orb_false_r|]. naive_solver.
  - rewrite bool_decide_eq_false_2; [by rewrite orb_false_r|]. naive_solver.
Qed.

Lemma animateOnScroll_entries_hasClass entries s n (c : string) :
  is_Some (nodes s !! n) →
  hasClass (foldl animateOnScroll_entry s entries) n c =
  hasClass s n c || bool_decide ((n, true) ∈ entries ∧ c = "animate-in").
Proof.
  revert s. induction entries as [|e l IH]; intros s Hn; cbn [foldl].
  - rewrite bool_decide_eq_false_2; [by rewrite orb_false_r|].
    intros [Hin _]. by apply elem_of_nil in Hin.
  - assert (Hn' : is_Some (nodes (animateOnScroll_entry s e) !! n)).
    { destruct e as [t []]; cbn [animateOnScroll_entry]; [|done].
      apply lookup_lt_is_Some. rewrite length_update. by apply lookup_lt_is_Some. }
    rewrite IH by done. rewrite animateOnScroll_entry_hasClass by done.
    rewrite <- orb_assoc. f_equal.
    apply eq_true_iff_eq. rewrite orb_true_iff, !bool_decide_eq_true, elem_of_cons. naive_solver.
Qed.

(** X20.  An element that is watched for its entry gets [animate-in] when it
    first intersects and keeps it: no batch of entries takes a class away. *)
Theorem animate_in_is_added_and_kept b fx p target entries (c : string) :
  target ∈ animateElements fx → is_Some (nodes (dom p) !! target) →
  let p' := dispatchPage offsetTop b fx (AnimateEntries entries) p in
  hasClass (dom p') target c =
  hasClass (dom p) target c || bool_decide ((target, true) ∈ entries ∧ c = "animate-in").
Proof.
  intros Htarget Hst. cbn [dispatchPage]. cbv zeta. simpl.
  rewrite animateOnScroll_entries_hasClass by done. f_equal.
  apply bool_decide_ext. rewrite elem_of_observedEntries. simpl. set_solver.
Qed.

End ObserverFacts.

Section StyleFacts.

Context `{host : Host}.
Context (offsetTop : node → Z).

Implicit Types (b : Bindings) (fx : EffectBindings) (p : Page) (s : State)
  (n bar : node) (k v : string) (d : Deferred).

Lemma styleOf_update_keeps s n m (f : Element → Element) k :
  (∀ e, style (f e) = style e) → styleOf (update n f s) m k = styleOf s m k.
Proof.
  intros Hf. unfold styleOf. rewrite lookup_update.
  destruct (decide (n = m)); [|done]. destruct (nodes s !! m); simpl; [by rewrite Hf | done].
Qed.

Lemma styleOf_whenBound s (o : option node) m (f : Element → Element) k :
  (∀ e, style (f e) = style e) → styleOf (whenBound o f s) m k = styleOf s m k.
Proof. intros Hf. destruct o; simpl; [by apply styleOf_update_keeps | done]. Qed.

(** No timer callback of the controllers writes an inline style. *)
Lemma runTask_styleOf b (t : Task) s n k : styleOf (runTask b t s) n k = styleOf s n k.
Proof.
  destruct t; cbn [runTask].
  - by apply styleOf_update_keeps.
  - unfold validateForm.
    transitivity (styleOf (clearTimeout (debounceTimeout s !! input) s) n k).
    + by destruct (formIsValid b _); apply styleOf_whenBound.
    + by destruct (debounceTimeout s !! input).
  - unfold submit_resume. simpl. by apply (styleOf_whenBound s (formBtn b)).
  - unfold submit_reset.
    apply (foldl_keeps (λ acc, styleOf acc n k = styleOf s n k)).
    + intros acc x _ <-. by apply styleOf_update_keeps.
    + rewrite styleOf_whenBound by done.
      destruct (form b); [|done]. unfold formReset.
      apply (foldl_keeps (λ acc, styleOf acc n k = styleOf s n k)); [|done].
      intros acc x _ <-. by apply styleOf_update_keeps.
Qed.

Lemma fire_styleOf b tm q s n k : styleOf (fire b tm q s) n k = styleOf s n k.
Proof. unfold fire. by rewrite runTask_styleOf. Qed.

(** What a callback of the effects does to an inline style. *)
Lemma fireJob_styleOf d rest p n k :
  is_Some (nodes (dom p) !! n) →
  styleOf (dom (fireJob d rest p)) n k =
  match jobStyle (job d) with
  | Some (n', k', v) => if decide (n' = n ∧ k' = k) then Some v else styleOf (dom p) n k
  | None => styleOf (dom p) n k
  end.
Proof.
  intros [e He]. unfold fireJob. destruct (job d) as [h|bar w|pre]; simpl; [done| |].
  - unfold styleOf. simpl. destruct (decide (bar = n ∧ "width" = k)) as [[-> <-]|Hne].
    + rewrite list_lookup_alter_eq, He. simpl. by rewrite lookup_insert_eq.
    + destruct (decide (bar = n)) as [->|Hn].
      * rewrite list_lookup_alter_eq, He. simpl. rewrite lookup_insert_ne; [done|]. naive_solver.
      * by rewrite list_lookup_alter_ne.
  - unfold styleOf. simpl. destruct (decide (pre = n ∧ "display" = k)) as [[-> <-]|Hne].
    + rewrite list_lookup_alter_eq, He. simpl. by rewrite lookup_insert_eq.
    + destruct (decide (pre = n)) as [->|Hn].
      * rewrite list_lookup_alter_eq, He. simpl. rewrite lookup_insert_ne; [done|]. naive_solver.
      * by rewrite list_lookup_alter_ne.
Qed.

(** A style write that is waiting, and due, has landed when the time has
    passed, provided every write waiting for that property agrees. *)
Lemma pass_lands_style b (ms : Z) p n k v :
  queuesInv p → 0 ≤ ms → is_Some (nodes (dom p) !! n) →
  (∃ d, d ∈ jobs p ∧ jobStyle (job d) = Some (n, k, v) ∧ jobDue d ≤ clock (dom p) + ms) →
  (∀ d v', d ∈ jobs p → jobStyle (job d) = Some (n, k, v') → v' = v) →
  styleOf (dom (pass b ms p)) n k = Some v.
Proof.
  intros Hinv Hms Hst Hex Hall. set (T := clock (dom p) + ms).
  pose (I := λ acc : Page,
          is_Some (nodes (dom acc) !! n)
          ∧ (∀ d v', d ∈ jobs acc → jobStyle (job d) = Some (n, k, v') → v' = v)
          ∧ (styleOf (dom acc) n k = Some v
             ∨ ∃ d, d ∈ jobs acc ∧ jobStyle (job d) = Some (n, k, v) ∧ jobDue d ≤ T)).
  assert (HI : I (pass b ms p)).
  { unfold pass. fold T. apply (runPending_invariant b T I); try done.
    - intros acc tm q _ _ _ (Hs & Ha & Hor). split; [by apply fire_in_store|]. split; [done|].
      simpl. rewrite fire_styleOf. done.
    - intros acc d rest Hj _ _ (Hs & Ha & Hor). rewrite Hj in Ha, Hor.
      split; [by apply fireJob_in_store|]. rewrite fireJob_jobs.
      split; [intros d' v' Hd'; apply Ha; by right|].
      rewrite fireJob_styleOf by done.
      destruct (jobStyle (job d)) as [[[n' k'] w]|] eqn:Hjs.
      + destruct (decide (n' = n ∧ k' = k)) as [[-> ->]|Hne].
        * left. f_equal. apply (Ha d); [by left | done].
        * destruct Hor as [?|(d' & Hd' & Hs' & Hdue)]; [by left|].
          apply elem_of_cons in Hd' as [->|Hd']; [|right; by exists d'].
          rewrite Hjs in Hs'. injection Hs' as -> -> ->. naive_solver.
      + destruct Hor as [?|(d' & Hd' & Hs' & Hdue)]; [by left|].
        apply elem_of_cons in Hd' as [->|Hd']; [congruence|]. right. by exists d'.
    - split; [done|]. split; [done|]. by right. }
  destruct HI as (_ & _ & [Hdone|(d & Hd & _ & Hdue)]); [done|]. exfalso.
  unfold pass in Hd. fold T in Hd.
  destruct (runPending_settles b T (S (pendingRounds (timers (dom p)) + length (jobs p))) p)
    as (_ & _ & _ & Hlater); [done | unfold T; lia | lia |].
  rewrite Forall_forall in Hlater. specialize (Hlater d Hd). lia.
Qed.

(** A style that no due callback writes is as it was. *)
Lemma pass_keeps_style b (ms : Z) p n k :
  queuesInv p → is_Some (nodes (dom p) !! n) →
  (∀ d v, d ∈ jobs p → jobStyle (job d) = Some (n, k, v) → clock (dom p) + ms < jobDue d) →
  styleOf (dom (pass b ms p)) n k = styleOf (dom p) n k.
Proof.
  intros Hinv Hst Hall. set (T := clock (dom p) + ms).
  pose (I := λ acc : Page,
          is_Some (nodes (dom acc) !! n)
          ∧ (∀ d v, d ∈ jobs acc → jobStyle (job d) = Some (n, k, v) → T < jobDue d)
          ∧ styleOf (dom acc) n k = styleOf (dom p) n k).
  assert (HI : I (pass b ms p)); [|by destruct HI as (_ & _ & ?)].
  unfold pass. fold T. apply (runPending_invariant b T I); try done.
  - intros acc tm q _ _ _ (Hs & Ha & Hsame). split; [by apply fire_in_store|]. split; [done|].
    rewrite <- Hsame. apply fire_styleOf.
  - intros acc d rest Hj Hdue _ (Hs & Ha & Hsame). rewrite Hj in Ha.
    split; [by apply fireJob_in_store|]. rewrite fireJob_jobs.
    split; [intros d' v' Hd'; apply Ha; by right|].
    rewrite <- Hsame, fireJob_styleOf by done.
    destruct (jobStyle (job d)) as [[[n' k'] w]|] eqn:Hjs; [|done].
    destruct (decide (n' = n ∧ k' = k)) as [[-> ->]|Hne]; [|done].
    specialize (Ha d w (list_elem_of_here _ _) Hjs). lia.
Qed.

(** *** The skill bars *)

Lemma progressOf_nodes s s' bar : nodes s' = nodes s → progressOf s' bar = progressOf s bar.
Proof. intros Hn. unfold progressOf. by rewrite (getAttribute_nodes s s'). Qed.

(** What a batch of entries leaves in the queue for one bar: fills with
    the bar's target width, [100] ms ahead. *)
Lemma skillObserver_entries_bar entries p bar :
  (∀ d v, d ∈ jobs p → job d ≠ FillSkillBar bar v) →
  let pr := progressOf (dom p) bar in
  let r := foldl skillObserver_entry p entries in
  nodes (dom r) = nodes (dom p) ∧ clock (dom r) = clock (dom p)
  ∧ (∀ d v, d ∈ jobs r → job d = FillSkillBar bar v → v = pr ∧ jobDue d = clock (dom p) + 100)
  ∧ ((bar, true) ∈ entries →
     (bar ∉ skillObserved r)
     ∧ ∃ d, d ∈ jobs r ∧ job d = FillSkillBar bar pr ∧ jobDue d = clock (dom p) + 100).
Proof.
  intros Hnone pr.
  pose (Inv := λ acc : Page,
          nodes (dom acc) = nodes (dom p) ∧ clock (dom acc) = clock (dom p)
          ∧ (∀ d v, d ∈ jobs acc → job d = FillSkillBar bar v →
                    v = pr ∧ jobDue d = clock (dom p) + 100)).
  pose (Done := λ acc : Page,
          (bar ∉ skillObserved acc)
          ∧ ∃ d, d ∈ jobs acc ∧ job d = FillSkillBar bar pr ∧ jobDue d = clock (dom p) + 100).
  assert (Hstep : ∀ acc e, Inv acc →
            Inv (skillObserver_entry acc e)
            ∧ (e = (bar, true) ∨ Done acc → Done (skillObserver_entry acc e))).
  { intros acc [n isIntersecting] (Hn & Hc & Hj). destruct isIntersecting; cbn [skillObserver_entry].
    - fold (progressOf (dom acc) n). split.
      + split; [done|]. split; [done|]. intros d v Hd Hjob. simpl in Hd.
        apply elem_of_enqueueJob in Hd as [->|Hd]; [|by apply (Hj d)].
        simpl in Hjob. injection Hjob as -> <-. simpl.
        split; [by apply progressOf_nodes | lia].
      + intros Hcase. split.
        * simpl. destruct Hcase as [[= ->]|[Ho _]]; set_solver.
        * destruct Hcase as [[= ->]|(_ & d & Hd & Hjob & Hdue)].
          -- eexists. split; [simpl; apply elem_of_enqueueJob; by left|]. simpl.
             split; [f_equal; by apply progressOf_nodes | lia].
          -- exists d. split; [simpl; apply elem_of_enqueueJob; by right | done].
    - split; [done|]. by intros [?|?]. }
  assert (Hfold : ∀ l acc, Inv acc →
            Inv (foldl skillObserver_entry acc l)
            ∧ ((bar, true) ∈ l ∨ Done acc → Done (foldl skillObserver_entry acc l))).
  { induction l as [|e l IH]; intros acc Hacc; cbn [foldl].
    - split; [done|]. intros [Hin|?]; [by apply elem_of_nil in Hin | done].
    - destruct (Hstep acc e Hacc) as [Hinv Hdone].
      destruct (IH _ Hinv) as [Hinv' Hdone']. split; [done|].
      intros [Hin|Hd]; apply Hdone'.
      + apply elem_of_cons in Hin as [<-|Hin]; [right; apply Hdone; by left | by left].
      + right. apply Hdone. by right. }
  destruct (Hfold entries p) as [(Hn & Hc & Hj) Hdone].
  { split; [done|]. split; [done|]. intros d v Hd Hjob. by destruct (Hnone d v Hd). }
  cbv zeta. split; [done|]. split; [done|]. split; [done|].
  intros Hin. apply Hdone. by left.
Qed.


(** *** The preloader *)

(** X24.  When the window has loaded the preloader is [hidden] at once, and
    half a second later it is taken out of the layout. *)
Theorem preloader_hides_after_load b fx p pre (d : Z) :
  pageReady p → preloader fx = Some pre → is_Some (nodes (dom p) !! pre) → 500 ≤ d →
  let p1 := dispatchPage offsetTop b fx WindowLoad p in
  hasClass (dom p1) pre "hidden" = true
  ∧ hasClass (dom (pass b d p1)) pre "hidden" = true
  ∧ styleOf (dom (pass b d p1)) pre "display" = Some "none".
Proof.
  intros Hp Hpre [e He] Hd p1.
  assert (Hp1 : pageReady p1) by (apply dispatchPage_ready; [by intros ms | done]).
  assert (Hq1 : queuesInv p1) by by apply pageReady_queues.
  assert (H1 : hasClass (dom p1) pre "hidden" = true).
  { unfold p1. cbn [dispatchPage]. unfold preloader_load. rewrite Hpre. simpl.
    unfold hasClass. simpl. rewrite list_lookup_alter_eq, He. simpl.
    by rewrite class_contains_add, bool_decide_eq_true_2. }
  assert (Hst1 : is_Some (nodes (dom p1) !! pre)).
  { unfold p1. cbn [dispatchPage]. unfold preloader_load. rewrite Hpre. simpl.
    rewrite list_lookup_alter_eq, He. by eexists. }
  split; [done|]. split; [by rewrite pass_hasClass_other|].
  apply pass_lands_style; [done | lia | done | |].
  - unfold p1. cbn [dispatchPage]. unfold preloader_load. rewrite Hpre.
    eexists. split; [simpl; apply elem_of_enqueueJob; by left|]. simpl. split; [done | lia].
  - intros d' v Hd' Hjs. destruct (job d'); simpl in Hjs; [done | done |]. by injection Hjs.
Qed.

End StyleFacts.

(** ** Clicks in the document: sidebar, dropdown, Escape *)

Section OutsideClickFacts.

Context `{host : Host}.

Implicit Types (b : Bindings) (s : State) (n : node).

Lemma contains_self (d : list Element) n : contains d n n = true.
Proof. unfold contains. destruct (length d); simpl; by rewrite bool_decide_eq_true_2. Qed.

Lemma contains_update s n (f : Element → Element) (a t : node) :
  (∀ e, sameHooks e (f e)) → contains (nodes (update n f s)) a t = contains (nodes s) a t.
Proof. intros Hf. apply contains_same, sameMarkup_update; [done | apply sameMarkup_refl]. Qed.

Lemma getAttribute_attr_set s n (a v : string) :
  is_Some (nodes s !! n) → getAttribute (update n (attr_set a v) s) n a = Some v.
Proof.
  intros [e He]. unfold getAttribute. rewrite lookup_update, decide_True, He by done.
  simpl. apply lookup_insert_eq.
Qed.

Lemma is_Some_update s n m (f : Element → Element) :
  is_Some (nodes (update n f s) !! m) ↔ is_Some (nodes s !! m).
Proof. by rewrite !lookup_lt_is_Some, length_update. Qed.

Lemma sidebarBtn_click_active b s sb btn :
  sidebar b = Some sb → sidebarBtn b = Some btn → is_Some (nodes s !! sb) →
  hasClass (sidebarBtn_click b s) sb "active" = negb (hasClass s sb "active").
Proof.
  intros Hsb Hbtn Hin. unfold sidebarBtn_click, elementToggleFunc. rewrite Hsb, Hbtn. cbv zeta.
  rewrite hasClass_update_keeps by done.
  rewrite hasClass_toggle by (by apply lookup_lt_is_Some). by rewrite decide_True.
Qed.


(** X2.  A click elsewhere in the document only ever closes the sidebar:
    afterwards the sidebar is open exactly when it was open and the click
    was inside it or inside its button.  When it closes, [aria-expanded]
    becomes "false"; in every other case nothing changes. *)
Theorem sidebar_outside_click_only_closes b s sb btn target :
  sidebar b = Some sb → sidebarBtn b = Some btn →
  is_Some (nodes s !! sb) → is_Some (nodes s !! btn) →
  let outside := negb (contains (nodes s) sb target) && negb (contains (nodes s) btn target) in
  let s' := sidebar_outside_click b target s in
  hasClass s' sb "active" = hasClass s sb "active" && negb outside
  ∧ (if hasClass s sb "active" && outside
     then getAttribute s' btn "aria-expanded" = Some "false"
     else s' = s).
Proof.
  intros Hsb Hbtn Hin Hbin outside s'. unfold s', sidebar_outside_click. rewrite Hsb, Hbtn.
  rewrite <- andb_assoc. fold outside.
  destruct (hasClass s sb "active") eqn:Hact; simpl; [|done].
  destruct outside; simpl; [|done]. unfold elementToggleFunc. split.
  - rewrite hasClass_update_keeps by done.
    rewrite hasClass_toggle by (by apply lookup_lt_is_Some). by rewrite decide_True, Hact.
  - apply getAttribute_attr_set. by apply is_Some_update.
Qed.

(** X7.  A click in the document only ever closes the dropdown of the
    portfolio filter: it leaves it open exactly when it was open and the
    click was inside it, and changes nothing unless it closes it.  So a click
    on the dropdown itself, heard by both listeners, toggles it once. *)
Theorem select_outside_click_only_closes b s sel target :
  select b = Some sel → is_Some (nodes s !! sel) →
  let s' := select_outside_click b target s in
  hasClass s' sel "active" = hasClass s sel "active" && contains (nodes s) sel target
  ∧ (hasClass s sel "active" && negb (contains (nodes s) sel target) = false → s' = s)
  ∧ hasClass (select_click b s) sel "active" = negb (hasClass s sel "active")
  ∧ (contains (nodes s) sel target = true →
     select_outside_click b target (select_click b s) = select_click b s).
Proof.
  intros Hsel Hin s'. unfold s', select_outside_click, select_click, elementToggleFunc.
  rewrite Hsel. repeat split.
  - destruct (hasClass s sel "active") eqn:Hact; simpl; [|done].
    destruct (contains (nodes s) sel target); simpl; [done|].
    rewrite hasClass_toggle by (by apply lookup_lt_is_Some). by rewrite decide_True, Hact.
  - by intros ->.
  - rewrite hasClass_toggle by (by apply lookup_lt_is_Some). by rewrite decide_True.
  - intros Hinside. rewrite contains_update, Hinside by auto with hooks.
    by rewrite andb_false_r.
Qed.

(** X6.  The key listener never opens the modal.  Unless the key is
    Escape and the container is active, it changes nothing; and after it
    the container is active only if it was and the key was another one. *)
Theorem escape_keydown_only_closes b s (key : string) :
  hooksInStore b s →
  (∀ n, modalContainer b = Some n → overlay b ≠ Some n) →
  let s' := escape_keydown b key s in
  (¬ modalOperation b s (KeyDown key) → s' = s)
  ∧ (∀ m, modalContainer b = Some m →
          hasClass s' m "active" = hasClass s m "active" && negb (bool_decide (key = "Escape"))).
Proof.
  intros [Hm Ho] Hdistinct s'. unfold s', escape_keydown. split.
  - intros Hno. destruct (modalContainer b) as [m|] eqn:Em; [|done].
    case_bool_decide as Hk; simpl; [|done].
    destruct (hasClass s m "active") eqn:Hact; [|done].
    exfalso. apply Hno. simpl. split; [done|]. by exists m.
  - intros m Em. rewrite Em. case_bool_decide as Hk; simpl; [|by rewrite andb_true_r].
    destruct (hasClass s m "active") eqn:Hact; [|done]. simpl.
    rewrite testimonialsModalFunc_hasClass, Em. simpl.
    rewrite hasClass_whenBound, decide_False by (by apply Hdistinct).
    rewrite hasClass_toggle by eauto. by rewrite decide_True, Hact.
Qed.

End OutsideClickFacts.

(** ** The theme icon *)

Section ThemeIconFacts.

Implicit Types (b : Bindings) (s : State) (n : node).

Lemma updateThemeIcon_icon b (theme : string) s toggle icon :
  themeToggle b = Some toggle →
  querySelectorIn toggle (TagIs "i") (nodes s) = Some icon →
  hasClass (updateThemeIcon b theme s) icon "fa-moon" = bool_decide (theme = "dark")
  ∧ hasClass (updateThemeIcon b theme s) icon "fa-sun" = negb (bool_decide (theme = "dark")).
Proof.
  intros Ht Hi. unfold updateThemeIcon. rewrite Ht, Hi.
  apply querySelectorIn_lookup in Hi as (e & He & _).
  rewrite !hasClass_update, !decide_True by done.
  rewrite !lookup_update, !decide_True, He by done. simpl.
  rewrite !class_contains_add, !class_contains_remove.
  destruct (bool_decide (theme = "dark")); repeat case_bool_decide; try done; simpl;
    by rewrite ?andb_false_r.
Qed.

(** X4.  After a click on the theme button the icon inside it shows the
    theme the page now has: the moon and not the sun when [data-theme] is
    "dark", the sun and not the moon when it is "light", whatever classes
    the icon had. *)
Theorem theme_icon_follows_theme b s toggle icon :
  themeToggle b = Some toggle →
  querySelectorIn toggle (TagIs "i") (nodes s) = Some icon →
  let s' := themeToggle_click b s in
  let dark := bool_decide (attributes (documentElement s') !! "data-theme" = Some "dark") in
  attributes (documentElement s') !! "data-theme" ∈ [Some "dark"; Some "light"]
  ∧ hasClass s' icon "fa-moon" = dark
  ∧ hasClass s' icon "fa-sun" = negb dark.
Proof.
  intros Ht Hi s' dark. unfold dark, s', themeToggle_click. rewrite Ht. cbv zeta.
  set (theme := if bool_decide (_ = Some "dark") then "light" else "dark").
  set (s2 := with_localStorage _ _).
  assert (Hdoc : documentElement (updateThemeIcon b theme s2)
                 = attr_set "data-theme" theme (documentElement s)).
  { unfold updateThemeIcon. rewrite Ht.
    by destruct (querySelectorIn toggle (TagIs "i") (nodes s2)). }
  destruct (updateThemeIcon_icon b theme s2 toggle icon Ht Hi) as [Hmoon Hsun].
  cbn [documentElement with_body]. rewrite Hdoc.
  change (hasClass (with_body _ ?x) icon ?c) with (hasClass x icon c).
  rewrite Hmoon, Hsun. simpl. rewrite lookup_insert_eq.
  unfold theme.
  destruct (bool_decide (attributes (documentElement s) !! "data-theme" = Some "dark"));
    (split; [set_solver|]); split; reflexivity.
Qed.

End ThemeIconFacts.

(** ** The debounced validation *)

Section DebounceFacts.

Context `{host : Host}.

Implicit Types (b : Bindings) (s : State) (n : node).

(** X10.  An input event on a form input leaves exactly one validation
    of that input waiting, due 300 ms from now: one that was waiting
    already is cancelled, not added to.  No other timer is started and
    the clock does not move. *)
Theorem input_restarts_debounce b s input (newValue : string) :
  wellTimed s → input ∈ formInputs b →
  let s1 := stateOf (dispatch b (FormInputInput input newValue) s) in
  let tm0 := mkTimer (nextTimerId s) (clock s + 300) (DebounceLater input) in
  clock s1 = clock s
  ∧ tm0 ∈ timers s1
  ∧ (∀ tm, tm ∈ timers s1 → task tm = DebounceLater input → tm = tm0)
  ∧ (∀ tm, tm ∈ timers s1 → tm = tm0 ∨ tm ∈ timers s)
  ∧ wellTimed s1.
Proof.
  intros [Hwf Hsettled] Hinput s1 tm0.
  set (s0 := update input (with_value newValue) s).
  assert (Hs1 : s1 = debounced input 300 s0).
  { unfold s1. cbn [dispatch stateOf]. by rewrite bool_decide_eq_true_2. }
  set (q := timers (clearTimeout (debounceTimeout s0 !! input) s0)).
  assert (Hq1 : timers s1 = enqueue tm0 q).
  { rewrite Hs1. unfold debounced, q, tm0. simpl. by destruct (debounceTimeout s !! input). }
  assert (Hq : ∀ tm, tm ∈ q ↔ tm ∈ timers s ∧ debounceTimeout s !! input ≠ Some (timerId tm)).
  { intros tm. unfold q, s0, clearTimeout. simpl.
    destruct (debounceTimeout s !! input) as [i|]; simpl.
    - rewrite list_elem_of_filter. split; intros [? ?]; split; try done; congruence.
    - split; [by intros ? | by intros [? _]]. }
  destruct Hwf as (Hord & Hnd & Hlt & Hvar).
  split; [|split; [|split; [|split]]].
  - rewrite Hs1. unfold debounced. simpl. by rewrite clearTimeout_clock.
  - rewrite Hq1, elem_of_enqueue. by left.
  - intros tm. rewrite Hq1, elem_of_enqueue, Hq. intros [->|[Hin Hne]] Htask; [done|].
    exfalso. apply Hne. by apply Hvar.
  - intros tm. rewrite Hq1, elem_of_enqueue, Hq. intros [->|[Hin _]]; [by left | by right].
  - rewrite Hs1. split.
    + by apply debounced_wfQueue.
    + apply debounced_settled; [lia | done].
Qed.

End DebounceFacts.

(** ** The mobile menu *)

Section MobileMenuFacts.

Implicit Types (b : Bindings) (s : State) (n m : node) (e : Element).

Lemma class_contains_toggle_any (c c' : string) e :
  class_contains c (class_toggle c' e) = xorb (class_contains c e) (bool_decide (c = c')).
Proof.
  case_bool_decide as Hc.
  - subst c'. rewrite class_contains_toggle. by destruct (class_contains c e).
  - rewrite class_contains_toggle_ne by done. by destruct (class_contains c e).
Qed.

Lemma mobileMenuBtn_click_icon b s btn :
  querySelectorIn btn (TagIs "i") (nodes (mobileMenuBtn_click b s))
  = querySelectorIn btn (TagIs "i") (nodes s).
Proof. apply querySelectorIn_same; [done|]. apply mobileMenuBtn_click_keeps, sameMarkup_refl. Qed.

Lemma mobileMenuBtn_click_lookup b s btn nav m :
  mobileMenuBtn b = Some btn → navLinks b = Some nav →
  nodes (mobileMenuBtn_click b s) !! m
  = (λ e, let e1 := if decide (nav = m) then class_toggle "active" e else e in
          if decide (querySelectorIn btn (TagIs "i") (nodes s) = Some m)
          then class_toggle "fa-times" (class_toggle "fa-bars" e1) else e1)
    <$> nodes s !! m.
Proof.
  intros Hbtn Hnav. unfold mobileMenuBtn_click. rewrite Hbtn, Hnav. cbv zeta.
  rewrite (querySelectorIn_same btn (TagIs "i") (nodes s));
    [|done|apply sameMarkup_update; [auto with hooks | apply sameMarkup_refl]].
  destruct (querySelectorIn btn (TagIs "i") (nodes s)) as [icon|]; cbn [nodes with_body];
    rewrite ?lookup_update; repeat case_decide; simplify_eq; by destruct (nodes s !! m).
Qed.

Lemma mobileLink_click_lookup b s btn nav m :
  mobileMenuBtn b = Some btn → navLinks b = Some nav →
  nodes (mobileLink_click b s) !! m
  = (λ e, let e1 := if decide (nav = m) then class_remove "active" e else e in
          if decide (querySelectorIn btn (TagIs "i") (nodes s) = Some m)
          then class_add "fa-bars" (class_remove "fa-times" e1) else e1)
    <$> nodes s !! m.
Proof.
  intros Hbtn Hnav. unfold mobileLink_click. rewrite Hbtn, Hnav. cbv zeta.
  rewrite (querySelectorIn_same btn (TagIs "i") (nodes s));
    [|done|apply sameMarkup_update; [auto with hooks | apply sameMarkup_refl]].
  destruct (querySelectorIn btn (TagIs "i") (nodes s)) as [icon|]; cbn [nodes with_body];
    rewrite ?lookup_update; repeat case_decide; simplify_eq; by destruct (nodes s !! m).
Qed.

Lemma mobileMenuBtn_click_body b s btn nav :
  mobileMenuBtn b = Some btn → navLinks b = Some nav →
  body (mobileMenuBtn_click b s) = class_toggle "no-scroll" (body s).
Proof.
  intros Hbtn Hnav. unfold mobileMenuBtn_click. rewrite Hbtn, Hnav. cbv zeta.
  by destruct (querySelectorIn btn (TagIs "i") _).
Qed.

Lemma mobileLink_click_body b s btn nav :
  mobileMenuBtn b = Some btn → navLinks b = Some nav →
  body (mobileLink_click b s) = class_remove "no-scroll" (body s).
Proof.
  intros Hbtn Hnav. unfold mobileLink_click. rewrite Hbtn, Hnav. cbv zeta.
  by destruct (querySelectorIn btn (TagIs "i") _).
Qed.



End MobileMenuFacts.

(** ** The filter buttons and the navigation links *)

Section ButtonFacts.

Context `{host : Host}.

Implicit Types (b : Bindings) (s : State) (n : node).

Lemma filterFunc_active_stays_off b (v : string) s n :
  hasClass s n "active" = false → hasClass (filterFunc b v s) n "active" = false.
Proof.
  intros Hoff. unfold filterFunc.
  by destruct (filterLoop_spec v (filterItems b) s) as (_ & _ & _ & Hkeep & _); apply Hkeep.
Qed.

Lemma filterFunc_length b (v : string) s :
  length (nodes (filterFunc b v s)) = length (nodes s).
Proof. apply sameMarkup_length, filterFunc_keeps, sameMarkup_refl. Qed.

(** X9.  At most the filter button clicked last is highlighted.  Then a
    click on a filter button highlights that button and no other, and
    makes it the button clicked last; so the same holds after the click. *)
Theorem filterBtn_click_highlights_one b s btn :
  btn ∈ filterBtns b → is_Some (nodes s !! btn) →
  (∀ n, n ∈ filterBtns b → hasClass s n "active" = true → lastClickedBtn s = Some n) →
  let s' := stateOf (dispatch b (FilterBtnClick btn) s) in
  lastClickedBtn s' = Some btn
  ∧ (∀ n, n ∈ filterBtns b → hasClass s' n "active" = bool_decide (n = btn)).
Proof.
  intros Hbtn Hstore Hone s'. unfold s'. cbn [dispatch stateOf].
  rewrite bool_decide_eq_true_2 by done. unfold filterBtn_click. cbv zeta.
  set (s1 := match selectValue b with Some sv => _ | None => s end).
  set (s2 := filterFunc b _ s1).
  split; [done|]. intros n Hn.
  assert (H1 : ∀ c : string, hasClass s1 n c = hasClass s n c).
  { intros c. unfold s1. destruct (selectValue b); [|done]. by apply hasClass_update_keeps. }
  assert (Hlast : lastClickedBtn s2 = lastClickedBtn s).
  { unfold s2. rewrite filterFunc_lastClickedBtn. unfold s1. by destruct (selectValue b). }
  assert (Hlen : length (nodes s2) = length (nodes s)).
  { unfold s2. rewrite filterFunc_length. unfold s1. destruct (selectValue b); [|done].
    apply length_update. }
  change (hasClass (with_lastClickedBtn _ ?x) n "active") with (hasClass x n "active").
  rewrite hasClass_update. destruct (decide (btn = n)) as [<-|Hne].
  - rewrite bool_decide_eq_true_2 by done.
    assert (Hin : is_Some (nodes (whenBound (lastClickedBtn s2) (class_remove "active") s2) !! btn)).
    { apply lookup_lt_is_Some. destruct (lastClickedBtn s2); simpl; rewrite ?length_alter, Hlen;
        by apply lookup_lt_is_Some. }
    destruct Hin as [e ->]. simpl. rewrite class_contains_add. by rewrite bool_decide_eq_true_2.
  - rewrite bool_decide_eq_false_2 by done. rewrite Hlast, hasClass_whenBound.
    destruct (decide (lastClickedBtn s = Some n)) as [Hl|Hl].
    + destruct (nodes s2 !! n); simpl; [|done]. rewrite class_contains_remove.
      by rewrite bool_decide_eq_true_2.
    + unfold s2. apply filterFunc_active_stays_off. rewrite H1.
      destruct (hasClass s n "active") eqn:Hact; [|done]. by destruct Hl; apply Hone.
Qed.


End ButtonFacts.

(** ** Validation on a page without a form *)

Section FormlessFacts.

Context `{host : Host}.

Implicit Types (b : Bindings) (s : State) (n : node).

(** X11.  The markup has form inputs and a submit button but no
    [data-form] element.  Then [form?.checkValidity()] is [undefined], and
    300 ms after an input event the submit button is disabled, whatever was
    typed. *)
Theorem validation_without_form_disables b s input (newValue : string) btn :
  wellTimed s → input ∈ formInputs b → form b = None → formBtn b = Some btn →
  is_Some (nodes s !! btn) →
  let s1 := stateOf (dispatch b (FormInputInput input newValue) s) in
  isDisabled (elapse b 300 s1) btn = true.
Proof.
  intros [Hwf Hsettled] Hinput Hf Hbtn Hstore s1.
  set (s0 := update input (with_value newValue) s).
  assert (Hs1 : s1 = debounced input 300 s0).
  { unfold s1. cbn [dispatch stateOf]. by rewrite bool_decide_eq_true_2. }
  assert (Hwf0 : wfQueue s0) by done.
  set (q := timers (clearTimeout (debounceTimeout s0 !! input) s0)).
  set (tm0 := mkTimer (nextTimerId s) (clock s + 300) (DebounceLater input)).
  assert (Hq1 : timers s1 = enqueue tm0 q).
  { rewrite Hs1. unfold debounced, q, tm0. simpl. by destruct (debounceTimeout s !! input). }
  assert (Hc1 : clock s1 = clock s).
  { rewrite Hs1. unfold debounced. simpl. by rewrite clearTimeout_clock. }
  assert (Hwfq : wfQueue (clearTimeout (debounceTimeout s0 !! input) s0))
    by by apply clearTimeout_wfQueue.
  assert (Hsq : settled (clearTimeout (debounceTimeout s0 !! input) s0))
    by by apply clearTimeout_settled.
  destruct (elapse_fires_last b tm0 q 300 (λ acc, is_Some (nodes acc !! btn)) s1)
    as (acc & q' & Hacc & [e He] & _ & _ & Hs2); try done.
  - rewrite Hs1. by apply debounced_wfQueue.
  - by destruct Hwfq.
  - rewrite Hc1. unfold settled in Hsq. by rewrite clearTimeout_clock in Hsq.
  - simpl. lia.
  - intros acc tm q' _ _ Hsome. apply lookup_lt_is_Some.
    rewrite (sameMarkup_length (nodes acc) (nodes (fire b tm q' acc))).
    + by apply lookup_lt_is_Some.
    + apply fire_keeps, sameMarkup_refl.
  - rewrite Hs1, debounced_nodes. unfold s0. by apply is_Some_lookup_update.
  - rewrite Hs2. unfold fire, tm0. cbn [task runTask]. unfold validateForm, formIsValid.
    rewrite Hf, Hbtn. cbn [whenBound].
    rewrite isDisabled_update, decide_True, clearTimeout_nodes by done. simpl. rewrite He. simpl.
    apply bool_decide_eq_true. by rewrite lookup_insert_eq.
Qed.

End FormlessFacts.

(** ** What no event of the page changes *)

Section PageHookFacts.

Context `{host : Host}.
Context (offsetTop : node → Z).

Implicit Types (b : Bindings) (fx : EffectBindings) (p : Page) (d : list Element).

Lemma throttle_keeps (h : Throttled) (f : State → State) p d :
  keepsMarkup f → sameMarkup d (nodes (dom p)) →
  sameMarkup d (nodes (dom (throttle h (onDom f) 100 p))).
Proof. intros Hf Hd. rewrite throttle_nodes. case_bool_decide; [done | by apply Hf]. Qed.

Lemma handleScroll_func_keeps fx : keepsMarkup (handleScroll_func fx).
Proof. unfold handleScroll_func. keeps_markup. Qed.

Lemma handleScrollTop_func_keeps fx : keepsMarkup (handleScrollTop_func fx).
Proof. unfold handleScrollTop_func. keeps_markup. Qed.

Lemma updateActiveNavOnScroll_func_keeps b : keepsMarkup (updateActiveNavOnScroll_func offsetTop b).
Proof. unfold updateActiveNavOnScroll_func, spyLink. keeps_markup. Qed.

Lemma scroll_keeps b fx (y : Z) p d :
  sameMarkup d (nodes (dom p)) → sameMarkup d (nodes (dom (scroll offsetTop b fx y p))).
Proof.
  intros Hd. unfold scroll, updateActiveNavOnScroll, handleScrollTop, handleScroll.
  apply throttle_keeps; [apply updateActiveNavOnScroll_func_keeps|].
  apply throttle_keeps; [apply handleScrollTop_func_keeps|].
  by apply throttle_keeps; [apply handleScroll_func_keeps|].
Qed.

Lemma fireJob_keeps (d0 : Deferred) (rest : list Deferred) p d :
  sameMarkup d (nodes (dom p)) → sameMarkup d (nodes (dom (fireJob d0 rest p))).
Proof.
  intros Hd. unfold fireJob. destruct (job d0); simpl; [done|..];
    apply sameMarkup_alter; auto with hooks.
Qed.

Lemma pass_keeps b (ms : Z) p d :
  sameMarkup d (nodes (dom p)) → sameMarkup d (nodes (dom (pass b ms p))).
Proof.
  unfold pass. generalize (clock (dom p) + ms).
  generalize (S (pendingRounds (timers (dom p)) + length (jobs p))).
  intros fuel T. revert p. induction fuel as [|fuel IH]; intros p Hd; [done|].
  cbn [runPending]. destruct (step b p) as [[t p']|] eqn:Hs; [|done].
  destruct (t <=? T); [|done]. apply IH.
  apply step_cases in Hs as [(tm & q & _ & _ & -> & _)|(d0 & rest & _ & _ & -> & _)].
  - by apply fire_keeps.
  - by apply fireJob_keeps.
Qed.

Lemma imageObserver_entry_keeps p (entry : node * bool) d :
  sameMarkup d (nodes (dom p)) → sameMarkup d (nodes (dom (imageObserver_entry p entry))).
Proof.
  intros Hd. destruct entry as [img [|]]; [|done]. unfold imageObserver_entry.
  destruct (getAttribute (dom p) img "data-src") as [src|]; [|done].
  destruct (Str.truthy src); [|done]. simpl.
  apply sameMarkup_alter; [auto with hooks|]. apply sameMarkup_alter; [|done].
  intros e. apply sameHooks_attr_set. unfold scriptWrites. set_solver.
Qed.

Lemma skillObserver_entry_keeps p (entry : node * bool) d :
  sameMarkup d (nodes (dom p)) → sameMarkup d (nodes (dom (skillObserver_entry p entry))).
Proof. intros Hd. by destruct entry as [bar [|]]. Qed.

Lemma dispatchPage_keeps b fx (ev : PageEvent) p d :
  sameMarkup d (nodes (dom p)) → sameMarkup d (nodes (dom (dispatchPage offsetTop b fx ev p))).
Proof.
  intros Hd. destruct ev as [ev|y| |entries|entries|entries|]; cbn [dispatchPage].
  - assert (Hother : sameMarkup d (nodes (dom (onDom (λ s, stateOf (dispatch b ev s)) p))))
      by by apply dispatch_keeps.
    destruct ev; try exact Hother. by apply pass_keeps.
  - by apply scroll_keeps.
  - simpl. unfold scrollTopBtn_click. by destruct (scrollTopBtn fx).
  - apply (foldl_inv (λ acc, sameMarkup d (nodes (dom acc)))); [|done].
    intros acc entry _. apply imageObserver_entry_keeps.
  - simpl. apply (foldl_inv (λ acc, sameMarkup d (nodes acc))); [|done].
    intros acc [target [|]] _ Hacc; [|done]. simpl. apply sameMarkup_alter; auto with hooks.
  - apply (foldl_inv (λ acc, sameMarkup d (nodes (dom acc)))); [|done].
    intros acc entry _. apply skillObserver_entry_keeps.
  - unfold preloader_load. destruct (preloader fx); [|done]. simpl.
    apply sameMarkup_alter; auto with hooks.
Qed.

Lemma runPage_keeps b fx (evs : list PageEvent) p d :
  sameMarkup d (nodes (dom p)) → sameMarkup d (nodes (dom (runPage offsetTop b fx evs p))).
Proof.
  revert p. induction evs as [|ev evs IH]; intros p Hd; [done|].
  simpl. by apply IH, dispatchPage_keeps.
Qed.


(** X16.  However a session went, once nothing has happened for 100 ms
    every throttled listener is open again: the next scroll event is heard
    by all three, and closes all three gates. *)
Theorem throttle_gates_reopen b fx (evs : list PageEvent) p (ms y : Z) :
  pageReady p → Forall forward evs → 100 ≤ ms →
  let p1 := pass b ms (runPage offsetTop b fx evs p) in
  inThrottle p1 = ∅
  ∧ inThrottle (scroll offsetTop b fx y p1) = {[HandleScroll; HandleScrollTop; UpdateActiveNavOnScroll]}.
Proof.
  intros Hp Hevs Hms p1.
  assert (Hr : pageReady (runPage offsetTop b fx evs p)) by by apply runPage_ready.
  assert (Hopen : inThrottle p1 = ∅) by by apply pass_opens_gates.
  split; [done|].
  assert (Hr1 : pageReady p1) by (apply pass_ready; [lia | by apply pageReady_queues]).
  apply set_eq. intros h. split; [intros _; destruct h; set_solver|]. intros _.
  apply (scroll_closes_gate offsetTop b fx y p1 h Hr1). rewrite Hopen. set_solver.
Qed.

End PageHookFacts.

(** ** The theme over a session *)

Section ThemeSessionFacts.

Context `{host : Host}.

(** X3.  Once the script has run, and after any number of clicks on the
    theme button, [data-theme] on the root element is the stored
    preference, or "dark" when none or an empty one is stored. *)
Theorem theme_stays_in_step (b : Bindings) (s : State) (clicks : nat) :
  let s' := Nat.iter clicks (themeToggle_click b) (runScript b s) in
  attributes (documentElement s') !! "data-theme" = Some (storedTheme s').
Proof.
  cbv zeta. induction clicks as [|k IH].
  - apply runScript_theme.
  - rewrite Nat.iter_succ. destruct (themeToggle b) as [toggle|] eqn:Ht.
    + by destruct (themeToggle_click_theme b
                     (Nat.iter k (themeToggle_click b) (runScript b s)) toggle Ht) as [_ Hstep].
    + assert (Hid : ∀ x, themeToggle_click b x = x)
        by (intros x; unfold themeToggle_click; by rewrite Ht).
      by rewrite Hid.
Qed.

End ThemeSessionFacts.

(** * The effects at work

    The theorems on the rest of the script applied to sample markup. *)

Section MoreRuns.

#[local] Existing Instance ascii_host.

Import Sample.

Ltac by_compute := apply (bool_decide_unpack _); vm_compute; exact I.

Ltac forward_events :=
  repeat constructor; intros ? [= <-]; lia.

Lemma effectsPage_ready : pageReady effectsPage.
Proof. by apply openPage_ready. Qed.

(** *** Scrolling *)

Lemma header_hears_one_scroll_per_limit_sample :
  let p := effectsPage in
  let b := bind effectsMarkup in
  let fx := bindEffects effectsMarkup in
  let p1 := scroll sectionTops b fx 300 p in
  let p2 := scroll sectionTops b fx 0 (pass b 40 p1) in
  (pageReady p ∧ header fx = Some 0%nat ∧ is_Some (nodes (dom p) !! 0%nat)
   ∧ (HandleScroll ∉ inThrottle p) ∧ 0 ≤ 40)
  ∧ hasClass (dom p1) 0%nat "scrolled" = bool_decide (100 < 300)
  ∧ scrollY (dom p2) = 0
  ∧ hasClass (dom p2) 0%nat "scrolled"
    = bool_decide (100 < (if bool_decide (40 < 100) then 300 else 0)).
Proof.
  intros p b fx p1 p2.
  assert (H1 : pageReady p) by apply effectsPage_ready.
  assert (H2 : header fx = Some 0%nat) by (vm_compute; reflexivity).
  assert (H3 : is_Some (nodes (dom p) !! 0%nat)) by by_compute.
  assert (H4 : HandleScroll ∉ inThrottle p) by by_compute.
  assert (H5 : 0 ≤ 40) by lia.
  split; [done|].
  exact (header_hears_one_scroll_per_limit sectionTops b fx p 0%nat 300 0 40 H1 H2 H3 H4 H5).
Defined.

Lemma scrollTopBtn_hears_one_scroll_per_limit_sample :
  let p := effectsPage in
  let b := bind effectsMarkup in
  let fx := bindEffects effectsMarkup in
  let p1 := scroll sectionTops b fx 700 p in
  let p2 := scroll sectionTops b fx 0 (pass b 100 p1) in
  (pageReady p ∧ scrollTopBtn fx = Some 1%nat ∧ is_Some (nodes (dom p) !! 1%nat)
   ∧ (HandleScrollTop ∉ inThrottle p) ∧ 0 ≤ 100)
  ∧ hasClass (dom p1) 1%nat "visible" = bool_decide (500 < 700)
  ∧ hasClass (dom p2) 1%nat "visible"
    = bool_decide (500 < (if bool_decide (100 < 100) then 700 else 0)).
Proof.
  intros p b fx p1 p2.
  assert (H1 : pageReady p) by apply effectsPage_ready.
  assert (H2 : scrollTopBtn fx = Some 1%nat) by (vm_compute; reflexivity).
  assert (H3 : is_Some (nodes (dom p) !! 1%nat)) by by_compute.
  assert (H4 : HandleScrollTop ∉ inThrottle p) by by_compute.
  assert (H5 : 0 ≤ 100) by lia.
  split; [done|].
  exact (scrollTopBtn_hears_one_scroll_per_limit sectionTops b fx p 1%nat 700 0 100
           H1 H2 H3 H4 H5).
Defined.


Lemma throttle_gates_reopen_sample :
  let p := effectsPage in
  let b := bind effectsMarkup in
  let fx := bindEffects effectsMarkup in
  let evs := [Scroll 300; Listener (Elapse 40); Scroll 700; WindowLoad] in
  let p1 := pass b 100 (runPage sectionTops b fx evs p) in
  (pageReady p ∧ Forall forward evs ∧ 100 ≤ 100)
  ∧ inThrottle p1 = ∅
  ∧ inThrottle (scroll sectionTops b fx 0 p1)
    = {[HandleScroll; HandleScrollTop; UpdateActiveNavOnScroll]}.
Proof.
  intros p b fx evs p1.
  assert (H1 : pageReady p) by apply effectsPage_ready.
  assert (H2 : Forall forward evs) by (unfold evs, forward; repeat constructor; intros ms [=]; lia).
  assert (H3 : 100 ≤ 100) by lia.
  split; [done|].
  exact (throttle_gates_reopen sectionTops b fx evs p 100 0 H1 H2 H3).
Defined.

(** *** Observers and the preloader *)

Lemma lazy_image_loads_once_sample :
  let p := effectsPage in
  let b := bind effectsMarkup in
  let fx := bindEffects effectsMarkup in
  let entries := [(6%nat, true); (7%nat, false)] in
  let p' := dispatchPage sectionTops b fx (ImageEntries entries) p in
  (6%nat ∈ imageObserved p ∧ getAttribute (dom p) 6%nat "data-src" = Some "photo.png"
   ∧ "photo.png" ≠ "" ∧ (6%nat, true) ∈ entries)
  ∧ getAttribute (dom p') 6%nat "src" = Some "photo.png"
  ∧ hasClass (dom p') 6%nat "loaded" = true
  ∧ (6%nat ∉ imageObserved p')
  ∧ ∀ later, nodes (dom (dispatchPage sectionTops b fx (ImageEntries later) p')) !! 6%nat
             = nodes (dom p') !! 6%nat.
Proof.
  intros p b fx entries p'.
  assert (H1 : 6%nat ∈ imageObserved p) by by_compute.
  assert (H2 : getAttribute (dom p) 6%nat "data-src" = Some "photo.png")
    by (vm_compute; reflexivity).
  assert (H3 : "photo.png" ≠ "") by done.
  assert (H4 : (6%nat, true) ∈ entries) by (by left).
  split; [done|].
  exact (lazy_image_loads_once sectionTops b fx p 6%nat "photo.png" entries H1 H2 H3 H4).
Defined.

Lemma lazy_image_without_source_never_loads_sample :
  let p := effectsPage in
  let b := bind effectsMarkup in
  let fx := bindEffects effectsMarkup in
  let entries := [(7%nat, true)] in
  let p' := dispatchPage sectionTops b fx (ImageEntries entries) p in
  (7%nat ∈ imageObserved p ∧ is_Some (nodes (dom p) !! 7%nat)
   ∧ from_option Str.truthy false (getAttribute (dom p) 7%nat "data-src") = false
   ∧ (7%nat, true) ∈ entries)
  ∧ nodes (dom p') !! 7%nat = nodes (dom p) !! 7%nat
  ∧ (7%nat ∉ imageObserved p')
  ∧ ∀ later, nodes (dom (dispatchPage sectionTops b fx (ImageEntries later) p')) !! 7%nat
             = nodes (dom p) !! 7%nat.
Proof.
  intros p b fx entries p'.
  assert (H1 : 7%nat ∈ imageObserved p) by by_compute.
  assert (H2 : is_Some (nodes (dom p) !! 7%nat)) by by_compute.
  assert (H3 : from_option Str.truthy false (getAttribute (dom p) 7%nat "data-src") = false)
    by (vm_compute; reflexivity).
  assert (H4 : (7%nat, true) ∈ entries) by (by left).
  split; [done|].
  exact (lazy_image_without_source_never_loads sectionTops b fx p 7%nat entries H1 H2 H3 H4).
Defined.

Lemma animate_in_is_added_and_kept_sample :
  let p := effectsPage in
  let b := bind effectsMarkup in
  let fx := bindEffects effectsMarkup in
  let entries := [(8%nat, true)] in
  let p' := dispatchPage sectionTops b fx (AnimateEntries entries) p in
  (8%nat ∈ animateElements fx ∧ is_Some (nodes (dom p) !! 8%nat))
  ∧ hasClass (dom p') 8%nat "animate-in"
    = hasClass (dom p) 8%nat "animate-in"
      || bool_decide ((8%nat, true) ∈ entries ∧ "animate-in" = "animate-in").
Proof.
  intros p b fx entries p'.
  assert (H1 : 8%nat ∈ animateElements fx) by by_compute.
  assert (H2 : is_Some (nodes (dom p) !! 8%nat)) by by_compute.
  split; [done|].
  exact (animate_in_is_added_and_kept sectionTops b fx p 8%nat entries "animate-in" H1 H2).
Defined.


Lemma preloader_hides_after_load_sample :
  let p := effectsPage in
  let b := bind effectsMarkup in
  let fx := bindEffects effectsMarkup in
  let p1 := dispatchPage sectionTops b fx WindowLoad p in
  (pageReady p ∧ preloader fx = Some 10%nat ∧ is_Some (nodes (dom p) !! 10%nat) ∧ 500 ≤ 500)
  ∧ hasClass (dom p1) 10%nat "hidden" = true
  ∧ hasClass (dom (pass b 500 p1)) 10%nat "hidden" = true
  ∧ styleOf (dom (pass b 500 p1)) 10%nat "display" = Some "none".
Proof.
  intros p b fx p1.
  assert (H1 : pageReady p) by apply effectsPage_ready.
  assert (H2 : preloader fx = Some 10%nat) by (vm_compute; reflexivity).
  assert (H3 : is_Some (nodes (dom p) !! 10%nat)) by by_compute.
  assert (H4 : 500 ≤ 500) by lia.
  split; [done|].
  exact (preloader_hides_after_load sectionTops b fx p 10%nat 500 H1 H2 H3 H4).
Defined.

(** The same runs read off directly. *)
Lemma effects_session :
  let b := bind effectsMarkup in
  let fx := bindEffects effectsMarkup in
  let p := runPage sectionTops b fx
             [Scroll 300; Listener (Elapse 40); Scroll 0; SkillEntries [(9%nat, true)];
              Listener (Elapse 100)] effectsPage in
  scrollY (dom p) = 0 ∧ hasClass (dom p) 0%nat "scrolled" = true
  ∧ styleOf (dom p) 9%nat "width" = Some "85%" ∧ inThrottle p = ∅.
Proof. vm_compute. done. Qed.

(** *** Sidebar, dropdown, modal and theme *)


Lemma sidebar_outside_click_only_closes_sample :
  let s := sidebarBtn_click (bind sidebarMarkup) (loaded sidebarMarkup "" ∅) in
  let b := bind (nodes s) in
  let outside := negb (contains (nodes s) 0%nat 3%nat) && negb (contains (nodes s) 1%nat 3%nat) in
  let s' := sidebar_outside_click b 3%nat s in
  (sidebar b = Some 0%nat ∧ sidebarBtn b = Some 1%nat
   ∧ is_Some (nodes s !! 0%nat) ∧ is_Some (nodes s !! 1%nat))
  ∧ hasClass s' 0%nat "active" = hasClass s 0%nat "active" && negb outside
  ∧ (if hasClass s 0%nat "active" && outside
     then getAttribute s' 1%nat "aria-expanded" = Some "false"
     else s' = s).
Proof.
  intros s b outside s'.
  assert (H1 : sidebar b = Some 0%nat) by (vm_compute; reflexivity).
  assert (H2 : sidebarBtn b = Some 1%nat) by (vm_compute; reflexivity).
  assert (H3 : is_Some (nodes s !! 0%nat)) by by_compute.
  assert (H4 : is_Some (nodes s !! 1%nat)) by by_compute.
  split; [done|].
  exact (sidebar_outside_click_only_closes b s 0%nat 1%nat 3%nat H1 H2 H3 H4).
Defined.

Lemma select_outside_click_only_closes_sample :
  let s := select_click (bind filterMarkup) (loaded filterMarkup "" ∅) in
  let b := bind (nodes s) in
  let s' := select_outside_click b 8%nat s in
  (select b = Some 0%nat ∧ is_Some (nodes s !! 0%nat))
  ∧ hasClass s' 0%nat "active" = hasClass s 0%nat "active" && contains (nodes s) 0%nat 8%nat
  ∧ (hasClass s 0%nat "active" && negb (contains (nodes s) 0%nat 8%nat) = false → s' = s)
  ∧ hasClass (select_click b s) 0%nat "active" = negb (hasClass s 0%nat "active")
  ∧ (contains (nodes s) 0%nat 8%nat = true →
     select_outside_click b 8%nat (select_click b s) = select_click b s).
Proof.
  intros s b s'.
  assert (H1 : select b = Some 0%nat) by (vm_compute; reflexivity).
  assert (H2 : is_Some (nodes s !! 0%nat)) by by_compute.
  split; [done|].
  exact (select_outside_click_only_closes b s 0%nat 8%nat H1 H2).
Defined.

Lemma escape_keydown_only_closes_sample :
  let s := stateOf (dispatch (bind modalMarkup) (TestimonialsItemClick 0%nat)
                      (loaded modalMarkup "" ∅)) in
  let b := bind (nodes s) in
  let s' := escape_keydown b "Escape" s in
  (hooksInStore b s ∧ (∀ n, modalContainer b = Some n → overlay b ≠ Some n))
  ∧ (¬ modalOperation b s (KeyDown "Escape") → s' = s)
  ∧ (∀ m, modalContainer b = Some m →
          hasClass s' m "active"
          = hasClass s m "active" && negb (bool_decide ("Escape" = "Escape"))).
Proof.
  intros s b s'.
  assert (H1 : hooksInStore b s) by apply hooksInStore_bind.
  assert (H2 : ∀ n, modalContainer b = Some n → overlay b ≠ Some n).
  { intros n Hn. vm_compute in Hn. injection Hn as <-. vm_compute. discriminate. }
  split; [done|].
  exact (escape_keydown_only_closes b s "Escape" H1 H2).
Defined.

Lemma theme_icon_follows_theme_sample :
  let s := loaded themeMarkup "" ∅ in
  let b := bind (nodes s) in
  let s' := themeToggle_click b s in
  let dark := bool_decide (attributes (documentElement s') !! "data-theme" = Some "dark") in
  (themeToggle b = Some 0%nat ∧ querySelectorIn 0%nat (TagIs "i") (nodes s) = Some 1%nat)
  ∧ attributes (documentElement s') !! "data-theme" ∈ [Some "dark"; Some "light"]
  ∧ hasClass s' 1%nat "fa-moon" = dark
  ∧ hasClass s' 1%nat "fa-sun" = negb dark.
Proof.
  intros s b s' dark.
  assert (H1 : themeToggle b = Some 0%nat) by (vm_compute; reflexivity).
  assert (H2 : querySelectorIn 0%nat (TagIs "i") (nodes s) = Some 1%nat)
    by (vm_compute; reflexivity).
  split; [done|].
  exact (theme_icon_follows_theme b s 0%nat 1%nat H1 H2).
Defined.

(** *** Form *)

Lemma input_restarts_debounce_sample :
  let s0 := loaded (formMarkup "Ann" "" "Hello" [("disabled", "")]) "" ∅ in
  let b := bind (nodes s0) in
  let s := run b [FormInputInput 2%nat "ann"; Elapse 120] s0 in
  let s1 := stateOf (dispatch b (FormInputInput 2%nat "ann@example.org") s) in
  let tm0 := mkTimer (nextTimerId s) (clock s + 300) (DebounceLater 2%nat) in
  (wellTimed s ∧ 2%nat ∈ formInputs b)
  ∧ clock s1 = clock s
  ∧ tm0 ∈ timers s1
  ∧ (∀ tm, tm ∈ timers s1 → task tm = DebounceLater 2%nat → tm = tm0)
  ∧ (∀ tm, tm ∈ timers s1 → tm = tm0 ∨ tm ∈ timers s)
  ∧ wellTimed s1.
Proof.
  intros s0 b s s1 tm0.
  assert (H0 : wellTimed s0) by (apply runScript_wellTimed; reflexivity).
  assert (H1 : wellTimed s).
  { unfold s. cbn [run foldl].
    apply dispatch_wellTimed; [intros ms [= <-]; lia|].
    apply dispatch_wellTimed; [by intros ms [=] | done]. }
  assert (H2 : 2%nat ∈ formInputs b) by by_compute.
  split; [done|].
  exact (input_restarts_debounce b s 2%nat "ann@example.org" H1 H2).
Defined.

Lemma validation_without_form_disables_sample :
  let s := loaded formlessMarkup "" ∅ in
  let b := bind (nodes s) in
  let s1 := stateOf (dispatch b (FormInputInput 0%nat "Ann") s) in
  (wellTimed s ∧ 0%nat ∈ formInputs b ∧ form b = None ∧ formBtn b = Some 1%nat
   ∧ is_Some (nodes s !! 1%nat))
  ∧ isDisabled (elapse b 300 s1) 1%nat = true.
Proof.
  intros s b s1.
  assert (H1 : wellTimed s) by (apply runScript_wellTimed; reflexivity).
  assert (H2 : 0%nat ∈ formInputs b) by by_compute.
  assert (H3 : form b = None) by (vm_compute; reflexivity).
  assert (H4 : formBtn b = Some 1%nat) by (vm_compute; reflexivity).
  assert (H5 : is_Some (nodes s !! 1%nat)) by by_compute.
  split; [done|].
  exact (validation_without_form_disables b s 0%nat "Ann" 1%nat H1 H2 H3 H4 H5).
Defined.

(** *** Mobile menu, filter buttons, navigation *)


Lemma filterBtn_click_highlights_one_sample :
  let s := loaded filterMarkup "" ∅ in
  let b := bind (nodes s) in
  let s' := stateOf (dispatch b (FilterBtnClick 6%nat) s) in
  (6%nat ∈ filterBtns b ∧ is_Some (nodes s !! 6%nat)
   ∧ (∀ n, n ∈ filterBtns b → hasClass s n "active" = true → lastClickedBtn s = Some n))
  ∧ lastClickedBtn s' = Some 6%nat
  ∧ (∀ n, n ∈ filterBtns b → hasClass s' n "active" = bool_decide (n = 6%nat)).
Proof.
  intros s b s'.
  assert (H1 : 6%nat ∈ filterBtns b) by by_compute.
  assert (H2 : is_Some (nodes s !! 6%nat)) by by_compute.
  assert (H3 : ∀ n, n ∈ filterBtns b → hasClass s n "active" = true → lastClickedBtn s = Some n).
  { apply (Forall_forall (λ n, hasClass s n "active" = true → lastClickedBtn s = Some n)
             (filterBtns b)). by_compute. }
  split; [done|].
  exact (filterBtn_click_highlights_one b s 6%nat H1 H2 H3).
Defined.


Lemma navigateToPage_unknown_sample :
  let s := loaded navMarkup "" ∅ in
  let b := bind (nodes s) in
  (b = bind (nodes s) ∧ (∀ n, n ∈ pages b → n ∉ navigationLinks b)
   ∧ ¬ knownPage b s "blog")
  ∧ activePages b (navigateToPage b "blog" s) = [].
Proof.
  intros s b.
  assert (H1 : ∀ n, n ∈ pages b → n ∉ navigationLinks b).
  { apply (Forall_forall (λ n, n ∉ navigationLinks b) (pages b)). by_compute. }
  assert (H2 : ¬ knownPage b s "blog").
  { intros (page & Hpage & Hname). revert page Hpage Hname.
    apply (Forall_forall (λ page, pageNameOf s page = Some "blog" → False) (pages b)).
    by_compute. }
  split; [done|].
  exact (navigateToPage_unknown b s "blog" eq_refl H1 H2).
Defined.

Lemma filterFunc_at_rest_sample :
  let s := loaded filterMarkup "" ∅ in
  let b := bind (nodes s) in
  (b = bind (nodes s) ∧ wellTimed s ∧ noRevealPending (timers s))
  ∧ ∀ item, item ∈ filterItems b →
      hasClass (elapse b 50 (filterFunc b "applications" s)) item "active"
      = selects "applications" (getAttribute s item "data-category").
Proof.
  intros s b.
  assert (H1 : wellTimed s) by (apply runScript_wellTimed; reflexivity).
  assert (H2 : noRevealPending (timers s)) by constructor.
  split; [done|].
  exact (filterFunc_at_rest b "applications" s eq_refl H1 H2).
Defined.

End MoreRuns.
